(** * pandas2 numeric arrays: buffers, validity bitmaps, copy-on-write

    A shallow embedding of [src/pandas/types/numeric.h] and
    [src/pandas/types/numeric.cc] (the [NumericArray] / [IntegerArray] /
    [FloatingArray] templates), together with the parts of the memory layer
    they call.

    Conventions of the embedding:
    - a [std::shared_ptr<Buffer>] is a handle into a store of buffers; the
      store keeps, for every buffer, its bytes, whether it is a
      [MutableBuffer], and its [use_count()];
    - a call either returns, or has no defined behaviour in C++ (null
      dereference, access outside a buffer, a [static_cast] to
      [MutableBuffer] of a buffer that is not one).  The second case is the
      [Undefined] outcome;
    - machine integers are [Z] with the conversion to the element type
      written out; multi-byte elements are stored least significant byte
      first. *)

From Stdlib Require Import ZArith String Lia Bool.
From stdpp Require Import base option list.

Local Open Scope Z_scope.

(** ** Outcomes of a call *)

Inductive fault : Type :=
| NullDereference   (* [*p] or [p->] on a null [shared_ptr] *)
| OutOfBounds       (* read or write outside the bytes of a buffer *)
| NotMutable.       (* [static_cast<MutableBuffer*>] of a plain [Buffer] *)

Inductive outcome (A : Type) : Type :=
| Return (a : A)
| Undefined (f : fault).

Arguments Return {A} a.
Arguments Undefined {A} f.

#[global] Instance outcome_ret : MRet outcome := fun A a => Return a.
#[global] Instance outcome_bind : MBind outcome := fun A B k m =>
  match m with
  | Return a => k a
  | Undefined f => Undefined f
  end.
#[global] Instance outcome_fmap : FMap outcome := fun A B g m =>
  match m with
  | Return a => Return (g a)
  | Undefined f => Undefined f
  end.

(** [Status]: the result type of every fallible operation.  [PythonError] is
    what [RETURN_IF_PYERROR] returns when the interpreter has an error
    pending (the macro's header is not part of the sources at hand). *)
Inductive Status : Type :=
| OK
| Invalid (msg : string)
| PythonError.

Definition ok (s : Status) : bool :=
  match s with OK => true | _ => false end.

(** ** Buffers and the store *)

Record Buffer : Type := mkBuffer {
  bytes : list Z;        (* each in [0, 256) *)
  is_mutable : bool;     (* [Buffer::is_mutable()] *)
  use_count : nat        (* [shared_ptr::use_count()] of the owners *)
}.

Abbreviation handle := nat (only parsing).
Abbreviation store := (list Buffer) (only parsing).

(** [*p] for a non-null [shared_ptr<Buffer>]. *)
Definition deref (h : store) (p : handle) : outcome Buffer :=
  match h !! p with
  | Some b => Return b
  | None => Undefined NullDereference
  end.

(** [*p] for a [shared_ptr<Buffer>] that may be null. *)
Definition deref_ptr (h : store) (p : option handle) : outcome Buffer :=
  match p with
  | Some q => deref h q
  | None => Undefined NullDereference
  end.

Definition set_bytes (b : Buffer) (bs : list Z) : Buffer :=
  mkBuffer bs (is_mutable b) (use_count b).

Definition acquire (b : Buffer) : Buffer :=
  mkBuffer (bytes b) (is_mutable b) (S (use_count b)).

Definition release (b : Buffer) : Buffer :=
  mkBuffer (bytes b) (is_mutable b) (Nat.pred (use_count b)).

(** A fresh buffer owned by one [shared_ptr]; its handle is the next free
    slot of the store. *)
Definition allocate (h : store) (bs : list Z) : handle * store :=
  (length h, h ++ [mkBuffer bs true 1%nat]).

(** One owner of [p] goes away. *)
Definition drop_owner (h : store) (p : handle) : store :=
  match h !! p with
  | Some b => <[p := release b]> h
  | None => h
  end.

(** One more owner of [p]. *)
Definition add_owner (h : store) (p : handle) : store :=
  match h !! p with
  | Some b => <[p := acquire b]> h
  | None => h
  end.

Definition in_range (bs : list Z) (off len : Z) : bool :=
  (0 <=? off) && (0 <=? len) && (off + len <=? Z.of_nat (length bs)).

Definition read_bytes (bs : list Z) (off len : Z) : outcome (list Z) :=
  if in_range bs off len
  then Return (take (Z.to_nat len) (drop (Z.to_nat off) bs))
  else Undefined OutOfBounds.

Definition write_bytes (bs : list Z) (off : Z) (new : list Z) : outcome (list Z) :=
  if in_range bs off (Z.of_nat (length new))
  then Return (take (Z.to_nat off) bs ++ new
               ++ drop (Z.to_nat off + length new)%nat bs)
  else Undefined OutOfBounds.

(** Modelled from the spec: [Buffer::Copy(byteOffset, byteLength)] (memory.h
    and memory.cc are not among the sources).  It "always allocates fresh
    owned memory" and "never aliases"; the new buffer holds the bytes
    [byteOffset, byteOffset + byteLength) of the source.  The pool of the
    embedding never runs out, so the returned [Status] is always [OK] and is
    left out of the result. *)
Definition Buffer_Copy (h : store) (src : handle) (start nbytes : Z)
  : outcome (handle * store) :=
  b ← deref h src;
  bs ← read_bytes (bytes b) start nbytes;
  mret (allocate h bs).

(** Modelled from the spec: [PoolBuffer::Resize(n)] on a fresh [PoolBuffer]
    (memory.h is not among the sources): a buffer is "a byte region with a
    fixed byte length" and resizing "always allocates a new buffer"; the
    argument is a number of bytes.  The contents are zero here. *)
Definition PoolBuffer_Resize (h : store) (nbytes : Z) : handle * store :=
  allocate h (replicate (Z.to_nat nbytes) 0).

(** ** Bitmap utilities *)

Module BitUtil.

(** The bitmap utilities (bit-util.h) are not among the sources.  Bit [i] of
    a bitmap is taken to be bit [i mod 8] of byte [i / 8]; there is "no
    bounds checking", so an index outside the buffer has no defined
    behaviour. *)
Definition byte_at (bits : list Z) (i : Z) : outcome Z :=
  if 0 <=? i then
    match bits !! Z.to_nat (i / 8) with
    | Some b => Return b
    | None => Undefined OutOfBounds
    end
  else Undefined OutOfBounds.

(** Modelled from the spec: [GetBit(buffer, bitIndex)], "pure bit
    manipulation, no bounds checking": whether the bit is set. *)
Definition GetBit (bits : list Z) (i : Z) : outcome bool :=
  b ← byte_at bits i; mret (Z.testbit b (i mod 8)).

(** Modelled from the spec: [BitNotSet(buffer, bitIndex)]: whether the bit is
    not set. *)
Definition BitNotSet (bits : list Z) (i : Z) : outcome bool :=
  b ← GetBit bits i; mret (negb b).

(** Modelled from the spec: [SetBit(buffer, bitIndex)]: the bit becomes 1. *)
Definition SetBit (bits : list Z) (i : Z) : outcome (list Z) :=
  b ← byte_at bits i;
  mret (<[Z.to_nat (i / 8) := Z.lor b (Z.shiftl 1 (i mod 8))]> bits).

(** Modelled from the spec: [ClearBit(buffer, bitIndex)]: the bit becomes
    0. *)
Definition ClearBit (bits : list Z) (i : Z) : outcome (list Z) :=
  b ← byte_at bits i;
  mret (<[Z.to_nat (i / 8) := Z.ldiff b (Z.shiftl 1 (i mod 8))]> bits).

(** Modelled from the spec: the number of bytes of a bitmap "sized to hold"
    [n] bits. *)
Definition BytesForBits (n : Z) : Z := (n + 7) / 8.

End BitUtil.

(** The byte whose bit [j] is [g j], for [j] in [0, 8). *)
Definition byte_of_bits (g : Z → bool) : Z :=
  fold_right (fun j acc => if g j then Z.lor acc (Z.shiftl 1 j) else acc) 0
             [0; 1; 2; 3; 4; 5; 6; 7].

Definition bit_or_false (bits : list Z) (i : Z) : bool :=
  match BitUtil.GetBit bits i with
  | Return b => b
  | Undefined _ => false
  end.

(** Modelled from the spec: [CopyBitmap(src, bitOffset, bitLength)]
    "allocates a new bitmap buffer sized to hold [bitLength] bits and copies
    the bit range starting at [bitOffset]" (its source file is not among the
    sources).  Bits of the last byte past [bitLength] are zero. *)
Definition CopyBitmap (h : store) (src : option handle) (bit_offset bit_length : Z)
  : outcome (handle * store) :=
  b ← deref_ptr h src;
  if (0 <=? bit_offset) && (0 <=? bit_length)
     && (bit_offset + bit_length <=? 8 * Z.of_nat (length (bytes b)))
  then
    let nbytes := Z.to_nat (BitUtil.BytesForBits bit_length) in
    let byte k :=
      byte_of_bits (fun j =>
        (8 * Z.of_nat k + j <? bit_length)
        && bit_or_false (bytes b) (bit_offset + 8 * Z.of_nat k + j)) in
    mret (allocate h (map byte (seq 0 nbytes)))
  else Undefined OutOfBounds.

(** ** Element types *)

Inductive IntegerType : Type :=
| UInt8Type | Int8Type | UInt16Type | Int16Type
| UInt32Type | Int32Type | UInt64Type | Int64Type.

Inductive FloatingType : Type := FloatType | DoubleType.

Inductive DataType : Type :=
| Integer (t : IntegerType)
| Floating (t : FloatingType).

(** [sizeof(typename TYPE::c_type)] *)
Definition int_sizeof (t : IntegerType) : Z :=
  match t with
  | UInt8Type | Int8Type => 1
  | UInt16Type | Int16Type => 2
  | UInt32Type | Int32Type => 4
  | UInt64Type | Int64Type => 8
  end.

Definition float_sizeof (t : FloatingType) : Z :=
  match t with FloatType => 4 | DoubleType => 8 end.

Definition sizeof (t : DataType) : Z :=
  match t with
  | Integer i => int_sizeof i
  | Floating f => float_sizeof f
  end.

Definition is_signed (t : IntegerType) : bool :=
  match t with
  | Int8Type | Int16Type | Int32Type | Int64Type => true
  | _ => false
  end.

(** [std::numeric_limits<typename TYPE::c_type>::max()] *)
Definition numeric_limits_max (t : IntegerType) : Z :=
  if is_signed t then 2 ^ (8 * int_sizeof t - 1) - 1 else 2 ^ (8 * int_sizeof t) - 1.

(** [std::numeric_limits<float>::max()], which is the integer
    (2 - 2^-23) * 2^127. *)
Definition float_max : Z := 2 ^ 128 - 2 ^ 104.

(** Conversion of an integer value to the element type: reduction modulo
    2^width, read as two's complement for the signed types. *)
Definition convert (t : IntegerType) (z : Z) : Z :=
  let m := 2 ^ (8 * int_sizeof t) in
  let r := z mod m in
  if is_signed t && (m / 2 <=? r) then r - m else r.

Definition in_type (t : IntegerType) (z : Z) : Prop :=
  if is_signed t
  then - 2 ^ (8 * int_sizeof t - 1) <= z <= numeric_limits_max t
  else 0 <= z <= numeric_limits_max t.

(** Object representation: least significant byte first. *)
Fixpoint le_encode (n : nat) (z : Z) : list Z :=
  match n with
  | O => []
  | S n' => z mod 256 :: le_encode n' (z / 256)
  end.

Fixpoint le_decode (bs : list Z) : Z :=
  match bs with
  | [] => 0
  | b :: rest => b + 256 * le_decode rest
  end.

Definition to_bytes (t : IntegerType) (z : Z) : list Z :=
  le_encode (Z.to_nat (int_sizeof t)) z.

Definition of_bytes (t : IntegerType) (bs : list Z) : Z :=
  convert t (le_decode bs).

(** ** Limits of the arithmetic of the loops *)

(** The counter of the loops of [HasNulls], [operator+=] and
    [EvaluateBinaryOperator] is an [int] ([auto ii = 0]): it counts up to
    [n] without overflow when [n] is at most [INT_MAX]. *)
Definition int_counts (n : Z) : Prop := n <= 2 ^ 31 - 1.

(** The integer promotions and the usual arithmetic conversions on two
    element types: the width and the signedness of the type in which
    [*this_data + *other_data] is computed. *)
Definition promoted_width (t : IntegerType) : Z := Z.max 32 (8 * int_sizeof t).

Definition promoted_signed (t : IntegerType) : bool :=
  is_signed t || (8 * int_sizeof t <? 32).

Definition common_width (t u : IntegerType) : Z :=
  Z.max (promoted_width t) (promoted_width u).

Definition common_signed (t u : IntegerType) : bool :=
  if promoted_width t =? promoted_width u
  then promoted_signed t && promoted_signed u
  else if promoted_width t <? promoted_width u then promoted_signed u
  else promoted_signed t.

(** A sum that the language defines: every sum in an unsigned common type,
    and in a signed one the sums that the type represents. *)
Definition sum_defined (t u : IntegerType) (x y : Z) : Prop :=
  common_signed t u = true ->
  - 2 ^ (common_width t u - 1) <= x + y < 2 ^ (common_width t u - 1).

(** ** Python scalars *)

(** The external scalar: the NA singleton, an object that [PyNumber_Long]
    turns into the integer [z], or an object that [PyNumber_Long] rejects. *)
Inductive PyObject : Type :=
| NA
| PyLong (z : Z)
| PyOther.

Module py.
(** Modelled from the spec: [py::is_na] (pytypes.h is not among the sources)
    recognises the "distinguished null token". *)
Definition is_na (val : PyObject) : bool :=
  match val with NA => true | _ => false end.
End py.

(** [PyObjectToInt64]: the [Status], the value written to [*out], and
    whether the interpreter is left with an error pending.
    [PyLong_AsLongLong] yields -1 with an [OverflowError] pending when the
    integer does not fit in [long long]; that is not checked here. *)
Definition PyObjectToInt64 (obj : PyObject) : Status * Z * bool :=
  match obj with
  | PyLong z =>
      if (- 2 ^ 63 <=? z) && (z <=? 2 ^ 63 - 1) then (OK, z, false) else (OK, -1, true)
  | _ => (PythonError, 0, true)
  end.

(** ** NumericArray<TYPE> *)

Record NumericArray (TYPE : DataType) : Type := mkNumericArray {
  length_ : Z;
  offset_ : Z;
  data_ : handle
}.

Arguments mkNumericArray {TYPE} _ _ _.
Arguments length_ {TYPE} _.
Arguments offset_ {TYPE} _.
Arguments data_ {TYPE} _.

Section NumericArrayOps.
Context {TYPE : DataType}.
Implicit Type a : NumericArray TYPE.

(** [length()] is the field [length_]; [type()] is the singleton of
    [TYPE]. *)
Definition type a : DataType := TYPE.

(** The bytes of [data()[i]]:
    [reinterpret_cast<const T*>(data_->data()) + offset_], then [[i]]. *)
Definition data_bytes (h : store) a (i : Z) : outcome (list Z) :=
  b ← deref h (data_ a);
  read_bytes (bytes b) ((offset_ a + i) * sizeof TYPE) (sizeof TYPE).

(** [mutable_data()]: the cast to [MutableBuffer*]. *)
Definition mutable_data (h : store) a : outcome Buffer :=
  b ← deref h (data_ a);
  if is_mutable b then mret b else Undefined NotMutable.

(** [mutable_data()[i] = v], with [v] given by its bytes. *)
Definition mutable_data_set (h : store) a (i : Z) (v : list Z) : outcome store :=
  b ← mutable_data h a;
  bs ← write_bytes (bytes b) ((offset_ a + i) * sizeof TYPE) v;
  mret (<[data_ a := set_bytes b bs]> h).

Definition EnsureMutableAndCheckChange (h : store) a
  : outcome (Status * bool * NumericArray TYPE * store) :=
  b ← deref h (data_ a);
  if Nat.eqb (use_count b) 1 then mret (OK, false, a, h)
  else
    '(new_data, h1) ← Buffer_Copy h (data_ a) (offset_ a) (length_ a * sizeof TYPE);
    (* data_ = new_data: the old buffer loses this owner *)
    mret (OK, true, mkNumericArray (length_ a) 0 new_data, drop_owner h1 (data_ a)).

End NumericArrayOps.

(** ** IntegerArray<TYPE> *)

Record IntegerArray (TYPE : IntegerType) : Type := mkIntegerArray {
  base : NumericArray (Integer TYPE);
  valid_bits_ : option handle
}.

Arguments mkIntegerArray {TYPE} _ _.
Arguments base {TYPE} _.
Arguments valid_bits_ {TYPE} _.

(** [IntegerArray(length, data, valid_bits, offset = 0)] *)
Definition IntegerArray_new (TYPE : IntegerType) (length : Z) (data : handle)
    (valid_bits : option handle) (offset : Z) : IntegerArray TYPE :=
  mkIntegerArray (mkNumericArray length offset data) valid_bits.

(** [IntegerArray(length, data, offset = 0)] delegates with [nullptr]. *)
Definition IntegerArray_new_nobits (TYPE : IntegerType) (length : Z) (data : handle)
    (offset : Z) : IntegerArray TYPE :=
  IntegerArray_new TYPE length data None offset.

Section IntegerArrayOps.
Context {TYPE : IntegerType}.
Implicit Type a : IntegerArray TYPE.

(** [data()[i]] as a value of the element type. *)
Definition data_at (h : store) a (i : Z) : outcome Z :=
  bs ← data_bytes h (base a) i; mret (of_bytes TYPE bs).

Definition GetNullCount a : Z := 0.

Definition IsNull (h : store) a (i : Z) : outcome bool :=
  match valid_bits_ a with
  | Some vb =>
      b ← deref h vb;
      BitUtil.GetBit (bytes b) (offset_ (base a) + i)
  | None => mret false
  end.

(** [static_cast<MutableBuffer&>( *valid_bits_).mutable_data()] *)
Definition mutable_bits (h : store) a : outcome (handle * Buffer) :=
  match valid_bits_ a with
  | Some vb =>
      b ← deref h vb;
      if is_mutable b then mret (vb, b) else Undefined NotMutable
  | None => Undefined NullDereference
  end.

Definition SetNull (h : store) a (i : Z) : outcome store :=
  '(vb, b) ← mutable_bits h a;
  bs ← BitUtil.SetBit (bytes b) (offset_ (base a) + i);
  mret (<[vb := set_bytes b bs]> h).

Definition SetValid (h : store) a (i : Z) : outcome store :=
  '(vb, b) ← mutable_bits h a;
  bs ← BitUtil.ClearBit (bytes b) (offset_ (base a) + i);
  mret (<[vb := set_bytes b bs]> h).

(** The loop of [HasNulls].  The counter of the source is an [int]
    ([auto ii = 0]) and counts in [Z] here: the two agree for a length
    within [int_counts]. *)
Fixpoint HasNulls_loop (h : store) a (n : nat) (ii : Z) : outcome bool :=
  match n with
  | O => mret false
  | S n' =>
      b ← IsNull h a ii;
      if (b : bool) then mret true else HasNulls_loop h a n' (ii + 1)
  end.

Definition HasNulls (h : store) a : outcome bool :=
  HasNulls_loop h a (Z.to_nat (length_ (base a))) 0.

Definition CopyNulls (h : store) a (length : Z) : outcome (handle * store) :=
  CopyBitmap h (valid_bits_ a) (offset_ (base a)) length.

Definition GetItem (h : store) a (i : Z) : outcome PyObject :=
  na ← match valid_bits_ a with
       | Some vb => b ← deref h vb; BitUtil.BitNotSet (bytes b) i
       | None => mret false
       end;
  if (na : bool) then mret NA
  else v ← data_at h a i; mret (PyLong (convert Int64Type v)).

Definition owns_data (h : store) a : outcome bool :=
  d ← deref h (data_ (base a));
  match valid_bits_ a with
  | Some vb =>
      b ← deref h vb;
      mret (Nat.eqb (use_count d) 1 && Nat.eqb (use_count b) 1)
  | None => mret (Nat.eqb (use_count d) 1)
  end.

Definition Copy (h : store) a (offset length : Z)
  : outcome (Status * IntegerArray TYPE * store) :=
  let itemsize := int_sizeof TYPE in
  '(copied_data, h1) ←
    Buffer_Copy h (data_ (base a)) ((offset_ (base a) + offset) * itemsize)
                (length * itemsize);
  h2 ← match valid_bits_ a with
       | Some _ =>
           '(copied_valid_bits, h2) ←
             CopyBitmap h1 (valid_bits_ a) (offset_ (base a) + offset) length;
           (* the local [copied_valid_bits] dies at the return *)
           mret (drop_owner h2 copied_valid_bits)
       | None => mret h1
       end;
  mret (OK, IntegerArray_new_nobits TYPE length copied_data 0, h2).

Definition EnsureMutable (h : store) a
  : outcome (Status * IntegerArray TYPE * store) :=
  '(st, changed, nb, h1) ← EnsureMutableAndCheckChange h (base a);
  if negb (ok st) then mret (st, mkIntegerArray nb (valid_bits_ a), h1)
  else if negb changed then mret (OK, mkIntegerArray nb (valid_bits_ a), h1)
  else
    match valid_bits_ a with
    | Some vb =>
        '(new_valid_bits, h2) ←
          CopyBitmap h1 (valid_bits_ a) (offset_ nb) (length_ nb);
        mret (OK, mkIntegerArray nb (Some new_valid_bits), drop_owner h2 vb)
    | None => mret (OK, mkIntegerArray nb None, h1)
    end.

End IntegerArrayOps.

Section SetItem.
(** [AllocateValidityBitmap(length, &valid_bits_)] is declared in a header
    that is not among the sources, and the spec does not describe it; it is
    a parameter here: from the store and a length it yields a [Status], the
    new value of [valid_bits_] and the new store. *)
Variable AllocateValidityBitmap :
  store → Z → outcome (Status * option handle * store).

Context {TYPE : IntegerType}.
Implicit Type a : IntegerArray TYPE.

Definition SetItem (h : store) a (i : Z) (val : PyObject)
  : outcome (Status * IntegerArray TYPE * store) :=
  d ← deref h (data_ (base a));
  if negb (is_mutable d) then mret (Invalid "Underlying buffer is immutable", a, h)
  else
    v ← deref_ptr h (valid_bits_ a);
    if negb (is_mutable v) then mret (Invalid "Valid bits buffer is immutable", a, h)
    else if py.is_na val then
      '(st, a1, h1) ←
        match valid_bits_ a with
        | None =>
            '(st, p, h1) ← AllocateValidityBitmap h (length_ (base a));
            mret (st, mkIntegerArray (base a) p, h1)
        | Some _ => mret (OK, a, h)
        end;
      if negb (ok st) then mret (st, a1, h1)
      else
        '(p, b) ← mutable_bits h1 a1;
        bs ← BitUtil.ClearBit (bytes b) i;
        mret (OK, a1, <[p := set_bytes b bs]> h1)
    else
      '(p, b) ← mutable_bits h a;
      h1 ← match valid_bits_ a with
           | Some _ =>
               bs ← BitUtil.SetBit (bytes b) i;
               mret (<[p := set_bytes b bs]> h)
           | None => mret h
           end;
      let '(st, cval, pending) := PyObjectToInt64 val in
      if negb (ok st) then mret (st, a, h1)
      else
        h2 ← mutable_data_set h1 (base a) i (to_bytes TYPE cval);
        if (pending : bool) then mret (PythonError, a, h2) else mret (OK, a, h2).

End SetItem.

(** ** FloatingArray<TYPE> *)

Record FloatingArray (TYPE : FloatingType) : Type := mkFloatingArray {
  fbase : NumericArray (Floating TYPE)
}.

Arguments mkFloatingArray {TYPE} _.
Arguments fbase {TYPE} _.

(** [FloatingArray(length, data, offset = 0)] *)
Definition FloatingArray_new (TYPE : FloatingType) (length : Z) (data : handle)
    (offset : Z) : FloatingArray TYPE :=
  mkFloatingArray (mkNumericArray length offset data).

(** ** Arithmetic on integer arrays *)

Section IntegerArithmetic.
Context {TYPE OTHER_TYPE : IntegerType}.
Implicit Type a : IntegerArray TYPE.
Implicit Type other : IntegerArray OTHER_TYPE.

(** The [|=] loop on the valid bits; its counter is an [int] as in
    [HasNulls_loop]. *)
Fixpoint merge_nulls_loop (h : store) a other (n : nat) (ii : Z) : outcome store :=
  match n with
  | O => mret h
  | S n' =>
      x ← IsNull h a ii;
      y ← (if (x : bool) then mret true else IsNull h other ii);
      h' ← (if (y : bool) then SetNull h a ii else SetValid h a ii);
      merge_nulls_loop h' a other n' (ii + 1)
  end.

(** The two elementwise loops; [check] is the [HasNulls()] of [this]
    taken just before.  The sum is taken in the common type and converted
    to [T] by the store.  The counter is an [int] as in [HasNulls_loop], and
    the sum is the mathematical one: it is the sum of the source where
    [sum_defined] holds, that is, short of a signed overflow in the common
    type. *)
Fixpoint add_loop (check : bool) (h : store) a other (n : nat) (ii : Z)
  : outcome store :=
  match n with
  | O => mret h
  | S n' =>
      skip ← (if check then IsNull h a ii else mret false);
      h' ← (if (skip : bool) then mret h
            else
              x ← data_at h a ii;
              y ← data_at h other ii;
              mutable_data_set h (base a) ii (to_bytes TYPE (x + y)));
      add_loop check h' a other n' (ii + 1)
  end.

(** [operator+=].  [other] is an array object distinct from [this]; the
    two may share buffers. *)
Definition operator_plus_assign (h : store) a other
  : outcome (IntegerArray TYPE * store) :=
  '(_, a1, h1) ← EnsureMutable h a;
  let length := Z.min (length_ (base a1)) (length_ (base other)) in
  mine ← HasNulls h1 a1;
  h2 ← (if (mine : bool) then
          theirs ← HasNulls h1 other;
          if (theirs : bool)
          then merge_nulls_loop h1 a1 other (Z.to_nat length) 0
          else mret h1
        else
          theirs ← HasNulls h1 other;
          if (theirs : bool) then
            '(new_valid_bits, h') ← CopyNulls h1 other length;
            (* [new_valid_bits] goes out of scope *)
            mret (drop_owner h' new_valid_bits)
          else mret h1);
  _ ← mutable_data h2 (base a1);
  _ ← deref h2 (data_ (base other));
  check ← HasNulls h2 a1;
  h3 ← add_loop check h2 a1 other (Z.to_nat length) 0;
  mret (a1, h3).

(** [IntegerDivideInteger<OTHER_TYPE>].  The comparison with
    [numeric_limits<float>::max()] converts the integer to [float]; the
    conversion is monotone and [float_max] is an integer that [float]
    represents, so the comparison has the same result on [Z]. *)
Definition max_value : Z :=
  if numeric_limits_max TYPE >? numeric_limits_max OTHER_TYPE
  then numeric_limits_max TYPE
  else numeric_limits_max OTHER_TYPE.

Definition needs_double : bool := max_value >? float_max.

Definition IntegerDivideInteger : FloatingType :=
  if needs_double then DoubleType else FloatType.

(** The object representation of
    [static_cast<CAST_TYPE>(x) / static_cast<CAST_TYPE>(y)]; floating-point
    division is not interpreted. *)
Variable float_quotient : FloatingType → Z → Z → list Z.

Fixpoint divide_loop (h : store) a other
    (result : FloatingArray IntegerDivideInteger) (n : nat) (ii : Z)
  : outcome store :=
  match n with
  | O => mret h
  | S n' =>
      x ← data_at h a ii;
      y ← data_at h other ii;
      h' ← mutable_data_set h (fbase result) ii
             (float_quotient IntegerDivideInteger x y);
      divide_loop h' a other result n' (ii + 1)
  end.

(** The result array of [operator/] as constructed before the loop:
    [make_shared<PoolBuffer>()], [Resize(length)], [FloatingArray(length,
    data)]. *)
Definition operator_divide_result (h : store) a other
  : FloatingArray IntegerDivideInteger * store :=
  let length := Z.min (length_ (base a)) (length_ (base other)) in
  let '(data, h1) := PoolBuffer_Resize h length in
  (FloatingArray_new IntegerDivideInteger length data 0, h1).

Definition operator_divide (h : store) a other
  : outcome (FloatingArray IntegerDivideInteger * store) :=
  let length := Z.min (length_ (base a)) (length_ (base other)) in
  let '(result, h1) := operator_divide_result h a other in
  _ ← deref h1 (data_ (base a));
  _ ← deref h1 (data_ (base other));
  _ ← mutable_data h1 (fbase result);
  h2 ← divide_loop h1 a other result (Z.to_nat length) 0;
  mret (result, h2).

End IntegerArithmetic.

(** ** ArrayView *)

Module ArrayView.

(** Modelled from the spec: [ArrayView] (array.h and array.cc are not among
    the sources; only its test is).  A view is "a reference-counted handle
    onto one underlying Array plus an element offset and length window".
    Arrays are named by their identity; [groups] gives, for every array,
    the number of live views of its share-group. *)
Record t : Type := mk {
  data : nat;
  offset : Z;
  length : Z
}.

(** Modelled from the spec: the share-groups; entry [i] is "the number of
    live ArrayView instances currently sharing" array [i]. *)
Definition groups : Type := list nat.

(** Modelled from the spec: [ref_count()] of a view, the count of its
    share-group. *)
Definition ref_count (g : groups) (v : t) : nat := default 0%nat (g !! data v).

(** Modelled from the spec: "constructing from a raw Array begins a new
    share-group (ref count 1)"; the view covers the whole array. *)
Definition from_array (g : groups) (array_length : Z) : t * groups :=
  (mk (List.length g) 0 array_length, g ++ [1%nat]).

(** Modelled from the spec: "[Slice(start)] / [Slice(start, len)] produce a
    new view over the same underlying Array (ref count +1), with
    [newOffset = thisOffset + start] and
    [newLength = len ?? (thisLength - start)]". *)
Definition Slice (g : groups) (v : t) (start : Z) (len : option Z) : t * groups :=
  (mk (data v) (offset v + start) (default (length v - start) len),
   alter S (data v) g).

End ArrayView.

(** ** Addable: [operator+] from [operator+=] *)

Section Addable.
Context {TYPE OTHER_TYPE : IntegerType}.

(** The copy constructor of [IntegerArray] ([= default]): the fields are
    copied, so each buffer gains an owner. *)
Definition IntegerArray_copy (h : store) (a : IntegerArray TYPE)
  : IntegerArray TYPE * store :=
  let h1 := add_owner h (data_ (base a)) in
  (a, match valid_bits_ a with
      | Some vb => add_owner h1 vb
      | None => h1
      end).

(** [Addable<IntegerArray<TYPE>>::operator+]: [copy( *this)], [copy += other],
    [return std::move(copy)]. *)
Definition operator_plus (h : store) (a : IntegerArray TYPE)
    (other : IntegerArray OTHER_TYPE) : outcome (IntegerArray TYPE * store) :=
  let '(copy, h1) := IntegerArray_copy h a in
  operator_plus_assign h1 copy other.

End Addable.

(** ** FloatingArray<TYPE>: the methods *)

(** The right operand of a floating-point operator: [ARRAY_TYPE<DATA_TYPE>]
    is an integer array or a floating array; which one is known where the
    operator is instantiated. *)
Inductive operand : Type :=
| IntegerOperand {T : IntegerType} (o : IntegerArray T)
| FloatingOperand {T : FloatingType} (o : FloatingArray T).

(** An element of the right operand: an integer of its type, or the object
    representation of a floating-point number. *)
Inductive scalar : Type :=
| IntegerValue (T : IntegerType) (z : Z)
| FloatingValue (T : FloatingType) (repr : list Z).

(** The two lambdas, [plus_equals] and [divide_equals]. *)
Inductive OPERATOR : Type := plus_equals | divide_equals.

(** [other.length()] *)
Definition operand_length (other : operand) : Z :=
  match other with
  | IntegerOperand o => length_ (base o)
  | FloatingOperand o => length_ (fbase o)
  end.

(** The data buffer of the right operand. *)
Definition operand_data (other : operand) : handle :=
  match other with
  | IntegerOperand o => data_ (base o)
  | FloatingOperand o => data_ (fbase o)
  end.

(** [other.data()[i]] *)
Definition operand_at (h : store) (other : operand) (i : Z) : outcome scalar :=
  match other with
  | @IntegerOperand T o => z ← data_at h o i; mret (IntegerValue T z)
  | @FloatingOperand T o => bs ← data_bytes h (fbase o) i; mret (FloatingValue T bs)
  end.

Module Floating.
Section FloatingArrayOps.
Context {TYPE : FloatingType}.
Implicit Type a : FloatingArray TYPE.

(** Floating-point arithmetic is not interpreted: [quiet_NaN] is the object
    representation of [numeric_limits<T>::quiet_NaN()], and [operation op
    left right] that of [left] after [left += right] or [left /= right]. *)
Variable quiet_NaN : FloatingType → list Z.
Variable operation : OPERATOR → FloatingType → list Z → scalar → list Z.

Definition GetNullCount a : Z := 0.

(** [GetItem] returns [NULL]. *)
Definition GetItem (h : store) a (i : Z) : option PyObject := None.

Definition SetItem (h : store) a (i : Z) (val : PyObject)
  : Status * FloatingArray TYPE * store :=
  (OK, a, h).

Definition Copy (h : store) a (offset length : Z)
  : outcome (Status * FloatingArray TYPE * store) :=
  let itemsize := float_sizeof TYPE in
  '(copied_data, h1) ←
    Buffer_Copy h (data_ (fbase a)) (offset * itemsize) (length * itemsize);
  mret (OK, FloatingArray_new TYPE length copied_data 0, h1).

Definition owns_data (h : store) a : outcome bool :=
  d ← deref h (data_ (fbase a)); mret (Nat.eqb (use_count d) 1).

(** [std::is_assignable<IntegerArray<DATA_TYPE>, ARRAY_TYPE<DATA_TYPE>>::value],
    the test that selects the overload of [IsNull(other, i)].  [IntegerArray]
    declares a copy and a move constructor and no assignment operator, so
    its copy assignment is deleted and nothing can be assigned to it: the
    test fails for an integer array as it does for a floating one. *)
Definition assignable_to_IntegerArray (other : operand) : bool :=
  match other with
  | IntegerOperand _ => false
  | FloatingOperand _ => false
  end.

(** The two overloads of [IsNull(other, i)]: [other.IsNull(i)] where the
    test holds, the constant [false] where it does not. *)
Definition IsNull (h : store) (other : operand) (i : Z) : outcome bool :=
  match other with
  | IntegerOperand o =>
      if assignable_to_IntegerArray other then IsNull h o i else mret false
  | FloatingOperand _ => mret false
  end.

(** The loop of [EvaluateBinaryOperator]; its counter is an [int] as in
    [HasNulls_loop]. *)
Fixpoint EvaluateBinaryOperator_loop (op : OPERATOR) (h : store) a
    (other : operand) (n : nat) (ii : Z) : outcome store :=
  match n with
  | O => mret h
  | S n' =>
      null ← IsNull h other ii;
      h' ← (if (null : bool)
            then mutable_data_set h (fbase a) ii (quiet_NaN TYPE)
            else
              left ← data_bytes h (fbase a) ii;
              right ← operand_at h other ii;
              mutable_data_set h (fbase a) ii (operation op TYPE left right));
      EvaluateBinaryOperator_loop op h' a other n' (ii + 1)
  end.

Definition EvaluateBinaryOperator (op : OPERATOR) (h : store) a (other : operand)
  : outcome (FloatingArray TYPE * store) :=
  '(_, _, nb, h1) ← EnsureMutableAndCheckChange h (fbase a);
  let a1 := mkFloatingArray nb in
  let added := Z.min (length_ nb) (operand_length other) in
  _ ← mutable_data h1 nb;
  _ ← deref h1 (operand_data other);
  h2 ← EvaluateBinaryOperator_loop op h1 a1 other (Z.to_nat added) 0;
  mret (a1, h2).

(** [operator/=] and [operator+=] *)
Definition operator_divide_assign (h : store) a (other : operand) :=
  EvaluateBinaryOperator divide_equals h a other.

Definition operator_plus_assign (h : store) a (other : operand) :=
  EvaluateBinaryOperator plus_equals h a other.

(** The copy constructor ([= default]): the data buffer gains an owner. *)
Definition FloatingArray_copy (h : store) a : FloatingArray TYPE * store :=
  (a, add_owner h (data_ (fbase a))).

(** [Addable::operator+] and [Divisable::operator/]: copy, then the in-place
    operator on the copy. *)
Definition operator_plus (h : store) a (other : operand) :=
  let '(copy, h1) := FloatingArray_copy h a in operator_plus_assign h1 copy other.

Definition operator_divide (h : store) a (other : operand) :=
  let '(copy, h1) := FloatingArray_copy h a in operator_divide_assign h1 copy other.

End FloatingArrayOps.
End Floating.

(** ** The Python class [Array] *)

Module PyArray.

Inductive exception : Type :=
| IndexError (i : Z)
| NotImplementedError
| OverflowError.

(** How a method call ends: with a value, with an exception, or in the
    undefined behaviour of the C++ call it made. *)
Inductive completion (A : Type) : Type :=
| Returned (a : A)
| Raised (e : exception)
| Crashed (f : fault).

Arguments Returned {A} a.
Arguments Raised {A} e.
Arguments Crashed {A} f.

(** A subscript: an integer, or a slice whose three parts are [None] or an
    integer. *)
Inductive subscript : Type :=
| Index (i : Z)
| Slice (start stop step : option Z).

(** What [__getitem__] evaluates to: an element, or [None]. *)
Inductive value : Type :=
| Item (o : PyObject)
| PyNone.

(** [while i < 0: i += n], run for at most [fuel] rounds; [None] when the
    rounds do not suffice. *)
Fixpoint wrap_negative (fuel : nat) (i n : Z) : option Z :=
  if i <? 0 then
    match fuel with
    | O => None
    | S fuel' => wrap_negative fuel' (i + n) n
    end
  else Some i.

(** [x or d] for [x] that is [None] or an integer. *)
Definition or_default (x : option Z) (d : Z) : Z :=
  match x with
  | Some z => if z =? 0 then d else z
  | None => d
  end.

Section Methods.
Variable AllocateValidityBitmap :
  store → Z → outcome (Status * option handle * store).
Context {TYPE : IntegerType}.
Implicit Type ap : IntegerArray TYPE.

(** [__len__]; also [len(self)] when the length is not negative. *)
Definition __len__ ap : Z := length_ (base ap).

(** [slice(self, start, end)]: [pass]. *)
Definition slice ap (start stop : Z) : value := PyNone.

(** [_getitem(self, size_t i)]; the argument is not negative where it is
    called.  The comparison converts the length to [size_t], the call of
    [GetItem] converts the index to [int64_t]. *)
Definition _getitem (h : store) ap (i : Z) : completion value :=
  if 2 ^ 64 <=? i then Raised OverflowError
  else if i >=? length_ (base ap) mod 2 ^ 64 then Raised (IndexError i)
  else
    match GetItem h ap (convert Int64Type i) with
    | Return o => Returned (Item o)
    | Undefined f => Crashed f
    end.

Definition __getitem__ (fuel : nat) (h : store) ap (i : subscript)
  : option (completion value) :=
  let n := __len__ ap in
  match i with
  | Slice start stop step =>
      start ← wrap_negative fuel (or_default start 0) n;
      stop ← wrap_negative fuel (match stop with Some z => z | None => n end) n;
      if negb (or_default step 1 =? 1) then Some (Raised NotImplementedError)
      else Some (Returned (slice ap start stop))
  | Index i =>
      i ← wrap_negative fuel i (length_ (base ap));
      Some (_getitem h ap i)
  end.

(** [_setitem(self, size_t i, object val)]: the [Status] of [SetItem] is not
    looked at. *)
Definition _setitem (h : store) ap (i : Z) (val : PyObject)
  : completion (IntegerArray TYPE * store) :=
  if 2 ^ 64 <=? i then Raised OverflowError
  else if i >=? length_ (base ap) mod 2 ^ 64 then Raised (IndexError i)
  else
    match SetItem AllocateValidityBitmap h ap (convert Int64Type i) val with
    | Return (_, ap', h') => Returned (ap', h')
    | Undefined f => Crashed f
    end.

Definition __setitem__ (fuel : nat) (h : store) ap (i : subscript) (val : PyObject)
  : option (completion (IntegerArray TYPE * store)) :=
  match i with
  | Slice _ _ _ => Some (Raised NotImplementedError)
  | Index i =>
      i ← wrap_negative fuel i (length_ (base ap));
      Some (_setitem h ap i val)
  end.

End Methods.
End PyArray.

(** ** Relations between stores *)

(** Every buffer of [h] is still there in [h'], with the same bytes and the
    same mutability; owners may have come and gone. *)
Definition preserved (h h' : store) : Prop :=
  forall p b, h !! p = Some b ->
    exists b', h' !! p = Some b' /\ bytes b' = bytes b /\ is_mutable b' = is_mutable b.

(** As [preserved], for the buffers whose handle is not in [W]. *)
Definition preserved_except (W : nat → Prop) (h h' : store) : Prop :=
  forall p b, h !! p = Some b -> ~ W p ->
    exists b', h' !! p = Some b' /\ bytes b' = bytes b /\ is_mutable b' = is_mutable b.

(** The handles of the buffers of an array. *)
Definition buffers_of {TYPE} (a : IntegerArray TYPE) (p : nat) : Prop :=
  p = data_ (base a) \/ valid_bits_ a = Some p.

(** ** Sample stores and arrays *)

Module Samples.

(** One uint8 element, 5, with a bitmap whose bit 0 is set. *)
Definition one_marked_store : store :=
  [mkBuffer [5] true 1; mkBuffer [1] true 1].
Definition one_marked : IntegerArray UInt8Type :=
  IntegerArray_new UInt8Type 1 0%nat (Some 1%nat) 0.

(** The same element with the bit cleared. *)
Definition one_unmarked_store : store :=
  [mkBuffer [5] true 1; mkBuffer [0] true 1].

(** The second element, 9, of a two-element buffer; of the bitmap, bit 0 is
    set and bit 1 is not. *)
Definition tail_store : store :=
  [mkBuffer [7; 9] true 1; mkBuffer [1] true 1].
Definition tail : IntegerArray UInt8Type :=
  IntegerArray_new UInt8Type 1 0%nat (Some 1%nat) 1.

(** Two int8 arrays: [left] = [1, 2] without a bitmap, [right] = [10, 20]
    with a bitmap whose bit 0 is set and whose bit 1 is not.  Every buffer
    is mutable and has one owner. *)
Definition pair_store : store :=
  [mkBuffer [1; 2] true 1; mkBuffer [10; 20] true 1; mkBuffer [1] true 1].
Definition left : IntegerArray Int8Type :=
  IntegerArray_new_nobits Int8Type 2 0%nat 0.
Definition right : IntegerArray Int8Type :=
  IntegerArray_new Int8Type 2 1%nat (Some 2%nat) 0.

(** Elements 1 and 2 of an int16 buffer holding [0, 1, 2]; the buffer wraps
    foreign memory and has a second owner. *)
Definition window_store : store :=
  [mkBuffer [0; 0; 1; 0; 2; 0] false 2].
Definition window : NumericArray (Integer Int16Type) :=
  mkNumericArray 2 1 0%nat.
Definition int_window : IntegerArray Int16Type := mkIntegerArray window None.

(** Two int32 arrays of three elements, [1, 2, 3] and [4, 5, 6]. *)
Definition numerator_store : store :=
  [mkBuffer [1; 0; 0; 0; 2; 0; 0; 0; 3; 0; 0; 0] true 1;
   mkBuffer [4; 0; 0; 0; 5; 0; 0; 0; 6; 0; 0; 0] true 1].
Definition numerator : IntegerArray Int32Type :=
  IntegerArray_new_nobits Int32Type 3 0%nat 0.
Definition denominator : IntegerArray Int32Type :=
  IntegerArray_new_nobits Int32Type 3 1%nat 0.

(** One int8 element, 127, and one int8 element, 1. *)
Definition edge_store : store :=
  [mkBuffer [127] true 1; mkBuffer [1] true 1].
Definition edge : IntegerArray Int8Type :=
  IntegerArray_new_nobits Int8Type 1 0%nat 0.
Definition unit_step : IntegerArray Int8Type :=
  IntegerArray_new_nobits Int8Type 1 1%nat 0.

(** One uint8 element, 5, with a full bitmap byte; the data buffer is
    mutable and has two owners. *)
Definition shared_store : store :=
  [mkBuffer [5] true 2; mkBuffer [255] true 1].
Definition shared : IntegerArray UInt8Type :=
  IntegerArray_new UInt8Type 1 0%nat (Some 1%nat) 0.

(** The same over foreign memory with a single owner. *)
Definition foreign_store : store :=
  [mkBuffer [5] false 1; mkBuffer [255] true 1].

(** The same over foreign memory with two owners. *)
Definition wrapped_store : store :=
  [mkBuffer [5] false 2; mkBuffer [255] true 1].

(** A stand-in for [AllocateValidityBitmap]: a bitmap of zero bytes. *)
Definition zero_bitmap (h : store) (n : Z)
  : outcome (Status * option handle * store) :=
  let '(p, h1) := allocate h (replicate (Z.to_nat (BitUtil.BytesForBits n)) 0) in
  Return (OK, Some p, h1).

(** A stand-in for the bytes of a quotient: zeros of the right size. *)
Definition zero_quotient (t : FloatingType) (x y : Z) : list Z :=
  replicate (Z.to_nat (float_sizeof t)) 0.

End Samples.


(** Whether [a] is null at [j] for [IsNull], and the element of [a] at [j],
    where they can be read. *)
Definition null_at {TYPE} (h : store) (a : IntegerArray TYPE) (j : Z) : bool :=
  match IsNull h a j with
  | Return b => b
  | Undefined _ => false
  end.

Definition value_at {TYPE} (h : store) (a : IntegerArray TYPE) (j : Z) : Z :=
  match data_at h a j with
  | Return x => x
  | Undefined _ => 0
  end.

Module Fixtures.

(** Stand-ins for the bytes of a NaN and of the result of an operation. *)
Definition all_ones (t : FloatingType) : list Z :=
  replicate (Z.to_nat (float_sizeof t)) 255.
Definition all_zeros (op : OPERATOR) (t : FloatingType) (l : list Z) (r : scalar)
  : list Z :=
  replicate (Z.to_nat (float_sizeof t)) 0.

(** A single-precision array of two elements, and the int8 array [10, 20]
    whose bitmap has bit 0 set. *)
Definition real_store : store :=
  [mkBuffer [1; 1; 1; 1; 2; 2; 2; 2] true 1;
   mkBuffer [10; 20] true 1; mkBuffer [1] true 1].
Definition reals : FloatingArray FloatType := FloatingArray_new FloatType 2 0%nat 0.
Definition marks : IntegerArray Int8Type :=
  IntegerArray_new Int8Type 2 1%nat (Some 2%nat) 0.

(** Two int8 arrays with bitmaps: [1, 2, 3] with bit 0 set, and
    [10, 20, 30] with bit 1 set. *)
Definition masked_store : store :=
  [mkBuffer [1; 2; 3] true 1; mkBuffer [1] true 1;
   mkBuffer [10; 20; 30] true 1; mkBuffer [2] true 1].
Definition masked_left : IntegerArray Int8Type :=
  IntegerArray_new Int8Type 3 0%nat (Some 1%nat) 0.
Definition masked_right : IntegerArray Int8Type :=
  IntegerArray_new Int8Type 3 2%nat (Some 3%nat) 0.

End Fixtures.

(** * Properties *)

(** ** Division: the floating type of the quotient *)

Lemma numeric_limits_max_values :
  numeric_limits_max UInt8Type = 255
  /\ numeric_limits_max Int8Type = 127
  /\ numeric_limits_max UInt16Type = 65535
  /\ numeric_limits_max Int16Type = 32767
  /\ numeric_limits_max UInt32Type = 4294967295
  /\ numeric_limits_max Int32Type = 2147483647
  /\ numeric_limits_max UInt64Type = 18446744073709551615
  /\ numeric_limits_max Int64Type = 9223372036854775807
  /\ float_max = 340282346638528859811704183484516925440.
Proof. vm_compute. repeat split. Qed.

Lemma numeric_limits_max_le_uint64 (t : IntegerType) :
  0 < numeric_limits_max t <= 2 ^ 64 - 1.
Proof. destruct t; vm_compute; split; congruence. Qed.

Lemma max_value_is_max (t u : IntegerType) :
  @max_value t u = Z.max (numeric_limits_max t) (numeric_limits_max u).
Proof.
  unfold max_value.
  destruct (Z.gtb_spec (numeric_limits_max t) (numeric_limits_max u)); lia.
Qed.

(** C5, as stated, fails: the quotient of two int64 arrays is not a
    double-precision array. *)
Lemma int64_quotient_not_double :
  @IntegerDivideInteger Int64Type Int64Type <> DoubleType.
Proof. vm_compute. discriminate. Qed.

(** C5, amended: the floating type of [a / other] is fixed by the two element
    types alone, through their static maxima: it is [DoubleType] exactly when
    the larger maximum exceeds [numeric_limits<float>::max()].  No integer
    type has such a maximum (the largest is 2^64 - 1), so the quotient is a
    single-precision array for every pair of types, two int64 arrays
    included. *)
Theorem division_result_type (t u : IntegerType) :
  @max_value t u = Z.max (numeric_limits_max t) (numeric_limits_max u)
  /\ @needs_double t u = (Z.max (numeric_limits_max t) (numeric_limits_max u) >? float_max)
  /\ @IntegerDivideInteger t u = (if @needs_double t u then DoubleType else FloatType)
  /\ @needs_double t u = false
  /\ @IntegerDivideInteger t u = FloatType.
Proof.
  assert (Hn : @needs_double t u = false).
  { unfold needs_double. rewrite max_value_is_max.
    pose proof (numeric_limits_max_le_uint64 t) as Ht.
    pose proof (numeric_limits_max_le_uint64 u) as Hu.
    assert (Hf : 2 ^ 64 - 1 < float_max) by (vm_compute; reflexivity).
    destruct (Z.gtb_spec (Z.max (numeric_limits_max t) (numeric_limits_max u)) float_max);
      [lia | reflexivity]. }
  split; [apply max_value_is_max |].
  split; [unfold needs_double; now rewrite max_value_is_max |].
  split; [reflexivity |].
  split; [exact Hn |].
  unfold IntegerDivideInteger. now rewrite Hn.
Qed.

(** ** Slicing a view *)

(** The [Slice] test of the sources, replayed on the model. *)
Lemma TestArrayView_Slice :
  let '(view_, g0) := ArrayView.from_array [] 8 in
  let '(s1, g1) := ArrayView.Slice g0 view_ 3 None in
  let '(s2, g2) := ArrayView.Slice g1 view_ 2 (Some 4) in
  let '(s3, g3) := ArrayView.Slice g2 s1 2 None in
  let '(s4, g4) := ArrayView.Slice g3 s1 1 (Some 2) in
  (ArrayView.ref_count g1 s1 = 2%nat /\ ArrayView.offset s1 = 3
   /\ ArrayView.length s1 = ArrayView.length view_ - 3)
  /\ (ArrayView.ref_count g2 s2 = 3%nat /\ ArrayView.offset s2 = 2
      /\ ArrayView.length s2 = 4)
  /\ (ArrayView.ref_count g3 s3 = 4%nat /\ ArrayView.offset s3 = 5
      /\ ArrayView.length s3 = ArrayView.length view_ - 5)
  /\ (ArrayView.ref_count g4 s4 = 5%nat /\ ArrayView.offset s4 = 4
      /\ ArrayView.length s4 = 2).
Proof. vm_compute. repeat split. Qed.

(** C9, as stated, fails on its example: slicing [v.Slice(2, 4)] by
    [Slice(1, 2)] gives offset 3, not 4. *)
Lemma slice_2_4_then_1_2_offset :
  let '(v, g0) := ArrayView.from_array [] 8 in
  let '(s, g1) := ArrayView.Slice g0 v 2 (Some 4) in
  let '(s', _) := ArrayView.Slice g1 s 1 (Some 2) in
  ArrayView.offset s' <> 4.
Proof. vm_compute. discriminate. Qed.

(** C9, amended: for a view [v] with offset [o] and length [L] and
    [0 <= k <= L], [v.Slice(k)] is a view of the same array with offset
    [o + k] and length [L - k], [v.Slice(k, m)] one with offset [o + k] and
    length [m]; offsets accumulate, so on the length-8 example
    [v.Slice(3).Slice(1, 2)] has offset 4 and length 2, and
    [v.Slice(2, 4).Slice(1, 2)] has offset 3 and length 2. *)
Theorem Slice_offset_length (g : ArrayView.groups) (v : ArrayView.t) (k m : Z) :
  0 <= k <= ArrayView.length v ->
  (let s := fst (ArrayView.Slice g v k None) in
   ArrayView.data s = ArrayView.data v
   /\ ArrayView.offset s = ArrayView.offset v + k
   /\ ArrayView.length s = ArrayView.length v - k)
  /\ (let s := fst (ArrayView.Slice g v k (Some m)) in
      ArrayView.data s = ArrayView.data v
      /\ ArrayView.offset s = ArrayView.offset v + k
      /\ ArrayView.length s = m)
  /\ (let '(v8, g0) := ArrayView.from_array [] 8 in
      let '(s1, g1) := ArrayView.Slice g0 v8 3 None in
      let '(s4, g2) := ArrayView.Slice g1 s1 1 (Some 2) in
      let '(s2, g3) := ArrayView.Slice g2 v8 2 (Some 4) in
      let '(s5, _) := ArrayView.Slice g3 s2 1 (Some 2) in
      ArrayView.offset s4 = 4 /\ ArrayView.length s4 = 2
      /\ ArrayView.offset s5 = 3 /\ ArrayView.length s5 = 2).
Proof.
  intros _. repeat split.
Qed.

Lemma Slice_offset_length_witness :
  let v := ArrayView.mk 0 0 8 in
  0 <= 3 <= ArrayView.length v
  /\ ArrayView.offset (fst (ArrayView.Slice [1%nat] v 3 None)) = 3.
Proof.
  split; [simpl; lia |].
  apply (Slice_offset_length [1%nat] (ArrayView.mk 0 0 8) 3 0). simpl; lia.
Defined.

(** ** SetItem on an array without a validity bitmap *)

Section SetItemNoBitmap.
Variable AllocateValidityBitmap :
  store → Z → outcome (Status * option handle * store).

(** C10: on an array made by the single-buffer constructor, [SetItem]
    either returns [Invalid] at the check of the data buffer, or
    dereferences the null [valid_bits_]; it never gets to the assignment,
    whatever the index and the value. *)
Theorem SetItem_without_bitmap (TYPE : IntegerType) (h : store)
    (length : Z) (data : handle) (offset i : Z) (val : PyObject) :
  let a := IntegerArray_new_nobits TYPE length data offset in
  SetItem AllocateValidityBitmap h a i val =
    match h !! data with
    | Some d =>
        if is_mutable d then Undefined NullDereference
        else Return (Invalid "Underlying buffer is immutable", a, h)
    | None => Undefined NullDereference
    end
  /\ (forall st a' h',
        SetItem AllocateValidityBitmap h a i val = Return (st, a', h') ->
        st = Invalid "Underlying buffer is immutable" /\ a' = a /\ h' = h).
Proof.
  intros a.
  assert (E : SetItem AllocateValidityBitmap h a i val =
    match h !! data with
    | Some d =>
        if is_mutable d then Undefined NullDereference
        else Return (Invalid "Underlying buffer is immutable", a, h)
    | None => Undefined NullDereference
    end).
  { unfold SetItem, a, IntegerArray_new_nobits, IntegerArray_new, deref; simpl.
    destruct (h !! data) as [d |]; simpl; [| reflexivity].
    destruct (is_mutable d); reflexivity. }
  split; [exact E |].
  intros st a' h'. rewrite E.
  destruct (h !! data) as [d |]; [| discriminate].
  destruct (is_mutable d); [discriminate |].
  intros [= <- <- <-]. auto.
Qed.

End SetItemNoBitmap.

(** ** The reading of the validity bits *)

Lemma testbit_lor_shiftl_same (b k : Z) :
  0 <= k -> Z.testbit (Z.lor b (Z.shiftl 1 k)) k = true.
Proof.
  intros Hk. rewrite Z.lor_spec, Z.shiftl_spec by lia.
  replace (k - k) with 0 by lia. simpl. apply orb_true_r.
Qed.

Lemma testbit_ldiff_shiftl_same (b k : Z) :
  0 <= k -> Z.testbit (Z.ldiff b (Z.shiftl 1 k)) k = false.
Proof.
  intros Hk. rewrite Z.ldiff_spec, Z.shiftl_spec by lia.
  replace (k - k) with 0 by lia. simpl. apply andb_false_r.
Qed.

Lemma byte_at_Return (bits : list Z) (i b : Z) :
  BitUtil.byte_at bits i = Return b ->
  0 <= i /\ bits !! Z.to_nat (i / 8) = Some b.
Proof.
  unfold BitUtil.byte_at. destruct (Z.leb_spec 0 i); [| discriminate].
  destruct (bits !! Z.to_nat (i / 8)) eqn:E; [| discriminate].
  intros [= ->]. auto.
Qed.

Lemma byte_at_insert (bits : list Z) (i b c : Z) :
  BitUtil.byte_at bits i = Return b ->
  BitUtil.byte_at (<[Z.to_nat (i / 8) := c]> bits) i = Return c.
Proof.
  intros H. apply byte_at_Return in H as [Hi Hb].
  unfold BitUtil.byte_at. destruct (Z.leb_spec 0 i); [| lia].
  rewrite list_lookup_insert_eq; [reflexivity |].
  eapply lookup_lt_Some; eauto.
Qed.

(** The model of the bit utilities: a bit that was set reads as set, a bit
    that was cleared reads as not set. *)
Lemma GetBit_SetBit (bits bits' : list Z) (i : Z) :
  BitUtil.SetBit bits i = Return bits' -> BitUtil.GetBit bits' i = Return true.
Proof.
  unfold BitUtil.SetBit, BitUtil.GetBit.
  destruct (BitUtil.byte_at bits i) as [b |] eqn:E; simpl; [| discriminate].
  intros [= <-]. rewrite (byte_at_insert _ _ _ _ E). simpl.
  f_equal. apply testbit_lor_shiftl_same. apply Z.mod_pos_bound. lia.
Qed.

Lemma GetBit_ClearBit (bits bits' : list Z) (i : Z) :
  BitUtil.ClearBit bits i = Return bits' -> BitUtil.GetBit bits' i = Return false.
Proof.
  unfold BitUtil.ClearBit, BitUtil.GetBit.
  destruct (BitUtil.byte_at bits i) as [b |] eqn:E; simpl; [| discriminate].
  intros [= <-]. rewrite (byte_at_insert _ _ _ _ E). simpl.
  f_equal. apply testbit_ldiff_shiftl_same. apply Z.mod_pos_bound. lia.
Qed.

(** What [IsNull] and [GetItem] read on an array with a bitmap. *)
Lemma IsNull_with_bitmap {TYPE} (h : store) (a : IntegerArray TYPE)
    (vb : handle) (b : Buffer) (i : Z) :
  valid_bits_ a = Some vb -> h !! vb = Some b ->
  IsNull h a i = BitUtil.GetBit (bytes b) (offset_ (base a) + i).
Proof. intros Hv Hb. unfold IsNull, deref. now rewrite Hv, Hb. Qed.

Lemma GetItem_NA_with_bitmap {TYPE} (h : store) (a : IntegerArray TYPE)
    (vb : handle) (b : Buffer) (i : Z) :
  valid_bits_ a = Some vb -> h !! vb = Some b ->
  BitUtil.GetBit (bytes b) i = Return false ->
  GetItem h a i = Return NA.
Proof.
  intros Hv Hb Hg. unfold GetItem, deref, BitUtil.BitNotSet.
  rewrite Hv, Hb. simpl. rewrite Hg. reflexivity.
Qed.

(** After [SetNull(i)] the array reads as null at [i] for [IsNull]; after
    [SetValid(i)] it does not. *)
Lemma IsNull_SetNull {TYPE} (h h' : store) (a : IntegerArray TYPE) (i : Z) :
  SetNull h a i = Return h' -> IsNull h' a i = Return true.
Proof.
  unfold SetNull, mutable_bits, IsNull, deref.
  destruct (valid_bits_ a) as [vb |]; [| discriminate].
  destruct (h !! vb) as [b |] eqn:Hb; simpl; [| discriminate].
  destruct (is_mutable b); simpl; [| discriminate].
  destruct (BitUtil.SetBit (bytes b) (offset_ (base a) + i)) as [bs |] eqn:E;
    simpl; [| discriminate].
  intros [= <-]. rewrite list_lookup_insert_eq by (eapply lookup_lt_Some; eauto).
  simpl. eapply GetBit_SetBit; eauto.
Qed.

Lemma IsNull_SetValid {TYPE} (h h' : store) (a : IntegerArray TYPE) (i : Z) :
  SetValid h a i = Return h' -> IsNull h' a i = Return false.
Proof.
  unfold SetValid, mutable_bits, IsNull, deref.
  destruct (valid_bits_ a) as [vb |]; [| discriminate].
  destruct (h !! vb) as [b |] eqn:Hb; simpl; [| discriminate].
  destruct (is_mutable b); simpl; [| discriminate].
  destruct (BitUtil.ClearBit (bytes b) (offset_ (base a) + i)) as [bs |] eqn:E;
    simpl; [| discriminate].
  intros [= <-]. rewrite list_lookup_insert_eq by (eapply lookup_lt_Some; eauto).
  simpl. eapply GetBit_ClearBit; eauto.
Qed.

(** C1 on the code: with bit 0 of the bitmap set, [IsNull(0)] is true while
    [GetItem(0)] returns the value; [SetNull(0)] sets the bit and
    [SetValid(0)] clears it; and on an array with offset 1, [GetItem(0)]
    reads bit 0 of the bitmap, which is set, not bit 1, which is not. *)
Theorem null_reading_at_set_bit :
  BitUtil.GetBit [1] 0 = Return true
  /\ IsNull Samples.one_marked_store Samples.one_marked 0 = Return true
  /\ GetItem Samples.one_marked_store Samples.one_marked 0 = Return (PyLong 5)
  /\ SetNull Samples.one_unmarked_store Samples.one_marked 0
     = Return Samples.one_marked_store
  /\ SetValid Samples.one_marked_store Samples.one_marked 0
     = Return Samples.one_unmarked_store
  /\ BitUtil.GetBit [1] (offset_ (base Samples.tail) + 0) = Return false
  /\ IsNull Samples.tail_store Samples.tail 0 = Return false
  /\ GetItem Samples.tail_store Samples.tail 0 = Return (PyLong 9).
Proof. vm_compute. repeat split. Qed.

(** ** In-place addition and the nulls of the right operand *)

(** C2 on the code: [left += right], where [left] has no bitmap and [right]
    has nulls (position 0 for [IsNull], position 1 for [GetItem]), leaves
    [left] without a bitmap: the copy of the nulls is allocated and dropped,
    and no position of the result is null. *)
Theorem plus_assign_drops_right_nulls :
  HasNulls Samples.pair_store Samples.left = Return false
  /\ HasNulls Samples.pair_store Samples.right = Return true
  /\ IsNull Samples.pair_store Samples.right 0 = Return true
  /\ GetItem Samples.pair_store Samples.right 1 = Return NA
  /\ exists a' h',
      operator_plus_assign Samples.pair_store Samples.left Samples.right
      = Return (a', h')
      /\ valid_bits_ a' = None
      /\ IsNull h' a' 0 = Return false /\ IsNull h' a' 1 = Return false
      /\ GetItem h' a' 0 = Return (PyLong 11)
      /\ GetItem h' a' 1 = Return (PyLong 22)
      /\ (h' !! 3%nat) = Some (mkBuffer [1] true 0).
Proof.
  repeat (split; [vm_compute; reflexivity |]).
  eexists _, _. split; [vm_compute; reflexivity |].
  vm_compute. repeat split.
Qed.

(** ** Copy *)

(** C3 on the code: the copy of an array with a bitmap has no bitmap, so it
    is null nowhere, whichever way the bits of the source are read. *)
Theorem Copy_drops_bitmap :
  IsNull Samples.pair_store Samples.right 0 = Return true
  /\ GetItem Samples.pair_store Samples.right 1 = Return NA
  /\ exists c h',
      Copy Samples.pair_store Samples.right 0 2 = Return (OK, c, h')
      /\ valid_bits_ c = None
      /\ IsNull h' c 0 = Return false /\ IsNull h' c 1 = Return false
      /\ GetItem h' c 0 = Return (PyLong 10)
      /\ GetItem h' c 1 = Return (PyLong 20).
Proof.
  repeat (split; [vm_compute; reflexivity |]).
  eexists _, _. split; [vm_compute; reflexivity |].
  vm_compute. repeat split.
Qed.

(** [Copy] never gives its result a bitmap. *)
Lemma Copy_result_has_no_bitmap {TYPE} (h h' : store) (a c : IntegerArray TYPE)
    (offset length : Z) (st : Status) :
  Copy h a offset length = Return (st, c, h') -> valid_bits_ c = None.
Proof.
  unfold Copy.
  destruct (Buffer_Copy _ _ _ _) as [[p h1] |]; simpl; [| discriminate].
  destruct (valid_bits_ a); simpl.
  - destruct (CopyBitmap _ _ _ _) as [[q h2] |]; simpl; [| discriminate].
    intros [= _ <- _]. reflexivity.
  - intros [= _ <- _]. reflexivity.
Qed.

(** ** Copy-on-write of the data buffer *)

Lemma EnsureMutableAndCheckChange_unique {TYPE} (h : store)
    (a : NumericArray TYPE) (b : Buffer) :
  h !! data_ a = Some b -> use_count b = 1%nat ->
  EnsureMutableAndCheckChange h a = Return (OK, false, a, h).
Proof.
  intros Hb Hc. unfold EnsureMutableAndCheckChange, deref.
  rewrite Hb. simpl. now rewrite Hc.
Qed.

(** With more than one owner, the new buffer holds [length_ * sizeof] bytes
    of the old one from byte [offset_] on; the old buffer keeps its bytes. *)
Lemma EnsureMutableAndCheckChange_shared {TYPE} (h : store)
    (a : NumericArray TYPE) (b : Buffer) (bs : list Z) :
  h !! data_ a = Some b -> use_count b <> 1%nat ->
  read_bytes (bytes b) (offset_ a) (length_ a * sizeof TYPE) = Return bs ->
  EnsureMutableAndCheckChange h a
  = Return (OK, true, mkNumericArray (length_ a) 0 (length h),
            <[data_ a := release b]> (h ++ [mkBuffer bs true 1%nat])).
Proof.
  intros Hb Hc Hr. unfold EnsureMutableAndCheckChange, Buffer_Copy, deref.
  rewrite Hb. simpl.
  destruct (Nat.eqb_spec (use_count b) 1); [contradiction |].
  rewrite Hr. simpl. unfold drop_owner.
  rewrite lookup_app_l by (eapply lookup_lt_Some; eauto).
  now rewrite Hb.
Qed.

(** C4 on the code: the window covers elements 1 and 2 of a shared int16
    buffer, that is bytes 2 to 5; the detached buffer holds bytes 1 to 4, so
    the elements 1 and 2 read as 256 and 512 afterwards.  The rest is as
    claimed: the array is rebound at offset 0, [changed] is true, and the
    shared buffer keeps its bytes. *)
Theorem EnsureMutable_copies_from_byte_offset :
  (use_count <$> Samples.window_store !! data_ Samples.window) = Some 2%nat
  /\ read_bytes [0; 0; 1; 0; 2; 0]
       (offset_ Samples.window * sizeof (Integer Int16Type))
       (length_ Samples.window * sizeof (Integer Int16Type))
     = Return [1; 0; 2; 0]
  /\ EnsureMutableAndCheckChange Samples.window_store Samples.window
     = Return (OK, true, mkNumericArray 2 0 1%nat,
               [mkBuffer [0; 0; 1; 0; 2; 0] false 1;
                mkBuffer [0; 1; 0; 2] true 1])
  /\ data_at Samples.window_store Samples.int_window 0 = Return 1
  /\ data_at Samples.window_store Samples.int_window 1 = Return 2
  /\ exists a' h',
      EnsureMutable Samples.window_store Samples.int_window = Return (OK, a', h')
      /\ data_at h' a' 0 = Return 256
      /\ data_at h' a' 1 = Return 512.
Proof.
  repeat (split; [vm_compute; reflexivity |]).
  eexists _, _. split; [vm_compute; reflexivity |].
  vm_compute. repeat split.
Qed.

(** ** Reading and writing bytes *)

Lemma in_range_spec (bs : list Z) (off len : Z) :
  in_range bs off len = true <->
  0 <= off /\ 0 <= len /\ off + len <= Z.of_nat (length bs).
Proof. unfold in_range. rewrite !andb_true_iff, !Z.leb_le. tauto. Qed.

Lemma read_bytes_Return (bs : list Z) (off len : Z) :
  0 <= off -> 0 <= len -> off + len <= Z.of_nat (length bs) ->
  read_bytes bs off len = Return (take (Z.to_nat len) (drop (Z.to_nat off) bs)).
Proof.
  intros. unfold read_bytes.
  now rewrite (proj2 (in_range_spec bs off len)) by auto.
Qed.

Lemma read_bytes_inv (bs r : list Z) (off len : Z) :
  read_bytes bs off len = Return r ->
  (0 <= off /\ 0 <= len /\ off + len <= Z.of_nat (length bs))
  /\ r = take (Z.to_nat len) (drop (Z.to_nat off) bs)
  /\ length r = Z.to_nat len.
Proof.
  unfold read_bytes. destruct (in_range bs off len) eqn:E; [| discriminate].
  apply in_range_spec in E. intros [= <-]. split; [exact E |]. split; [reflexivity |].
  rewrite length_take, length_drop. lia.
Qed.

Lemma write_bytes_inv (bs new bs' : list Z) (off : Z) :
  write_bytes bs off new = Return bs' ->
  (0 <= off /\ off + Z.of_nat (length new) <= Z.of_nat (length bs))
  /\ bs' = take (Z.to_nat off) bs ++ new ++ drop (Z.to_nat off + length new)%nat bs
  /\ length bs' = length bs.
Proof.
  unfold write_bytes. destruct (in_range bs off _) eqn:E; [| discriminate].
  apply in_range_spec in E. intros [= <-]. split; [lia |]. split; [reflexivity |].
  rewrite !length_app, length_take, length_drop. lia.
Qed.

Lemma write_bytes_Return (bs new : list Z) (off : Z) :
  0 <= off -> off + Z.of_nat (length new) <= Z.of_nat (length bs) ->
  exists bs', write_bytes bs off new = Return bs'.
Proof.
  intros. unfold write_bytes.
  rewrite (proj2 (in_range_spec bs off _)) by lia. eauto.
Qed.

(** Byte [k] after a write. *)
Lemma write_bytes_lookup (bs new bs' : list Z) (off : Z) (k : nat) :
  write_bytes bs off new = Return bs' ->
  bs' !! k =
    if decide (Z.to_nat off <= k < Z.to_nat off + length new)%nat
    then new !! (k - Z.to_nat off)%nat
    else bs !! k.
Proof.
  intros H. apply write_bytes_inv in H as ((Hoff & Hlen) & -> & _).
  assert (Ht : length (take (Z.to_nat off) bs) = Z.to_nat off)
    by (rewrite length_take; lia).
  destruct (decide (Z.to_nat off <= k < Z.to_nat off + length new)%nat) as [Hin | Hout].
  - rewrite lookup_app_r by lia. rewrite Ht.
    rewrite lookup_app_l by lia. reflexivity.
  - destruct (decide (k < Z.to_nat off)%nat) as [Hlt | Hge].
    + rewrite lookup_app_l by lia. now rewrite lookup_take_lt.
    + rewrite lookup_app_r by lia. rewrite Ht.
      rewrite lookup_app_r by lia. rewrite lookup_drop. f_equal. lia.
Qed.

Lemma read_bytes_lookup (bs r : list Z) (off len : Z) (k : nat) :
  read_bytes bs off len = Return r ->
  r !! k = if decide (k < Z.to_nat len)%nat then bs !! (Z.to_nat off + k)%nat else None.
Proof.
  intros H. apply read_bytes_inv in H as (_ & -> & _).
  destruct (decide (k < Z.to_nat len)%nat).
  - rewrite lookup_take_lt by lia. apply lookup_drop.
  - apply lookup_take_ge. lia.
Qed.

(** Reading back what was written. *)
Lemma read_write_same (bs new bs' : list Z) (off : Z) :
  write_bytes bs off new = Return bs' ->
  read_bytes bs' off (Z.of_nat (length new)) = Return new.
Proof.
  intros H. pose proof (write_bytes_inv _ _ _ _ H) as ((Hoff & Hlen) & _ & Hl).
  rewrite read_bytes_Return by lia. f_equal.
  apply list_eq. intros k.
  destruct (decide (k < length new)%nat) as [Hk | Hk].
  - rewrite lookup_take_lt by lia. rewrite lookup_drop.
    rewrite (write_bytes_lookup _ _ _ _ _ H).
    destruct (decide _) as [_ | Hc]; [| lia]. f_equal. lia.
  - rewrite lookup_take_ge by lia. symmetry. apply lookup_ge_None. lia.
Qed.

(** A read that does not meet the written range sees the old bytes. *)
Lemma read_write_disjoint (bs new bs' : list Z) (off q l : Z) :
  write_bytes bs off new = Return bs' ->
  q + l <= off \/ off + Z.of_nat (length new) <= q ->
  read_bytes bs' q l = read_bytes bs q l.
Proof.
  intros H Hd. pose proof (write_bytes_inv _ _ _ _ H) as ((Hoff & Hlen) & _ & Hl).
  unfold read_bytes, in_range. rewrite Hl.
  destruct ((0 <=? q) && (0 <=? l) && (q + l <=? Z.of_nat (length bs))) eqn:E;
    [| reflexivity].
  rewrite !andb_true_iff, !Z.leb_le in E. f_equal.
  apply list_eq. intros k.
  destruct (decide (k < Z.to_nat l)%nat) as [Hk | Hk].
  - rewrite !lookup_take_lt by lia. rewrite !lookup_drop.
    rewrite (write_bytes_lookup _ _ _ _ _ H).
    destruct (decide _) as [Hc | _]; [lia | reflexivity].
  - now rewrite !lookup_take_ge by lia.
Qed.

(** ** Object representation of the elements *)

Lemma length_le_encode (n : nat) (z : Z) : length (le_encode n z) = n.
Proof. revert z. induction n; intros z; simpl; [reflexivity | now rewrite IHn]. Qed.

Lemma le_decode_encode (n : nat) (z : Z) :
  le_decode (le_encode n z) = z mod 256 ^ Z.of_nat n.
Proof.
  revert z. induction n as [| n IH]; intros z.
  - simpl. now rewrite Z.mod_1_r.
  - cbn [le_encode le_decode]. rewrite IH.
    replace (Z.of_nat (S n)) with (1 + Z.of_nat n) by lia.
    rewrite Z.pow_add_r, Z.pow_1_r by lia.
    rewrite Z.rem_mul_r by lia. lia.
Qed.

Lemma length_to_bytes (t : IntegerType) (z : Z) :
  Z.of_nat (length (to_bytes t z)) = int_sizeof t.
Proof. unfold to_bytes. rewrite length_le_encode. destruct t; reflexivity. Qed.

Lemma convert_mod (t : IntegerType) (z : Z) :
  convert t (z mod 2 ^ (8 * int_sizeof t)) = convert t z.
Proof. unfold convert. cbv zeta. now rewrite Z.mod_mod by (destruct t; vm_compute; congruence). Qed.

Lemma read_write_elem (bs bs' : list Z) (off : Z) (t : IntegerType) (z : Z) :
  write_bytes bs off (to_bytes t z) = Return bs' ->
  read_bytes bs' off (int_sizeof t) = Return (to_bytes t z).
Proof.
  intros H. pose proof (read_write_same _ _ _ _ H) as R.
  now rewrite length_to_bytes in R.
Qed.

(** Storing a value and loading it back converts it to the element type. *)
Lemma of_bytes_to_bytes (t : IntegerType) (z : Z) :
  of_bytes t (to_bytes t z) = convert t z.
Proof.
  unfold of_bytes, to_bytes. rewrite le_decode_encode.
  rewrite <- (convert_mod t z). f_equal. f_equal.
  destruct t; reflexivity.
Qed.

Lemma wrap_signed_small (k z : Z) :
  0 < k -> - k <= z < k ->
  (if k <=? z mod (2 * k) then z mod (2 * k) - 2 * k else z mod (2 * k)) = z.
Proof.
  intros Hk Hz. destruct (Z_lt_le_dec z 0) as [Hneg | Hpos].
  - replace (z mod (2 * k)) with (z + 2 * k).
    + destruct (Z.leb_spec k (z + 2 * k)); lia.
    + rewrite <- (Z.mod_add z 1 (2 * k)) by lia.
      rewrite Z.mod_small; lia.
  - rewrite Z.mod_small by lia. destruct (Z.leb_spec k z); lia.
Qed.

(** A value of the element type is not changed by the conversion. *)
Lemma convert_in_type (t : IntegerType) (z : Z) : in_type t z -> convert t z = z.
Proof.
  unfold in_type, convert, numeric_limits_max. cbv zeta.
  destruct (is_signed t) eqn:Es; simpl andb.
  - intros H.
    assert (Hk : 0 < 2 ^ (8 * int_sizeof t - 1))
      by (apply Z.pow_pos_nonneg; [lia | destruct t; simpl; lia]).
    assert (Hm : 2 ^ (8 * int_sizeof t) = 2 * 2 ^ (8 * int_sizeof t - 1)).
    { rewrite <- Z.pow_succ_r by (destruct t; simpl; lia). f_equal. lia. }
    rewrite Hm. set (k := 2 ^ (8 * int_sizeof t - 1)) in *.
    replace (2 * k / 2) with k by (rewrite Z.mul_comm, Z.div_mul; lia).
    apply wrap_signed_small; lia.
  - intros H. apply Z.mod_small. lia.
Qed.

(** ** The buffer of a quotient *)

(** The result of [a / other] over [n = min(length, other.length)] elements
    is bound, at offset 0, to a fresh buffer of [n] bytes. *)
Lemma operator_divide_result_buffer {TYPE OTHER_TYPE} (h : store)
    (a : IntegerArray TYPE) (other : IntegerArray OTHER_TYPE) :
  let n := Z.min (length_ (base a)) (length_ (base other)) in
  operator_divide_result h a other
  = (FloatingArray_new IntegerDivideInteger n (length h) 0,
     h ++ [mkBuffer (replicate (Z.to_nat n) 0) true 1%nat]).
Proof. reflexivity. Qed.

Lemma float_sizeof_bounds (t : FloatingType) : 4 <= float_sizeof t <= 8.
Proof. destruct t; simpl; lia. Qed.

Section DivisionOverrun.
Context {TYPE OTHER_TYPE : IntegerType}.
Variable float_quotient : FloatingType → Z → Z → list Z.
Hypothesis float_quotient_size :
  forall t x y, length (float_quotient t x y) = Z.to_nat (float_sizeof t).

Local Abbreviation RESULT := (@IntegerDivideInteger TYPE OTHER_TYPE).

(** If the element after the last one to write ends past the buffer, the
    loop does not return. *)
Lemma divide_loop_overruns (a : IntegerArray TYPE) (other : IntegerArray OTHER_TYPE)
    (result : FloatingArray RESULT) (m : nat) :
  offset_ (fbase result) = 0 ->
  forall (h : store) (b : Buffer) (ii : Z),
    h !! data_ (fbase result) = Some b ->
    0 <= ii -> (1 <= m)%nat ->
    Z.of_nat (length (bytes b)) < (ii + Z.of_nat m) * float_sizeof RESULT ->
    forall r, divide_loop float_quotient h a other result m ii <> Return r.
Proof.
  intros Hoff. induction m as [| m IH]; intros h b ii Hb Hii Hm Hlen r; [lia |].
  cbn [divide_loop].
  destruct (data_at h a ii) as [x |]; simpl; [| discriminate].
  destruct (data_at h other ii) as [y |]; simpl; [| discriminate].
  unfold mutable_data_set, mutable_data, deref. rewrite Hb. simpl.
  destruct (is_mutable b) eqn:Emut; simpl; [| discriminate].
  destruct (write_bytes (bytes b) _ _) as [bs |] eqn:Ew; simpl; [| discriminate].
  apply write_bytes_inv in Ew as ((_ & Hin) & _ & Hl).
  rewrite float_quotient_size, Hoff in Hin. simpl sizeof in Hin.
  pose proof (float_sizeof_bounds RESULT) as Hs.
  apply (IH _ (set_bytes b bs)); simpl; try nia.
  apply list_lookup_insert_eq. eapply lookup_lt_Some; eauto.
Qed.

(** [a / other] over at least one element writes past the end of its
    result buffer. *)
Lemma operator_divide_overruns (h : store) (a : IntegerArray TYPE)
    (other : IntegerArray OTHER_TYPE) :
  0 < Z.min (length_ (base a)) (length_ (base other)) ->
  forall r, operator_divide float_quotient h a other <> Return r.
Proof.
  intros Hn r. unfold operator_divide. rewrite operator_divide_result_buffer.
  set (n := Z.min (length_ (base a)) (length_ (base other))) in *.
  cbv zeta.
  destruct (deref _ (data_ (base a))) as [da |]; simpl; [| discriminate].
  destruct (deref _ (data_ (base other))) as [dob |]; simpl; [| discriminate].
  unfold mutable_data at 1, deref. simpl.
  rewrite list_lookup_middle by reflexivity. simpl.
  destruct (divide_loop _ _ _ _ _ _ _) as [h2 |] eqn:El; simpl; [| discriminate].
  exfalso. revert El.
  eapply divide_loop_overruns; simpl; try reflexivity.
  - now apply list_lookup_middle.
  - lia.
  - simpl. rewrite length_replicate.
    pose proof (float_sizeof_bounds RESULT) as Hs.
    nia.
Qed.

End DivisionOverrun.

(** C8 on the code: the quotient of two int32 arrays of three elements is a
    single-precision array of length 3 at offset 0 over a buffer of 3 bytes,
    where 12 are needed; the buffer holds no whole element, and the loop
    that fills the result leaves the buffer at its first store. *)
Theorem quotient_buffer_too_small :
  let '(result, h1) :=
    operator_divide_result Samples.numerator_store Samples.numerator
                           Samples.denominator in
  length_ (fbase result) = 3
  /\ offset_ (fbase result) = 0
  /\ (length ∘ bytes <$> h1 !! data_ (fbase result)) = Some 3%nat
  /\ sizeof (Floating (@IntegerDivideInteger Int32Type Int32Type)) = 4
  /\ 3 < length_ (fbase result) * sizeof (Floating (@IntegerDivideInteger Int32Type Int32Type))
  /\ 3 / sizeof (Floating (@IntegerDivideInteger Int32Type Int32Type))
     < offset_ (fbase result) + length_ (fbase result)
  /\ operator_divide Samples.zero_quotient Samples.numerator_store
       Samples.numerator Samples.denominator
     = Undefined OutOfBounds.
Proof. vm_compute. repeat split. Qed.

(** ** SetItem, mutability and sharing *)

Arguments PyObjectToInt64 : simpl never.

Lemma PyObjectToInt64_long (z : Z) :
  - 2 ^ 63 <= z <= 2 ^ 63 - 1 -> PyObjectToInt64 (PyLong z) = (OK, z, false).
Proof.
  intros H. unfold PyObjectToInt64.
  destruct (Z.leb_spec (- 2 ^ 63) z); [| lia].
  destruct (Z.leb_spec z (2 ^ 63 - 1)); [reflexivity | lia].
Qed.

Lemma SetBit_Return (bits : list Z) (i : Z) :
  0 <= i < 8 * Z.of_nat (length bits) ->
  exists bits', BitUtil.SetBit bits i = Return bits' /\ length bits' = length bits.
Proof.
  intros Hi. unfold BitUtil.SetBit, BitUtil.byte_at.
  destruct (Z.leb_spec 0 i); [| lia].
  assert (Hq : (Z.to_nat (i / 8) < length bits)%nat).
  { pose proof (Z.div_lt_upper_bound i 8 (Z.of_nat (length bits))).
    pose proof (Z.div_pos i 8). lia. }
  apply lookup_lt_is_Some_2 in Hq as [b Hb]. rewrite Hb. simpl.
  eexists. split; [reflexivity |]. apply length_insert.
Qed.

(** Eight bits per byte hold [n] bits. *)
Lemma bits_fit (n i : Z) :
  0 <= i < n -> 0 <= i < 8 * Z.of_nat (Z.to_nat (BitUtil.BytesForBits n)).
Proof.
  intros Hi. unfold BitUtil.BytesForBits.
  pose proof (Z.div_mod (n + 7) 8 ltac:(lia)).
  pose proof (Z.mod_pos_bound (n + 7) 8 ltac:(lia)).
  assert (0 <= (n + 7) / 8) by (apply Z.div_pos; lia).
  lia.
Qed.

Section SetItemMutable.
Variable AllocateValidityBitmap :
  store → Z → outcome (Status * option handle * store).
Context {TYPE : IntegerType}.
Implicit Type a : IntegerArray TYPE.

(** An immutable data buffer: [Invalid], and nothing changes. *)
Lemma SetItem_immutable_data (h : store) a (d : Buffer) (i : Z) (val : PyObject) :
  h !! data_ (base a) = Some d -> is_mutable d = false ->
  SetItem AllocateValidityBitmap h a i val
  = Return (Invalid "Underlying buffer is immutable", a, h).
Proof.
  intros Hd Hm. unfold SetItem, deref. rewrite Hd. simpl. now rewrite Hm.
Qed.

(** Both buffers mutable, whoever else owns them: the value is stored, the
    bit is set, and [GetItem] returns the stored value. *)
Lemma SetItem_GetItem_mutable (h : store) a (d v : Buffer) (vb : handle) (i z : Z) :
  h !! data_ (base a) = Some d -> is_mutable d = true ->
  valid_bits_ a = Some vb -> h !! vb = Some v -> is_mutable v = true ->
  vb <> data_ (base a) ->
  0 <= i < 8 * Z.of_nat (length (bytes v)) ->
  0 <= offset_ (base a) + i ->
  (offset_ (base a) + i + 1) * int_sizeof TYPE <= Z.of_nat (length (bytes d)) ->
  - 2 ^ 63 <= z <= 2 ^ 63 - 1 ->
  exists h2,
    SetItem AllocateValidityBitmap h a i (PyLong z) = Return (OK, a, h2)
    /\ GetItem h2 a i = Return (PyLong (convert Int64Type (convert TYPE z))).
Proof.
  intros Hd Hdm Hvb Hv Hvm Hne Hi Hoff Hin Hz.
  pose proof (lookup_lt_Some _ _ _ Hd) as Hdl.
  pose proof (lookup_lt_Some _ _ _ Hv) as Hvl.
  destruct (SetBit_Return (bytes v) i Hi) as (bits' & Hset & Hlen).
  assert (Hs : 0 < int_sizeof TYPE) by (destruct TYPE; simpl; lia).
  destruct (write_bytes_Return (bytes d) (to_bytes TYPE z)
              ((offset_ (base a) + i) * int_sizeof TYPE)) as (bs' & Hw);
    [nia | rewrite length_to_bytes; nia |].
  exists (<[data_ (base a) := set_bytes d bs']> (<[vb := set_bytes v bits']> h)).
  split.
  - unfold SetItem, deref_ptr, mutable_bits, deref.
    rewrite Hd. simpl. rewrite Hdm. simpl. rewrite Hvb, Hv. simpl.
    rewrite Hvm. simpl. rewrite Hset. simpl.
    rewrite (PyObjectToInt64_long z Hz). simpl.
    unfold mutable_data_set, mutable_data, deref.
    rewrite list_lookup_insert_ne by exact Hne. rewrite Hd. simpl.
    rewrite Hdm. simpl. rewrite Hw. reflexivity.
  - unfold GetItem, deref. rewrite Hvb.
    rewrite list_lookup_insert_ne by auto.
    rewrite list_lookup_insert_eq by exact Hvl. simpl.
    unfold BitUtil.BitNotSet. rewrite (GetBit_SetBit _ _ _ Hset). simpl.
    unfold data_at, data_bytes, deref.
    rewrite list_lookup_insert_eq by (rewrite length_insert; exact Hdl). simpl.
    rewrite (read_write_elem _ _ _ _ _ Hw). simpl.
    now rewrite of_bytes_to_bytes.
Qed.

End SetItemMutable.

(** [EnsureMutable] on an array with a bitmap whose data buffer has more than
    one owner: the array is rebound, at offset 0, to two fresh mutable
    buffers, one of [length_ * sizeof] bytes and one that holds [length_]
    bits. *)
Lemma EnsureMutable_shared {TYPE} (h h1 : store) (a a1 : IntegerArray TYPE)
    (d v : Buffer) (vb : handle) (st : Status) :
  h !! data_ (base a) = Some d -> use_count d <> 1%nat ->
  valid_bits_ a = Some vb -> h !! vb = Some v ->
  EnsureMutable h a = Return (st, a1, h1) ->
  st = OK
  /\ a1 = mkIntegerArray (mkNumericArray (length_ (base a)) 0 (length h))
                         (Some (S (length h)))
  /\ 0 <= length_ (base a)
  /\ exists bs bm,
      h1 !! length h = Some (mkBuffer bs true 1%nat)
      /\ h1 !! S (length h) = Some (mkBuffer bm true 1%nat)
      /\ Z.of_nat (length bs) = length_ (base a) * int_sizeof TYPE
      /\ length bm = Z.to_nat (BitUtil.BytesForBits (length_ (base a))).
Proof.
  intros Hd Hc Hvb Hv.
  pose proof (lookup_lt_Some _ _ _ Hd) as Hdl.
  pose proof (lookup_lt_Some _ _ _ Hv) as Hvl.
  assert (Hs : 0 < int_sizeof TYPE) by (destruct TYPE; simpl; lia).
  unfold EnsureMutable.
  destruct (read_bytes (bytes d) (offset_ (base a))
              (length_ (base a) * int_sizeof TYPE)) as [bs |] eqn:Er.
  2:{ unfold EnsureMutableAndCheckChange, Buffer_Copy, deref.
      rewrite Hd. simpl. destruct (Nat.eqb_spec (use_count d) 1); [contradiction |].
      rewrite Er. simpl. discriminate. }
  rewrite (EnsureMutableAndCheckChange_shared _ _ _ _ Hd Hc Er).
  apply read_bytes_inv in Er as ((_ & Hlen & _) & _ & Hbs). simpl in Hlen, Hbs.
  simpl. rewrite Hvb.
  set (h' := <[data_ (base a) := release d]> (h ++ [mkBuffer bs true 1%nat])).
  assert (Hl' : length h' = S (length h))
    by (unfold h'; rewrite length_insert, length_app; simpl; lia).
  assert (Hv' : exists v', h' !! vb = Some v').
  { apply lookup_lt_is_Some_2. lia. }
  destruct Hv' as (v' & Hv').
  unfold CopyBitmap, deref_ptr, deref. rewrite Hv'. simpl.
  destruct (_ && _) eqn:Econd; simpl; [| discriminate].
  unfold allocate, drop_owner.
  rewrite lookup_app_l by lia. rewrite Hv'.
  intros [= <- <- <-].
  split; [reflexivity |]. split; [now rewrite Hl' |]. split; [nia |].
  eexists bs, _. split; [| split; [| split]].
  - rewrite list_lookup_insert_ne by lia.
    rewrite lookup_app_l by lia. unfold h'.
    rewrite list_lookup_insert_ne by lia.
    now apply list_lookup_middle.
  - rewrite list_lookup_insert_ne by lia.
    apply list_lookup_middle. now rewrite Hl'.
  - lia.
  - now rewrite length_map, length_seq.
Qed.

Section SetItemDetached.
Variable AllocateValidityBitmap :
  store → Z → outcome (Status * option handle * store).

(** C6, as stated, fails: on a mutable data buffer with two owners [SetItem]
    returns [OK] and writes into the shared buffer; and on an immutable
    buffer with one owner [EnsureMutable] succeeds without a copy and the
    same [SetItem] still returns [Invalid]. *)
Lemma SetItem_ignores_sharing :
  (use_count <$> Samples.shared_store !! data_ (base Samples.shared)) = Some 2%nat
  /\ SetItem Samples.zero_bitmap Samples.shared_store Samples.shared 0 (PyLong 9)
     = Return (OK, Samples.shared,
               [mkBuffer [9] true 2; mkBuffer [255] true 1])
  /\ EnsureMutable Samples.foreign_store Samples.shared
     = Return (OK, Samples.shared, Samples.foreign_store)
  /\ SetItem Samples.zero_bitmap Samples.foreign_store Samples.shared 0 (PyLong 9)
     = Return (Invalid "Underlying buffer is immutable", Samples.shared,
               Samples.foreign_store).
Proof. vm_compute. repeat split. Qed.

(** C6, amended: [SetItem] returns [Invalid] and changes nothing whenever the
    data buffer is immutable; sharing is not looked at.  For an array with a
    validity bitmap whose data buffer has more than one owner, after
    [EnsureMutable] has succeeded, [SetItem] of an integer that fits
    [long long] at an index within the length succeeds, and [GetItem] then
    returns that integer converted to the element type (the integer itself
    when it is a value of the element type). *)
Theorem SetItem_immutable_then_detached {TYPE} (h : store) (a : IntegerArray TYPE)
    (d : Buffer) (i z : Z) :
  h !! data_ (base a) = Some d ->
  0 <= i < length_ (base a) ->
  - 2 ^ 63 <= z <= 2 ^ 63 - 1 ->
  (is_mutable d = false ->
   forall val,
     SetItem AllocateValidityBitmap h a i val
     = Return (Invalid "Underlying buffer is immutable", a, h))
  /\ (forall vb v a1 h1,
        valid_bits_ a = Some vb -> h !! vb = Some v ->
        use_count d <> 1%nat ->
        EnsureMutable h a = Return (OK, a1, h1) ->
        exists h2,
          SetItem AllocateValidityBitmap h1 a1 i (PyLong z) = Return (OK, a1, h2)
          /\ GetItem h2 a1 i = Return (PyLong (convert Int64Type (convert TYPE z)))
          /\ (in_type TYPE z -> GetItem h2 a1 i = Return (PyLong z))).
Proof.
  intros Hd Hi Hz. split.
  - intros Hm val. now apply (SetItem_immutable_data _ _ _ d).
  - intros vb v a1 h1 Hvb Hv Hc He.
    destruct (EnsureMutable_shared _ _ _ _ _ _ _ _ Hd Hc Hvb Hv He)
      as (_ & -> & Hlen & bs & bm & Hbs & Hbm & Hlbs & Hlbm).
    assert (Hs : 0 < int_sizeof TYPE) by (destruct TYPE; simpl; lia).
    destruct (SetItem_GetItem_mutable AllocateValidityBitmap (TYPE := TYPE) h1
                (mkIntegerArray (mkNumericArray (length_ (base a)) 0 (length h))
                                (Some (S (length h))))
                (mkBuffer bs true 1%nat) (mkBuffer bm true 1%nat)
                (S (length h)) i z) as (h2 & Hset & Hget);
      cbn [base data_ offset_ length_ valid_bits_ bytes is_mutable];
      try reflexivity; try assumption.
    + lia.
    + rewrite Hlbm. now apply bits_fit.
    + lia.
    + nia.
    + exists h2. split; [exact Hset |]. split; [exact Hget |].
      intros Ht. rewrite Hget. rewrite (convert_in_type TYPE z Ht).
      rewrite convert_in_type; [reflexivity |].
      unfold in_type. cbn [is_signed].
      replace (numeric_limits_max Int64Type) with (2 ^ 63 - 1) by reflexivity.
      replace (8 * int_sizeof Int64Type - 1) with 63 by reflexivity.
      exact Hz.
Qed.

End SetItemDetached.

Lemma SetItem_immutable_then_detached_witness :
  exists h2,
    SetItem Samples.zero_bitmap Samples.wrapped_store Samples.shared 0 (PyLong 9)
    = Return (Invalid "Underlying buffer is immutable", Samples.shared,
              Samples.wrapped_store)
    /\ SetItem Samples.zero_bitmap
         [mkBuffer [5] false 1; mkBuffer [255] true 0;
          mkBuffer [5] true 1; mkBuffer [1] true 1]
         (IntegerArray_new UInt8Type 1 2%nat (Some 3%nat) 0) 0 (PyLong 9)
       = Return (OK, IntegerArray_new UInt8Type 1 2%nat (Some 3%nat) 0, h2)
    /\ GetItem h2 (IntegerArray_new UInt8Type 1 2%nat (Some 3%nat) 0) 0
       = Return (PyLong 9).
Proof.
  destruct (SetItem_immutable_then_detached Samples.zero_bitmap
              Samples.wrapped_store Samples.shared (mkBuffer [5] false 2) 0 9)
    as (Himm & Hdet); [reflexivity | simpl; lia | lia |].
  destruct (Hdet 1%nat (mkBuffer [255] true 1)
              (IntegerArray_new UInt8Type 1 2%nat (Some 3%nat) 0)
              [mkBuffer [5] false 1; mkBuffer [255] true 0;
               mkBuffer [5] true 1; mkBuffer [1] true 1])
    as (h2 & Hset & _ & Hget);
    [reflexivity | reflexivity | simpl; lia | vm_compute; reflexivity |].
  exists h2. split; [apply Himm; reflexivity |].
  split; [exact Hset |]. apply Hget. vm_compute. split; congruence.
Defined.

(** ** In-place addition without bitmaps *)

Lemma set_bytes_same (d : Buffer) : set_bytes d (bytes d) = d.
Proof. now destruct d. Qed.

Lemma HasNulls_no_bitmap {TYPE} (h : store) (a : IntegerArray TYPE) :
  valid_bits_ a = None -> HasNulls h a = Return false.
Proof.
  intros Hv. unfold HasNulls. generalize 0 as ii.
  induction (Z.to_nat (length_ (base a))) as [| n IH]; intros ii; simpl.
  - reflexivity.
  - unfold IsNull. rewrite Hv. simpl. apply IH.
Qed.

Lemma data_at_lookup {TYPE} (h : store) (a : IntegerArray TYPE) (d : Buffer) (i : Z) :
  h !! data_ (base a) = Some d ->
  data_at h a i =
    match read_bytes (bytes d) ((offset_ (base a) + i) * int_sizeof TYPE)
                     (int_sizeof TYPE) with
    | Return bs => Return (of_bytes TYPE bs)
    | Undefined f => Undefined f
    end.
Proof. intros Hd. unfold data_at, data_bytes, deref. now rewrite Hd. Qed.

Section PlusAssign.
Context {TYPE OTHER_TYPE : IntegerType}.
Variable a : IntegerArray TYPE.
Variable other : IntegerArray OTHER_TYPE.

Local Abbreviation sa := (int_sizeof TYPE).
Local Abbreviation so := (int_sizeof OTHER_TYPE).
Local Abbreviation off_a := (offset_ (base a)).
Local Abbreviation off_o := (offset_ (base other)).

Hypothesis distinct_buffers : data_ (base a) <> data_ (base other).
Hypothesis off_a_nonneg : 0 <= off_a.
Hypothesis off_o_nonneg : 0 <= off_o.

(** The loop without null checks, from [ii] over [n] elements: the store
    changes in the data buffer of [a] only; there, the bytes outside the [n]
    elements are kept, and element [j] becomes the sum of the old element
    and of element [j] of [other], converted when it is stored. *)
Lemma add_loop_no_check (o : Buffer) (n : nat) :
  forall (ii : Z) (h : store) (d : Buffer),
    h !! data_ (base a) = Some d -> is_mutable d = true ->
    h !! data_ (base other) = Some o ->
    0 <= ii ->
    (off_a + ii + Z.of_nat n) * sa <= Z.of_nat (length (bytes d)) ->
    (off_o + ii + Z.of_nat n) * so <= Z.of_nat (length (bytes o)) ->
    exists bs',
      add_loop false h a other n ii
      = Return (<[data_ (base a) := set_bytes d bs']> h)
      /\ length bs' = length (bytes d)
      /\ (forall q l,
            q + l <= (off_a + ii) * sa \/ (off_a + ii + Z.of_nat n) * sa <= q ->
            read_bytes bs' q l = read_bytes (bytes d) q l)
      /\ (forall j, ii <= j < ii + Z.of_nat n ->
            exists xb yb,
              read_bytes (bytes d) ((off_a + j) * sa) sa = Return xb
              /\ read_bytes (bytes o) ((off_o + j) * so) so = Return yb
              /\ read_bytes bs' ((off_a + j) * sa) sa
                 = Return (to_bytes TYPE (of_bytes TYPE xb + of_bytes OTHER_TYPE yb))).
Proof.
  assert (Hsa : 0 < sa) by (destruct TYPE; simpl; lia).
  assert (Hso : 0 < so) by (destruct OTHER_TYPE; simpl; lia).
  induction n as [| m IH]; intros ii h d Hd Hm Ho Hii Ha Hb.
  - exists (bytes d). cbn [add_loop]. rewrite set_bytes_same.
    rewrite list_insert_id by exact Hd.
    split; [reflexivity |]. split; [reflexivity |].
    split; [reflexivity | intros; lia].
  - pose proof (read_bytes_Return (bytes d) ((off_a + ii) * sa) sa
                  ltac:(nia) ltac:(lia) ltac:(nia)) as Hx.
    pose proof (read_bytes_Return (bytes o) ((off_o + ii) * so) so
                  ltac:(nia) ltac:(lia) ltac:(nia)) as Hy.
    set (xb := take _ _) in Hx. set (yb := take _ _) in Hy.
    destruct (write_bytes_Return (bytes d)
                (to_bytes TYPE (of_bytes TYPE xb + of_bytes OTHER_TYPE yb))
                ((off_a + ii) * sa)) as (bs1 & Hw);
      [nia | rewrite length_to_bytes; nia |].
    pose proof (write_bytes_inv _ _ _ _ Hw) as (_ & _ & Hl1).
    pose proof (lookup_lt_Some _ _ _ Hd) as Hdl.
    destruct (IH (ii + 1) (<[data_ (base a) := set_bytes d bs1]> h) (set_bytes d bs1))
      as (bs' & Hloop & Hlen & Hframe & Hupd).
    { now apply list_lookup_insert_eq. }
    { exact Hm. }
    { rewrite list_lookup_insert_ne by exact distinct_buffers. exact Ho. }
    { lia. }
    { cbn [bytes set_bytes]. rewrite Hl1. lia. }
    { lia. }
    cbn [bytes set_bytes] in Hlen, Hframe, Hupd.
    exists bs'. split; [| split; [| split]].
    + cbn [add_loop]. simpl.
      rewrite (data_at_lookup h a d ii Hd), Hx.
      rewrite (data_at_lookup h other o ii Ho), Hy. simpl.
      unfold mutable_data_set, mutable_data, deref. rewrite Hd. simpl.
      rewrite Hm. simpl. rewrite Hw. simpl.
      rewrite Hloop. now rewrite list_insert_insert_eq.
    + lia.
    + intros q l Hout. rewrite Hframe by lia.
      apply (read_write_disjoint _ _ _ _ _ _ Hw).
      rewrite length_to_bytes. lia.
    + intros j Hj. destruct (Z.eq_dec j ii) as [-> | Hne].
      * exists xb, yb. split; [exact Hx |]. split; [exact Hy |].
        rewrite Hframe by lia. apply (read_write_elem _ _ _ _ _ Hw).
      * destruct (Hupd j ltac:(lia)) as (xb' & yb' & Hx' & Hy' & Hr).
        exists xb', yb'. split; [| split; [exact Hy' | exact Hr]].
        rewrite <- Hx'. symmetry.
        apply (read_write_disjoint _ _ _ _ _ _ Hw).
        rewrite length_to_bytes. nia.
Qed.

End PlusAssign.

(** A read inside a range that was read before. *)
Lemma read_bytes_within (bs0 bs : list Z) (p n q l : Z) :
  read_bytes bs0 p n = Return bs ->
  0 <= q -> 0 <= l -> q + l <= n ->
  read_bytes bs q l = read_bytes bs0 (p + q) l.
Proof.
  intros Hr Hq Hl Hn.
  pose proof (read_bytes_inv _ _ _ _ Hr) as ((Hp & Hn0 & Hin) & Hbs & Hlen).
  rewrite !read_bytes_Return by lia. f_equal.
  apply list_eq. intros k.
  destruct (decide (k < Z.to_nat l)%nat) as [Hk | Hk].
  - rewrite !lookup_take_lt by lia. rewrite !lookup_drop.
    rewrite (read_bytes_lookup _ _ _ _ _ Hr).
    destruct (decide _) as [_ | Hc]; [f_equal; lia | lia].
  - now rewrite !lookup_take_ge by lia.
Qed.

(** [operator+=] from the store and array that [EnsureMutable] leaves, when
    neither array has a bitmap. *)
Lemma plus_assign_after_EnsureMutable {TYPE OTHER_TYPE} (h h1 : store)
    (a a1 : IntegerArray TYPE) (other : IntegerArray OTHER_TYPE)
    (st : Status) (d1 o1 : Buffer) :
  let n := Z.min (length_ (base a1)) (length_ (base other)) in
  EnsureMutable h a = Return (st, a1, h1) ->
  valid_bits_ a1 = None -> valid_bits_ other = None ->
  h1 !! data_ (base a1) = Some d1 -> is_mutable d1 = true ->
  h1 !! data_ (base other) = Some o1 ->
  data_ (base a1) <> data_ (base other) ->
  0 <= offset_ (base a1) -> 0 <= offset_ (base other) -> 0 <= n ->
  (offset_ (base a1) + n) * int_sizeof TYPE <= Z.of_nat (length (bytes d1)) ->
  (offset_ (base other) + n) * int_sizeof OTHER_TYPE <= Z.of_nat (length (bytes o1)) ->
  exists bs',
    operator_plus_assign h a other
    = Return (a1, <[data_ (base a1) := set_bytes d1 bs']> h1)
    /\ length bs' = length (bytes d1)
    /\ (forall q l,
          q + l <= offset_ (base a1) * int_sizeof TYPE
          \/ (offset_ (base a1) + n) * int_sizeof TYPE <= q ->
          read_bytes bs' q l = read_bytes (bytes d1) q l)
    /\ (forall j, 0 <= j < n ->
          exists xb yb,
            read_bytes (bytes d1) ((offset_ (base a1) + j) * int_sizeof TYPE)
                       (int_sizeof TYPE) = Return xb
            /\ read_bytes (bytes o1)
                 ((offset_ (base other) + j) * int_sizeof OTHER_TYPE)
                 (int_sizeof OTHER_TYPE) = Return yb
            /\ read_bytes bs' ((offset_ (base a1) + j) * int_sizeof TYPE)
                          (int_sizeof TYPE)
               = Return (to_bytes TYPE (of_bytes TYPE xb + of_bytes OTHER_TYPE yb))).
Proof.
  intros n He Hva Hvo Hd Hm Ho Hne Hoa Hoo Hn Ha Hb.
  assert (Hnn : Z.of_nat (Z.to_nat n) = n) by lia.
  destruct (add_loop_no_check a1 other Hne Hoa Hoo o1 (Z.to_nat n) 0 h1 d1)
    as (bs' & Hloop & Hlen & Hframe & Hupd); try assumption; try lia.
  rewrite Hnn in Hframe, Hupd. rewrite Z.add_0_r in Hframe.
  exists bs'. split; [| split; [exact Hlen | split]].
  - unfold operator_plus_assign. rewrite He. cbn [mbind outcome_bind].
    rewrite (HasNulls_no_bitmap h1 a1 Hva). cbn [mbind outcome_bind].
    rewrite (HasNulls_no_bitmap h1 other Hvo). cbn [mbind outcome_bind mret outcome_ret].
    unfold mutable_data, deref. rewrite Hd. cbn [mbind outcome_bind]. rewrite Hm.
    cbn [mbind outcome_bind mret outcome_ret]. rewrite Ho.
    cbn [mbind outcome_bind].
    rewrite (HasNulls_no_bitmap h1 a1 Hva). cbn [mbind outcome_bind].
    fold n. rewrite Hloop. reflexivity.
  - exact Hframe.
  - intros j Hj. apply Hupd. lia.
Qed.

Lemma EnsureMutable_unique {TYPE} (h : store) (a : IntegerArray TYPE) (d : Buffer) :
  h !! data_ (base a) = Some d -> use_count d = 1%nat ->
  EnsureMutable h a = Return (OK, a, h).
Proof.
  intros Hd Hc. unfold EnsureMutable.
  rewrite (EnsureMutableAndCheckChange_unique _ _ _ Hd Hc). simpl.
  now destruct a.
Qed.

Lemma EnsureMutable_shared_no_bitmap {TYPE} (h : store) (a : IntegerArray TYPE)
    (d : Buffer) (bs : list Z) :
  valid_bits_ a = None ->
  h !! data_ (base a) = Some d -> use_count d <> 1%nat ->
  read_bytes (bytes d) (offset_ (base a)) (length_ (base a) * int_sizeof TYPE)
  = Return bs ->
  EnsureMutable h a
  = Return (OK,
            mkIntegerArray (mkNumericArray (length_ (base a)) 0 (length h)) None,
            <[data_ (base a) := release d]> (h ++ [mkBuffer bs true 1%nat])).
Proof.
  intros Hv Hd Hc Hr. unfold EnsureMutable.
  rewrite (EnsureMutableAndCheckChange_shared _ _ _ _ Hd Hc Hr). simpl.
  now rewrite Hv.
Qed.

(** C7, as stated, fails: 127 + 1 in int8 is stored as -128. *)
Lemma plus_assign_wraps_around :
  exists a' h',
    operator_plus_assign Samples.edge_store Samples.edge Samples.unit_step
    = Return (a', h')
    /\ data_at Samples.edge_store Samples.edge 0 = Return 127
    /\ data_at Samples.edge_store Samples.unit_step 0 = Return 1
    /\ data_at h' a' 0 = Return (-128)
    /\ -128 <> 127 + 1.
Proof.
  eexists _, _. split; [vm_compute; reflexivity |].
  repeat (split; [vm_compute; reflexivity |]). lia.
Qed.

(** C7, amended: let [a] and [other] be integer arrays without bitmaps that
    lie within their data buffers, and let the data buffer of [a] either have
    a single owner, be mutable and not be the data buffer of [other], or
    have several owners with [a] at offset 0.  Then [a += other] returns;
    the result has the length of [a] and no bitmap; each of its first
    [min(length, other.length)] elements is the sum of the old element and
    of the element of [other], converted to the element type of [a]; the
    remaining elements and [other] are unchanged.  This is for lengths that
    the [int] counters of the loops reach and for elements whose sums are
    defined: the loops count in [int] and add in the promoted common type,
    where a signed overflow has no defined result. *)
Theorem plus_assign_elementwise {TYPE OTHER_TYPE} (h : store)
    (a : IntegerArray TYPE) (other : IntegerArray OTHER_TYPE) (d o : Buffer) :
  let n := Z.min (length_ (base a)) (length_ (base other)) in
  valid_bits_ a = None -> valid_bits_ other = None ->
  h !! data_ (base a) = Some d -> h !! data_ (base other) = Some o ->
  0 <= offset_ (base a) -> 0 <= offset_ (base other) ->
  0 <= length_ (base a) -> 0 <= length_ (base other) ->
  (offset_ (base a) + length_ (base a)) * int_sizeof TYPE
    <= Z.of_nat (length (bytes d)) ->
  (offset_ (base other) + length_ (base other)) * int_sizeof OTHER_TYPE
    <= Z.of_nat (length (bytes o)) ->
  int_counts (length_ (base a)) -> int_counts (length_ (base other)) ->
  (forall i, 0 <= i < n ->
     sum_defined TYPE OTHER_TYPE (value_at h a i) (value_at h other i)) ->
  (use_count d = 1%nat /\ is_mutable d = true
   /\ data_ (base a) <> data_ (base other))
  \/ (use_count d <> 1%nat /\ offset_ (base a) = 0) ->
  exists a' h',
    operator_plus_assign h a other = Return (a', h')
    /\ length_ (base a') = length_ (base a)
    /\ valid_bits_ a' = None
    /\ (forall i, 0 <= i < n ->
          exists x y,
            data_at h a i = Return x /\ data_at h other i = Return y
            /\ data_at h' a' i = Return (convert TYPE (x + y)))
    /\ (forall i, n <= i < length_ (base a) -> data_at h' a' i = data_at h a i)
    /\ (forall i, data_at h' other i = data_at h other i).
Proof.
  intros n Hva Hvo Hd Ho Hoa Hoo Hla Hlo Hina Hino _ _ _ Hcase.
  assert (Hsa : 0 < int_sizeof TYPE) by (destruct TYPE; simpl; lia).
  assert (Hso : 0 < int_sizeof OTHER_TYPE) by (destruct OTHER_TYPE; simpl; lia).
  pose proof (lookup_lt_Some _ _ _ Hd) as Hdl.
  pose proof (lookup_lt_Some _ _ _ Ho) as Hol.
  assert (Hn : 0 <= n <= length_ (base a) /\ n <= length_ (base other))
    by (unfold n; lia).
  destruct Hcase as [(Hc & Hm & Hne) | (Hc & Hoff)].
  - (* a single owner: no copy *)
    destruct (plus_assign_after_EnsureMutable h h a a other OK d o
                (EnsureMutable_unique h a d Hd Hc) Hva Hvo Hd Hm Ho Hne Hoa Hoo)
      as (bs' & Hop & Hlen & Hframe & Hupd); fold n; try lia; try nia.
    fold n in Hframe, Hupd.
    exists a, (<[data_ (base a) := set_bytes d bs']> h).
    assert (Hd' : <[data_ (base a) := set_bytes d bs']> h !! data_ (base a)
                  = Some (set_bytes d bs')) by now apply list_lookup_insert_eq.
    assert (Ho' : <[data_ (base a) := set_bytes d bs']> h !! data_ (base other)
                  = Some o) by now rewrite list_lookup_insert_ne.
    split; [exact Hop |]. split; [reflexivity |]. split; [exact Hva |].
    split; [| split].
    + intros i Hi. destruct (Hupd i Hi) as (xb & yb & Hx & Hy & Hr).
      exists (of_bytes TYPE xb), (of_bytes OTHER_TYPE yb).
      rewrite (data_at_lookup _ _ _ _ Hd), Hx.
      rewrite (data_at_lookup _ _ _ _ Ho), Hy.
      rewrite (data_at_lookup _ _ _ _ Hd'). cbn [bytes set_bytes]. rewrite Hr.
      now rewrite of_bytes_to_bytes.
    + intros i Hi.
      rewrite (data_at_lookup _ _ _ _ Hd), (data_at_lookup _ _ _ _ Hd').
      cbn [bytes set_bytes]. rewrite Hframe; [reflexivity | right; nia].
    + intros i. now rewrite (data_at_lookup _ _ _ _ Ho), (data_at_lookup _ _ _ _ Ho').
  - (* several owners, offset 0: the visible bytes are copied first *)
    pose proof (read_bytes_Return (bytes d) (offset_ (base a))
                  (length_ (base a) * int_sizeof TYPE)
                  ltac:(lia) ltac:(nia) ltac:(nia)) as Hr0.
    set (bs := take _ _) in Hr0.
    pose proof (read_bytes_inv _ _ _ _ Hr0) as (_ & _ & Hlbs).
    pose proof (EnsureMutable_shared_no_bitmap h a d bs Hva Hd Hc Hr0) as He.
    set (a1 := mkIntegerArray (mkNumericArray (length_ (base a)) 0 (length h)) None) in He.
    set (h1 := <[data_ (base a) := release d]> (h ++ [mkBuffer bs true 1%nat])) in He.
    assert (Hd1 : h1 !! data_ (base a1) = Some (mkBuffer bs true 1%nat)).
    { unfold h1, a1. cbn [base data_]. rewrite list_lookup_insert_ne by lia.
      now apply list_lookup_middle. }
    assert (Ho1 : exists o1, h1 !! data_ (base other) = Some o1 /\ bytes o1 = bytes o).
    { unfold h1. destruct (decide (data_ (base a) = data_ (base other))) as [E | E].
      - exists (release d). rewrite <- E.
        rewrite list_lookup_insert_eq by (rewrite length_app; simpl; lia).
        split; [reflexivity |]. rewrite E in Hd. simpl. congruence.
      - exists o. rewrite list_lookup_insert_ne by exact E.
        rewrite lookup_app_l by lia. auto. }
    destruct Ho1 as (o1 & Ho1 & Hbo).
    assert (Hne : data_ (base a1) <> data_ (base other)) by (unfold a1; simpl; lia).
    destruct (plus_assign_after_EnsureMutable h h1 a a1 other OK
                (mkBuffer bs true 1%nat) o1 He eq_refl Hvo Hd1 eq_refl Ho1 Hne)
      as (bs' & Hop & Hlen & Hframe & Hupd);
      cbn [a1 base offset_ length_ bytes]; fold n; try rewrite Hbo; try lia; try nia.
    cbn [a1 base offset_ length_ bytes data_] in Hop, Hlen, Hframe, Hupd.
    fold n in Hframe, Hupd.
    set (h' := <[length h := set_bytes (mkBuffer bs true 1%nat) bs']> h1) in *.
    assert (Hd' : h' !! data_ (base a1) = Some (set_bytes (mkBuffer bs true 1%nat) bs')).
    { unfold h', a1. cbn [base data_]. apply list_lookup_insert_eq.
      unfold h1. rewrite length_insert, length_app. simpl. lia. }
    assert (Ho' : h' !! data_ (base other) = Some o1).
    { unfold h'. rewrite list_lookup_insert_ne by lia. exact Ho1. }
    assert (Hwithin : forall j, 0 <= j < length_ (base a) ->
              read_bytes bs ((0 + j) * int_sizeof TYPE) (int_sizeof TYPE)
              = read_bytes (bytes d) ((offset_ (base a) + j) * int_sizeof TYPE)
                           (int_sizeof TYPE)).
    { intros j Hj.
      rewrite (read_bytes_within _ _ _ _ _ _ Hr0) by nia.
      f_equal. nia. }
    exists a1, h'.
    split; [exact Hop |]. split; [reflexivity |]. split; [reflexivity |].
    split; [| split].
    + intros i Hi. destruct (Hupd i Hi) as (xb & yb & Hx & Hy & Hr).
      exists (of_bytes TYPE xb), (of_bytes OTHER_TYPE yb).
      rewrite (data_at_lookup _ _ _ _ Hd), <- Hwithin by lia. rewrite Hx.
      rewrite (data_at_lookup _ _ _ _ Ho), <- Hbo, Hy.
      rewrite (data_at_lookup _ _ _ _ Hd'). cbn [a1 base offset_ bytes set_bytes].
      rewrite Hr. now rewrite of_bytes_to_bytes.
    + intros i Hi.
      rewrite (data_at_lookup _ _ _ _ Hd), (data_at_lookup _ _ _ _ Hd').
      cbn [a1 base offset_ bytes set_bytes].
      rewrite Hframe by (right; nia). now rewrite Hwithin by lia.
    + intros i.
      rewrite (data_at_lookup _ _ _ _ Ho), (data_at_lookup _ _ _ _ Ho').
      now rewrite Hbo.
Qed.

Lemma plus_assign_elementwise_witness :
  exists a' h',
    operator_plus_assign Samples.numerator_store Samples.numerator
                         Samples.denominator
    = Return (a', h')
    /\ data_at h' a' 0 = Return 5.
Proof.
  destruct (plus_assign_elementwise Samples.numerator_store Samples.numerator
              Samples.denominator
              (mkBuffer [1; 0; 0; 0; 2; 0; 0; 0; 3; 0; 0; 0] true 1)
              (mkBuffer [4; 0; 0; 0; 5; 0; 0; 0; 6; 0; 0; 0] true 1))
    as (a' & h' & Hop & _ & _ & Hsum & _);
    try reflexivity; try (simpl; lia); try (unfold int_counts; simpl; lia).
  { intros i Hi _. change (0 <= i < 3) in Hi.
    assert (Hcase : i = 0 \/ i = 1 \/ i = 2) by lia.
    destruct Hcase as [-> | [-> | ->]]; vm_compute; split; congruence. }
  destruct (Hsum 0 ltac:(simpl; lia)) as (x & y & Hx & Hy & Hr).
  vm_compute in Hx, Hy. injection Hx as <-. injection Hy as <-.
  exists a', h'. split; [exact Hop | exact Hr].
Defined.

(** ** The bitmap of the left operand after an addition *)

Ltac step_bind :=
  match goal with
  | |- context [mbind _ ?m] =>
      let E := fresh "E" in
      destruct m eqn:E; cbn [mbind outcome_bind mret outcome_ret];
      try discriminate
  | |- context [if ?b then _ else _] => destruct b
  end.

Lemma EnsureMutable_keeps_no_bitmap {TYPE} (h h1 : store)
    (a a1 : IntegerArray TYPE) (st : Status) :
  valid_bits_ a = None ->
  EnsureMutable h a = Return (st, a1, h1) -> valid_bits_ a1 = None.
Proof.
  intros Hv. unfold EnsureMutable.
  destruct (EnsureMutableAndCheckChange h (base a)) as [[[[st0 ch] nb] h0] |];
    cbn [mbind outcome_bind mret outcome_ret]; [| discriminate].
  rewrite Hv.
  destruct (negb (ok st0)); [intros [= _ <- _]; reflexivity |].
  destruct (negb ch); intros [= _ <- _]; reflexivity.
Qed.

(** [a += other] never gives [a] a bitmap it did not have, whatever the
    nulls of [other]. *)
Lemma plus_assign_keeps_no_bitmap {TYPE OTHER_TYPE} (h h' : store)
    (a a' : IntegerArray TYPE) (other : IntegerArray OTHER_TYPE) :
  valid_bits_ a = None ->
  operator_plus_assign h a other = Return (a', h') ->
  valid_bits_ a' = None.
Proof.
  intros Hv. unfold operator_plus_assign.
  destruct (EnsureMutable h a) as [[[st a1] h1] |] eqn:He;
    cbn [mbind outcome_bind mret outcome_ret]; [| discriminate].
  pose proof (EnsureMutable_keeps_no_bitmap _ _ _ _ _ Hv He) as Hv1.
  rewrite (HasNulls_no_bitmap h1 a1 Hv1). cbn [mbind outcome_bind mret outcome_ret].
  repeat step_bind.
  all: intros [= <- _]; exact Hv1.
Qed.

(** * Further properties *)

(** ** Stores that keep their buffers *)

Lemma preserved_refl (h : store) : preserved h h.
Proof. intros p b Hb. eauto. Qed.

Lemma preserved_trans (h1 h2 h3 : store) :
  preserved h1 h2 -> preserved h2 h3 -> preserved h1 h3.
Proof.
  intros H12 H23 p b Hb.
  destruct (H12 p b Hb) as (b2 & Hb2 & Hy & Hm).
  destruct (H23 p b2 Hb2) as (b3 & Hb3 & Hy3 & Hm3).
  exists b3. split; [exact Hb3 |]. split; congruence.
Qed.

Lemma preserved_app (h l : store) : preserved h (h ++ l).
Proof.
  intros p b Hb. exists b. split; [| auto].
  now apply lookup_app_l_Some.
Qed.

Lemma preserved_insert (h : store) (p : nat) (b b' : Buffer) :
  h !! p = Some b -> bytes b' = bytes b -> is_mutable b' = is_mutable b ->
  preserved h (<[p := b']> h).
Proof.
  intros Hb Hy Hm q c Hc. destruct (decide (p = q)) as [<- | Hne].
  - exists b'. rewrite list_lookup_insert_eq by (eapply lookup_lt_Some; eauto).
    split; [reflexivity |]. split; congruence.
  - exists c. rewrite list_lookup_insert_ne by exact Hne. auto.
Qed.

Lemma preserved_drop_owner (h : store) (p : nat) : preserved h (drop_owner h p).
Proof.
  unfold drop_owner. destruct (h !! p) as [b |] eqn:Hb; [| apply preserved_refl].
  now apply (preserved_insert h p b).
Qed.

Lemma preserved_add_owner (h : store) (p : nat) : preserved h (add_owner h p).
Proof.
  unfold add_owner. destruct (h !! p) as [b |] eqn:Hb; [| apply preserved_refl].
  now apply (preserved_insert h p b).
Qed.

(** A store that differs from [h1] only at handles that [h] does not have
    keeps what [h1] kept of [h]. *)
Lemma preserved_outside (h h1 h2 : store) :
  preserved h h1 ->
  (forall p, (p < length h)%nat -> h2 !! p = h1 !! p) ->
  preserved h h2.
Proof.
  intros H1 Hsame p b Hb.
  destruct (H1 p b Hb) as (b' & Hb' & Hrest).
  exists b'. split; [| exact Hrest].
  rewrite Hsame by (eapply lookup_lt_Some; eauto). exact Hb'.
Qed.

Lemma length_drop_owner (h : store) (p : nat) : length (drop_owner h p) = length h.
Proof. unfold drop_owner. destruct (h !! p); [apply length_insert | reflexivity]. Qed.

Lemma length_add_owner (h : store) (p : nat) : length (add_owner h p) = length h.
Proof. unfold add_owner. destruct (h !! p); [apply length_insert | reflexivity]. Qed.

Lemma drop_owner_lookup_ne (h : store) (p q : nat) :
  p <> q -> drop_owner h p !! q = h !! q.
Proof.
  intros Hne. unfold drop_owner. destruct (h !! p); [| reflexivity].
  now apply list_lookup_insert_ne.
Qed.

Lemma drop_owner_lookup_eq (h : store) (p : nat) (b : Buffer) :
  h !! p = Some b -> drop_owner h p !! p = Some (release b).
Proof.
  intros Hb. unfold drop_owner. rewrite Hb.
  apply list_lookup_insert_eq. eapply lookup_lt_Some; eauto.
Qed.

Lemma add_owner_lookup_ne (h : store) (p q : nat) :
  p <> q -> add_owner h p !! q = h !! q.
Proof.
  intros Hne. unfold add_owner. destruct (h !! p); [| reflexivity].
  now apply list_lookup_insert_ne.
Qed.

Lemma add_owner_lookup_eq (h : store) (p : nat) (b : Buffer) :
  h !! p = Some b -> add_owner h p !! p = Some (acquire b).
Proof.
  intros Hb. unfold add_owner. rewrite Hb.
  apply list_lookup_insert_eq. eapply lookup_lt_Some; eauto.
Qed.

(** ** Detaching from a shared buffer *)

(** What a call of [EnsureMutableAndCheckChange] that returns has done. *)
Lemma EnsureMutableAndCheckChange_inv {TYPE} (h h' : store)
    (a a' : NumericArray TYPE) (st : Status) (changed : bool) :
  EnsureMutableAndCheckChange h a = Return (st, changed, a', h') ->
  st = OK
  /\ length_ a' = length_ a
  /\ preserved h h'
  /\ (forall p, p <> data_ a -> (p < length h)%nat -> h' !! p = h !! p)
  /\ exists d,
      h !! data_ a = Some d
      /\ if changed
         then use_count d <> 1%nat
              /\ offset_ a' = 0 /\ data_ a' = length h
              /\ length h' = S (length h)
              /\ h' !! data_ a = Some (release d)
              /\ exists bs,
                  read_bytes (bytes d) (offset_ a) (length_ a * sizeof TYPE) = Return bs
                  /\ h' !! length h = Some (mkBuffer bs true 1%nat)
         else use_count d = 1%nat /\ a' = a /\ h' = h.
Proof.
  unfold EnsureMutableAndCheckChange, Buffer_Copy, deref.
  destruct (h !! data_ a) as [d |] eqn:Hd; cbn [mbind outcome_bind mret outcome_ret];
    [| discriminate].
  pose proof (lookup_lt_Some _ _ _ Hd) as Hdl.
  destruct (Nat.eqb_spec (use_count d) 1) as [Hc | Hc].
  - intros [= <- <- <- <-].
    split; [reflexivity |]. split; [reflexivity |].
    split; [apply preserved_refl |]. split; [reflexivity |].
    exists d. auto.
  - destruct (read_bytes _ _ _) as [bs |] eqn:Hr;
      cbn [mbind outcome_bind mret outcome_ret allocate]; [| discriminate].
    intros [= <- <- <- <-].
    split; [reflexivity |]. split; [reflexivity |].
    split; [| split].
    + eapply preserved_trans; [apply preserved_app | apply preserved_drop_owner].
    + intros p Hne Hp. rewrite drop_owner_lookup_ne by auto.
      now apply lookup_app_l.
    + exists d. split; [reflexivity |]. split; [exact Hc |].
      split; [reflexivity |]. split; [reflexivity |].
      split; [rewrite length_drop_owner, length_app; simpl; lia |].
      split.
      * apply drop_owner_lookup_eq. now apply lookup_app_l_Some.
      * exists bs. split; [exact Hr |].
        rewrite drop_owner_lookup_ne by lia. now apply list_lookup_middle.
Qed.



(** [EnsureMutable] returns [OK] when it returns, and its array keeps the
    length. *)
Lemma EnsureMutable_inv {TYPE} (h h1 : store) (a a1 : IntegerArray TYPE)
    (st : Status) :
  EnsureMutable h a = Return (st, a1, h1) ->
  st = OK /\ length_ (base a1) = length_ (base a) /\ preserved h h1
  /\ (length h <= length h1)%nat
  /\ exists d,
      h !! data_ (base a) = Some d
      /\ (use_count d = 1%nat -> a1 = a /\ h1 = h)
      /\ (use_count d <> 1%nat ->
          offset_ (base a1) = 0 /\ data_ (base a1) = length h
          /\ (valid_bits_ a = None -> valid_bits_ a1 = None)
          /\ (forall vb, valid_bits_ a1 = Some vb -> vb = S (length h))
          /\ exists bs,
              read_bytes (bytes d) (offset_ (base a))
                         (length_ (base a) * int_sizeof TYPE) = Return bs).
Proof.
  unfold EnsureMutable.
  destruct (EnsureMutableAndCheckChange h (base a)) as [[[[st0 ch] nb] h0] |] eqn:E;
    cbn [mbind outcome_bind mret outcome_ret]; [| discriminate].
  destruct (EnsureMutableAndCheckChange_inv _ _ _ _ _ _ E)
    as (-> & Hlen & Hpres & Hother & d & Hd & Hch).
  cbn [ok negb].
  destruct ch; cbn [negb].
  - destruct Hch as (Hc & Hoff & Hdata & Hl0 & Hold & bs & Hr & Hnew).
    destruct (valid_bits_ a) as [vb |] eqn:Hvb.
    + destruct (CopyBitmap h0 (Some vb) (offset_ nb) (length_ nb)) as [[q h2] |] eqn:Ec;
        cbn [mbind outcome_bind mret outcome_ret]; [| discriminate].
      intros [= <- <- <-]. cbn [base valid_bits_].
      unfold CopyBitmap in Ec.
      destruct (deref_ptr h0 (Some vb)) as [v |];
        cbn [mbind outcome_bind mret outcome_ret] in Ec; [| discriminate].
      destruct (_ && _) in Ec; [| discriminate].
      cbn [mret outcome_ret allocate] in Ec. injection Ec as <- <-.
      split; [reflexivity |]. split; [exact Hlen |].
      split; [| split].
      * eapply preserved_trans; [exact Hpres |].
        eapply preserved_trans; [apply preserved_app | apply preserved_drop_owner].
      * rewrite length_drop_owner, length_app. lia.
      * exists d. split; [exact Hd |]. split; [contradiction |].
        intros _. split; [exact Hoff |]. split; [exact Hdata |].
        split; [discriminate |]. split; [| eauto].
        intros vb' [= <-]. exact Hl0.
    + intros [= <- <- <-]. cbn [base valid_bits_].
      split; [reflexivity |]. split; [exact Hlen |]. split; [exact Hpres |].
      split; [lia |].
      exists d. split; [exact Hd |]. split; [contradiction |].
      intros _. split; [exact Hoff |]. split; [exact Hdata |].
      split; [reflexivity |]. split; [discriminate | eauto].
  - destruct Hch as (Hc & -> & ->).
    intros [= <- <- <-].
    split; [reflexivity |]. split; [reflexivity |]. split; [exact Hpres |].
    split; [lia |].
    exists d. split; [exact Hd |]. split; [| contradiction].
    intros _. split; [now destruct a | reflexivity].
Qed.




(** X3: [EnsureMutable] looks at the owners of the data buffer only: when the
    data buffer has one owner and the bitmap has several, it changes
    nothing, and [owns_data] is still false afterwards. *)
Theorem EnsureMutable_leaves_shared_bitmap {TYPE} (h : store)
    (a : IntegerArray TYPE) (d v : Buffer) (vb : handle) :
  h !! data_ (base a) = Some d -> use_count d = 1%nat ->
  valid_bits_ a = Some vb -> h !! vb = Some v -> use_count v <> 1%nat ->
  EnsureMutable h a = Return (OK, a, h)
  /\ owns_data h a = Return false.
Proof.
  intros Hd Hc Hvb Hv Hcv. split; [now apply (EnsureMutable_unique h a d) |].
  unfold owns_data, deref. rewrite Hd. cbn [mbind outcome_bind].
  rewrite Hvb, Hv. cbn [mbind outcome_bind mret outcome_ret].
  rewrite Hc. destruct (Nat.eqb_spec (use_count v) 1); [contradiction | reflexivity].
Qed.

Lemma EnsureMutable_leaves_shared_bitmap_witness :
  owns_data [mkBuffer [5] true 1; mkBuffer [255] true 2] Samples.shared
  = Return false.
Proof.
  apply (EnsureMutable_leaves_shared_bitmap
           [mkBuffer [5] true 1; mkBuffer [255] true 2] Samples.shared
           (mkBuffer [5] true 1) (mkBuffer [255] true 2) 1%nat);
    try reflexivity.
  simpl. lia.
Defined.



(** ** Copies *)

(** What a call of [Copy] that returns has done: the store has grown by the
    copy of the data (and by a bitmap nobody owns), nothing else. *)
Lemma Copy_inv {TYPE} (h h' : store) (a c : IntegerArray TYPE)
    (offset length : Z) (st : Status) :
  Copy h a offset length = Return (st, c, h') ->
  st = OK
  /\ c = IntegerArray_new_nobits TYPE length (List.length h) 0
  /\ (forall p, (p < List.length h)%nat -> h' !! p = h !! p)
  /\ exists d bs,
      h !! data_ (base a) = Some d
      /\ read_bytes (bytes d) ((offset_ (base a) + offset) * int_sizeof TYPE)
                    (length * int_sizeof TYPE) = Return bs
      /\ h' !! List.length h = Some (mkBuffer bs true 1%nat).
Proof.
  unfold Copy, Buffer_Copy, deref.
  destruct (h !! data_ (base a)) as [d |] eqn:Hd;
    cbn [mbind outcome_bind mret outcome_ret]; [| discriminate].
  destruct (read_bytes _ _ _) as [bs |] eqn:Hr;
    cbn [mbind outcome_bind mret outcome_ret allocate]; [| discriminate].
  destruct (valid_bits_ a) as [vb |].
  - unfold CopyBitmap.
    destruct (deref_ptr _ (Some vb)) as [v |];
      cbn [mbind outcome_bind mret outcome_ret]; [| discriminate].
    destruct (_ && _); cbn [mbind outcome_bind mret outcome_ret allocate];
      [| discriminate].
    intros [= <- <- <-].
    split; [reflexivity |]. split; [reflexivity |].
    assert (Hl : List.length (h ++ [mkBuffer bs true 1%nat]) = S (List.length h))
      by (rewrite length_app; simpl; lia).
    split.
    + intros p Hp. rewrite drop_owner_lookup_ne by lia.
      rewrite lookup_app_l by lia. now apply lookup_app_l.
    + exists d, bs. split; [reflexivity |]. split; [exact Hr |].
      rewrite drop_owner_lookup_ne by lia.
      rewrite lookup_app_l by lia. now apply list_lookup_middle.
  - intros [= <- <- <-].
    split; [reflexivity |]. split; [reflexivity |].
    split; [intros p Hp; now apply lookup_app_l |].
    exists d, bs. split; [reflexivity |]. split; [exact Hr |].
    now apply list_lookup_middle.
Qed.



(** X6: [Copy] never aliases: every buffer that was in the store is there
    afterwards exactly as it was, owners included, the data of the copy is
    in a buffer the store did not have, and the copy owns its data. *)
Theorem Copy_never_aliases {TYPE} (h h' : store) (a c : IntegerArray TYPE)
    (offset length : Z) (st : Status) :
  Copy h a offset length = Return (st, c, h') ->
  (forall p b, h !! p = Some b -> h' !! p = Some b)
  /\ h !! data_ (base c) = None
  /\ owns_data h' c = Return true.
Proof.
  intros Hc.
  destruct (Copy_inv _ _ _ _ _ _ _ Hc) as (_ & -> & Hsame & d & bs & _ & _ & Hnew).
  cbn [IntegerArray_new_nobits IntegerArray_new base data_].
  split; [| split].
  - intros p b Hb. rewrite Hsame by (eapply lookup_lt_Some; eauto). exact Hb.
  - apply lookup_ge_None. lia.
  - unfold owns_data, deref.
    cbn [IntegerArray_new_nobits IntegerArray_new base data_ valid_bits_].
    now rewrite Hnew.
Qed.

Lemma Copy_never_aliases_witness :
  owns_data
    [mkBuffer [1; 2] true 1; mkBuffer [10; 20] true 1; mkBuffer [1] true 1;
     mkBuffer [20] true 1; mkBuffer [0] true 0]
    (IntegerArray_new_nobits Int8Type 1 3%nat 0)
  = Return true.
Proof.
  apply (Copy_never_aliases Samples.pair_store _ Samples.right _ 1 1 OK).
  vm_compute. reflexivity.
Defined.

(** X7: [FloatingArray::Copy(offset, length)] counts [offset] from the start
    of the buffer, whatever the offset of the array: element [i] of the copy
    holds the bytes of element [offset + i] of the buffer.  For an array at
    offset 0 that is element [offset + i] of the array. *)
Theorem Floating_Copy_from_buffer_start {TYPE} (h h' : store)
    (a c : FloatingArray TYPE) (d : Buffer) (offset length : Z) (st : Status) :
  h !! data_ (fbase a) = Some d ->
  Floating.Copy h a offset length = Return (st, c, h') ->
  st = OK /\ length_ (fbase c) = length /\ offset_ (fbase c) = 0
  /\ (forall i, 0 <= i < length ->
        data_bytes h' (fbase c) i
        = read_bytes (bytes d) ((offset + i) * float_sizeof TYPE) (float_sizeof TYPE))
  /\ (offset_ (fbase a) = 0 ->
      forall i, 0 <= i < length ->
        data_bytes h' (fbase c) i = data_bytes h (fbase a) (offset + i)).
Proof.
  intros Hd. unfold Floating.Copy, Buffer_Copy, deref. rewrite Hd.
  cbn [mbind outcome_bind mret outcome_ret].
  destruct (read_bytes _ _ _) as [bs |] eqn:Hr;
    cbn [mbind outcome_bind mret outcome_ret allocate]; [| discriminate].
  intros [= <- <- <-].
  pose proof (float_sizeof_bounds TYPE) as Hs.
  assert (Hc : forall i, 0 <= i < length ->
            data_bytes (h ++ [mkBuffer bs true 1%nat])
              (fbase (FloatingArray_new TYPE length (List.length h) 0)) i
            = read_bytes (bytes d) ((offset + i) * float_sizeof TYPE)
                         (float_sizeof TYPE)).
  { intros i Hi. unfold data_bytes, deref.
    cbn [FloatingArray_new fbase data_ offset_ sizeof].
    rewrite list_lookup_middle by reflexivity.
    cbn [mbind outcome_bind bytes].
    rewrite (read_bytes_within _ _ _ _ _ _ Hr) by nia.
    replace (offset * float_sizeof TYPE + (0 + i) * float_sizeof TYPE)
      with ((offset + i) * float_sizeof TYPE) by lia.
    reflexivity. }
  split; [reflexivity |]. split; [reflexivity |]. split; [reflexivity |].
  split; [exact Hc |].
  intros Hoff i Hi. rewrite (Hc i Hi).
  unfold data_bytes, deref. rewrite Hd, Hoff. reflexivity.
Qed.

Lemma Floating_Copy_from_buffer_start_witness :
  data_bytes
    [mkBuffer [1; 0; 0; 0; 2; 0; 0; 0; 3; 0; 0; 0] true 1;
     mkBuffer [2; 0; 0; 0] true 1]
    (mkNumericArray (TYPE := Floating FloatType) 1 0 1%nat) 0
  = read_bytes [1; 0; 0; 0; 2; 0; 0; 0; 3; 0; 0; 0]
      ((1 + 0) * float_sizeof FloatType) (float_sizeof FloatType).
Proof.
  refine (proj1 (proj2 (proj2 (proj2
            (Floating_Copy_from_buffer_start
               [mkBuffer [1; 0; 0; 0; 2; 0; 0; 0; 3; 0; 0; 0] true 1] _
               (FloatingArray_new FloatType 2 0%nat 1)
               (FloatingArray_new FloatType 1 1%nat 0)
               (mkBuffer [1; 0; 0; 0; 2; 0; 0; 0; 3; 0; 0; 0] true 1) 1 1 OK
               _ _)))) 0 _).
  - reflexivity.
  - vm_compute. reflexivity.
  - lia.
Defined.

(** ** Bits next to a bit that is written *)

Lemma testbit_one (n : Z) : n <> 0 -> Z.testbit 1 n = false.
Proof. destruct n as [| p | p]; [contradiction | | reflexivity]. now destruct p. Qed.

Lemma testbit_lor_shiftl_other (b k m : Z) :
  0 <= k -> m <> k -> Z.testbit (Z.lor b (Z.shiftl 1 k)) m = Z.testbit b m.
Proof.
  intros Hk Hne. rewrite Z.lor_spec.
  destruct (Z_lt_le_dec m 0) as [Hm | Hm].
  - now rewrite !Z.testbit_neg_r by lia.
  - rewrite Z.shiftl_spec by lia. rewrite testbit_one by lia. apply orb_false_r.
Qed.

Lemma testbit_ldiff_shiftl_other (b k m : Z) :
  0 <= k -> m <> k -> Z.testbit (Z.ldiff b (Z.shiftl 1 k)) m = Z.testbit b m.
Proof.
  intros Hk Hne. rewrite Z.ldiff_spec.
  destruct (Z_lt_le_dec m 0) as [Hm | Hm].
  - now rewrite !Z.testbit_neg_r by lia.
  - rewrite Z.shiftl_spec by lia. rewrite testbit_one by lia. apply andb_true_r.
Qed.

(** Writing the byte of bit [i] with a byte that agrees on bit [j mod 8]
    whenever [j] is another bit of that byte leaves bit [j] as it was. *)
Lemma GetBit_insert_other (bits : list Z) (i j b c : Z) :
  BitUtil.byte_at bits i = Return b ->
  j <> i ->
  (forall m, 0 <= m < 8 -> m <> i mod 8 -> Z.testbit c m = Z.testbit b m) ->
  BitUtil.GetBit (<[Z.to_nat (i / 8) := c]> bits) j = BitUtil.GetBit bits j.
Proof.
  intros Hb Hne Hc. apply byte_at_Return in Hb as (Hi & Hb).
  unfold BitUtil.GetBit, BitUtil.byte_at.
  destruct (Z.leb_spec 0 j) as [Hj | Hj]; [| reflexivity].
  destruct (decide (Z.to_nat (i / 8) = Z.to_nat (j / 8))) as [E | E].
  - rewrite <- E.
    rewrite list_lookup_insert_eq by (eapply lookup_lt_Some; eauto).
    rewrite Hb. cbn [mbind outcome_bind mret outcome_ret]. f_equal.
    assert (Hq : i / 8 = j / 8).
    { pose proof (Z.div_pos i 8). pose proof (Z.div_pos j 8). lia. }
    apply Hc; [apply Z.mod_pos_bound; lia |].
    intros Hm. apply Hne.
    rewrite (Z.div_mod j 8), (Z.div_mod i 8) by lia. lia.
  - now rewrite list_lookup_insert_ne by exact E.
Qed.

Lemma GetBit_SetBit_other (bits bits' : list Z) (i j : Z) :
  BitUtil.SetBit bits i = Return bits' -> j <> i ->
  BitUtil.GetBit bits' j = BitUtil.GetBit bits j.
Proof.
  unfold BitUtil.SetBit.
  destruct (BitUtil.byte_at bits i) as [b |] eqn:E;
    cbn [mbind outcome_bind mret outcome_ret]; [| discriminate].
  intros [= <-] Hne. apply (GetBit_insert_other bits i j b); auto.
  intros m Hm Hmi. apply testbit_lor_shiftl_other; [| exact Hmi].
  apply Z.mod_pos_bound. lia.
Qed.

Lemma GetBit_ClearBit_other (bits bits' : list Z) (i j : Z) :
  BitUtil.ClearBit bits i = Return bits' -> j <> i ->
  BitUtil.GetBit bits' j = BitUtil.GetBit bits j.
Proof.
  unfold BitUtil.ClearBit.
  destruct (BitUtil.byte_at bits i) as [b |] eqn:E;
    cbn [mbind outcome_bind mret outcome_ret]; [| discriminate].
  intros [= <-] Hne. apply (GetBit_insert_other bits i j b); auto.
  intros m Hm Hmi. apply testbit_ldiff_shiftl_other; [| exact Hmi].
  apply Z.mod_pos_bound. lia.
Qed.

Lemma ClearBit_Return (bits : list Z) (i : Z) :
  0 <= i < 8 * Z.of_nat (length bits) ->
  exists bits', BitUtil.ClearBit bits i = Return bits' /\ length bits' = length bits.
Proof.
  intros Hi. unfold BitUtil.ClearBit, BitUtil.byte_at.
  destruct (Z.leb_spec 0 i); [| lia].
  assert (Hq : (Z.to_nat (i / 8) < length bits)%nat).
  { pose proof (Z.div_lt_upper_bound i 8 (Z.of_nat (length bits))).
    pose proof (Z.div_pos i 8). lia. }
  apply lookup_lt_is_Some_2 in Hq as [b Hb]. rewrite Hb.
  cbn [mbind outcome_bind mret outcome_ret].
  eexists. split; [reflexivity |]. apply length_insert.
Qed.

(** ** What GetItem depends on *)

(** [GetItem(j)] reads bit [j] of the bitmap and the bytes of element [j]. *)
Lemma GetItem_depends {TYPE} (h h' : store) (a : IntegerArray TYPE)
    (d d' v v' : Buffer) (vb : handle) (j : Z) :
  valid_bits_ a = Some vb ->
  h !! vb = Some v -> h' !! vb = Some v' ->
  BitUtil.GetBit (bytes v') j = BitUtil.GetBit (bytes v) j ->
  h !! data_ (base a) = Some d -> h' !! data_ (base a) = Some d' ->
  read_bytes (bytes d') ((offset_ (base a) + j) * int_sizeof TYPE) (int_sizeof TYPE)
  = read_bytes (bytes d) ((offset_ (base a) + j) * int_sizeof TYPE) (int_sizeof TYPE) ->
  GetItem h' a j = GetItem h a j.
Proof.
  intros Hvb Hv Hv' Hbit Hd Hd' Hread.
  unfold GetItem, deref, BitUtil.BitNotSet. rewrite Hvb, Hv, Hv'.
  cbn [mbind outcome_bind]. rewrite Hbit.
  rewrite (data_at_lookup _ _ _ _ Hd), (data_at_lookup _ _ _ _ Hd'), Hread.
  reflexivity.
Qed.

Section SetItemEffects.
Variable AllocateValidityBitmap :
  store → Z → outcome (Status * option handle * store).
Context {TYPE : IntegerType}.
Implicit Type a : IntegerArray TYPE.

(** X8: on an array with a bitmap whose two buffers are mutable,
    [SetItem(i, NA)] with bit [i] inside the bitmap returns [OK], leaves the
    data buffer as it is, and [GetItem(i)] returns NA afterwards. *)
Theorem SetItem_NA_then_GetItem (h : store) a (d v : Buffer) (vb : handle) (i : Z) :
  h !! data_ (base a) = Some d -> is_mutable d = true ->
  valid_bits_ a = Some vb -> h !! vb = Some v -> is_mutable v = true ->
  vb <> data_ (base a) ->
  0 <= i < 8 * Z.of_nat (length (bytes v)) ->
  exists h2,
    SetItem AllocateValidityBitmap h a i NA = Return (OK, a, h2)
    /\ h2 !! data_ (base a) = Some d
    /\ GetItem h2 a i = Return NA.
Proof.
  intros Hd Hdm Hvb Hv Hvm Hne Hi.
  destruct (ClearBit_Return (bytes v) i Hi) as (bits' & Hclr & Hlen).
  exists (<[vb := set_bytes v bits']> h).
  split; [| split].
  - unfold SetItem, deref_ptr, mutable_bits, deref.
    rewrite Hd. cbn [mbind outcome_bind]. rewrite Hdm. cbn [negb].
    rewrite Hvb, Hv. cbn [mbind outcome_bind]. rewrite Hvm.
    cbn [negb py.is_na mbind outcome_bind mret outcome_ret ok].
    rewrite Hvb, Hv. cbn [mbind outcome_bind]. rewrite Hvm.
    cbn [mbind outcome_bind mret outcome_ret]. rewrite Hclr. reflexivity.
  - rewrite list_lookup_insert_ne by exact Hne. exact Hd.
  - apply (GetItem_NA_with_bitmap _ a vb (set_bytes v bits')); [exact Hvb | |].
    + apply list_lookup_insert_eq. eapply lookup_lt_Some; eauto.
    + cbn [bytes set_bytes]. eapply GetBit_ClearBit; eauto.
Qed.

(** X9: a [SetItem(i, val)] that returns, with whatever status, on an array
    whose bitmap is not its data buffer, leaves [GetItem(j)] as it was for
    every [j] other than [i]. *)
Theorem SetItem_other_items (h h' : store) a a' (vb : handle) (i j : Z)
    (val : PyObject) (st : Status) :
  valid_bits_ a = Some vb -> vb <> data_ (base a) ->
  SetItem AllocateValidityBitmap h a i val = Return (st, a', h') ->
  j <> i ->
  a' = a /\ GetItem h' a j = GetItem h a j.
Proof.
  intros Hvb Hne Hset Hji. revert Hset.
  assert (Hs : 0 < int_sizeof TYPE) by (destruct TYPE; simpl; lia).
  unfold SetItem, deref_ptr, mutable_bits, deref.
  destruct (h !! data_ (base a)) as [d |] eqn:Hd; cbn [mbind outcome_bind];
    [| discriminate].
  destruct (is_mutable d) eqn:Hdm; cbn [negb];
    [| intros [= <- <- <-]; auto].
  rewrite Hvb.
  destruct (h !! vb) as [v |] eqn:Hv; cbn [mbind outcome_bind]; [| discriminate].
  destruct (is_mutable v) eqn:Hvm; cbn [negb];
    [| intros [= <- <- <-]; auto].
  pose proof (lookup_lt_Some _ _ _ Hd) as Hdl.
  pose proof (lookup_lt_Some _ _ _ Hv) as Hvl.
  destruct (py.is_na val).
  - cbn [mbind outcome_bind mret outcome_ret ok negb]. rewrite Hvb, Hv.
    cbn [mbind outcome_bind]. rewrite Hvm. cbn [mbind outcome_bind mret outcome_ret].
    destruct (BitUtil.ClearBit (bytes v) i) as [bits' |] eqn:Hclr;
      cbn [mbind outcome_bind mret outcome_ret]; [| discriminate].
    intros [= <- <- <-]. split; [reflexivity |].
    apply (GetItem_depends h _ a d d v (set_bytes v bits') vb j); auto.
    + now apply list_lookup_insert_eq.
    + cbn [bytes set_bytes]. eapply GetBit_ClearBit_other; eauto.
    + now rewrite list_lookup_insert_ne.
  - cbn [mbind outcome_bind mret outcome_ret].
    destruct (BitUtil.SetBit (bytes v) i) as [bits' |] eqn:Hsb;
      cbn [mbind outcome_bind mret outcome_ret]; [| discriminate].
    assert (Hbit : BitUtil.GetBit bits' j = BitUtil.GetBit (bytes v) j)
      by (eapply GetBit_SetBit_other; eauto).
    destruct (PyObjectToInt64 val) as [[st0 cval] pending].
    destruct (ok st0); cbn [negb].
    + unfold mutable_data_set, mutable_data, deref.
      rewrite list_lookup_insert_ne by exact Hne. rewrite Hd.
      cbn [mbind outcome_bind]. rewrite Hdm. cbn [mbind outcome_bind mret outcome_ret].
      destruct (write_bytes (bytes d) _ _) as [bs' |] eqn:Hw;
        cbn [mbind outcome_bind mret outcome_ret]; [| discriminate].
      assert (Hfinal : forall s0 a0 h0,
                (s0, a0, h0) = (st, a', h') ->
                h0 = <[data_ (base a) := set_bytes d bs']> (<[vb := set_bytes v bits']> h) ->
                a0 = a ->
                a' = a /\ GetItem h' a j = GetItem h a j).
      { intros s0 a0 h0 [= <- <- <-] -> ->. split; [reflexivity |].
        apply (GetItem_depends h _ a d (set_bytes d bs') v (set_bytes v bits') vb j);
          auto.
        - rewrite list_lookup_insert_ne by auto. now apply list_lookup_insert_eq.
        - apply list_lookup_insert_eq. now rewrite length_insert.
        - cbn [bytes set_bytes].
          apply (read_write_disjoint _ _ _ _ _ _ Hw).
          rewrite length_to_bytes. cbn [sizeof].
          assert (0 <= (i - j - 1) * int_sizeof TYPE
                  \/ 0 <= (j - i - 1) * int_sizeof TYPE) as [Hlt | Hgt]
            by (destruct (Z_lt_le_dec j i); [left | right]; nia).
          all: lia. }
      destruct pending; intros [= E1 E2 E3];
        eapply Hfinal; try reflexivity; congruence.
    + intros [= <- <- <-]. split; [reflexivity |].
      apply (GetItem_depends h _ a d d v (set_bytes v bits') vb j); auto.
      * now apply list_lookup_insert_eq.
      * now rewrite list_lookup_insert_ne.
Qed.

End SetItemEffects.

Lemma SetItem_NA_then_GetItem_witness :
  exists h2,
    SetItem Samples.zero_bitmap Samples.shared_store Samples.shared 0 NA
    = Return (OK, Samples.shared, h2)
    /\ h2 !! data_ (base Samples.shared) = Some (mkBuffer [5] true 2)
    /\ GetItem h2 Samples.shared 0 = Return NA.
Proof.
  apply (SetItem_NA_then_GetItem Samples.zero_bitmap Samples.shared_store
           Samples.shared (mkBuffer [5] true 2) (mkBuffer [255] true 1) 1%nat 0);
    try reflexivity; simpl; lia.
Defined.

Lemma SetItem_other_items_witness :
  GetItem [mkBuffer [1; 2] true 1; mkBuffer [7; 20] true 1; mkBuffer [1] true 1]
          Samples.right 1
  = GetItem Samples.pair_store Samples.right 1.
Proof.
  apply (SetItem_other_items Samples.zero_bitmap Samples.pair_store _
           Samples.right Samples.right 2%nat 0 1 (PyLong 7) OK).
  - reflexivity.
  - simpl. lia.
  - vm_compute. reflexivity.
  - lia.
Defined.


Section SetItemStatus.
Variable AllocateValidityBitmap :
  store → Z → outcome (Status * option handle * store).
Context {TYPE : IntegerType}.
Implicit Type a : IntegerArray TYPE.

(** X10: [SetItem(i, val)] with an object that is no number, on an array
    with a bitmap whose two buffers are mutable: the status is the Python
    error and the data buffer is as before, but bit [i] has been set first,
    so [GetItem(i)] returns the element stored there, also when it returned
    NA before. *)
Theorem SetItem_not_a_number (h : store) a (d v : Buffer) (vb : handle) (i : Z) :
  h !! data_ (base a) = Some d -> is_mutable d = true ->
  valid_bits_ a = Some vb -> h !! vb = Some v -> is_mutable v = true ->
  vb <> data_ (base a) ->
  0 <= i < 8 * Z.of_nat (length (bytes v)) ->
  exists h2,
    SetItem AllocateValidityBitmap h a i PyOther = Return (PythonError, a, h2)
    /\ h2 !! data_ (base a) = Some d
    /\ forall x, data_at h a i = Return x ->
         GetItem h2 a i = Return (PyLong (convert Int64Type x)).
Proof.
  intros Hd Hdm Hvb Hv Hvm Hne Hi.
  destruct (SetBit_Return (bytes v) i Hi) as (bits' & Hset & Hlen).
  pose proof (lookup_lt_Some _ _ _ Hv) as Hvl.
  exists (<[vb := set_bytes v bits']> h).
  assert (Hd2 : <[vb := set_bytes v bits']> h !! data_ (base a) = Some d)
    by (rewrite list_lookup_insert_ne by exact Hne; exact Hd).
  split; [| split].
  - unfold SetItem, deref_ptr, mutable_bits, deref.
    rewrite Hd. cbn [mbind outcome_bind]. rewrite Hdm. cbn [negb].
    rewrite Hvb, Hv. cbn [mbind outcome_bind]. rewrite Hvm.
    cbn [negb py.is_na mbind outcome_bind mret outcome_ret].
    rewrite Hset. reflexivity.
  - exact Hd2.
  - intros x Hx. unfold GetItem, deref, BitUtil.BitNotSet. rewrite Hvb.
    rewrite list_lookup_insert_eq by exact Hvl.
    cbn [mbind outcome_bind bytes set_bytes].
    rewrite (GetBit_SetBit _ _ _ Hset). cbn [mbind outcome_bind mret outcome_ret negb].
    rewrite (data_at_lookup _ _ _ _ Hd2).
    rewrite (data_at_lookup _ _ _ _ Hd) in Hx.
    destruct (read_bytes _ _ _) as [bs |]; [| discriminate].
    injection Hx as <-. reflexivity.
Qed.


End SetItemStatus.

Lemma SetItem_not_a_number_witness :
  exists h2,
    SetItem Samples.zero_bitmap
      [mkBuffer [5] true 1; mkBuffer [0] true 1] Samples.shared 0 PyOther
    = Return (PythonError, Samples.shared, h2)
    /\ h2 !! data_ (base Samples.shared) = Some (mkBuffer [5] true 1)
    /\ forall x,
         data_at [mkBuffer [5] true 1; mkBuffer [0] true 1] Samples.shared 0
         = Return x ->
         GetItem h2 Samples.shared 0 = Return (PyLong (convert Int64Type x)).
Proof.
  apply (SetItem_not_a_number Samples.zero_bitmap
           [mkBuffer [5] true 1; mkBuffer [0] true 1]
           Samples.shared (mkBuffer [5] true 1) (mkBuffer [0] true 1) 1%nat 0);
    try reflexivity; simpl; lia.
Defined.


(** ** The value GetItem returns *)

Lemma convert_range (t : IntegerType) (z : Z) : in_type t (convert t z).
Proof.
  unfold in_type, convert, numeric_limits_max. cbv zeta.
  assert (Hk : 0 < 2 ^ (8 * int_sizeof t - 1))
    by (apply Z.pow_pos_nonneg; [lia | destruct t; simpl; lia]).
  assert (Hm : 2 ^ (8 * int_sizeof t) = 2 * 2 ^ (8 * int_sizeof t - 1)).
  { rewrite <- Z.pow_succ_r by (destruct t; simpl; lia). f_equal. lia. }
  rewrite Hm. set (k := 2 ^ (8 * int_sizeof t - 1)) in *.
  replace (2 * k / 2) with k by (rewrite Z.mul_comm, Z.div_mul; lia).
  pose proof (Z.mod_pos_bound z (2 * k) ltac:(lia)) as Hr.
  destruct (is_signed t); cbn [andb].
  - destruct (Z.leb_spec k (z mod (2 * k))); lia.
  - lia.
Qed.

Lemma in_type_bounds (t : IntegerType) (x : Z) :
  in_type t x -> - 2 ^ 63 <= x <= 2 ^ 64 - 1.
Proof.
  unfold in_type, numeric_limits_max.
  destruct t; cbn [is_signed int_sizeof];
    change (8 * 1 - 1) with 7; change (8 * 2 - 1) with 15;
    change (8 * 4 - 1) with 31; change (8 * 8 - 1) with 63;
    change (8 * 1) with 8; change (8 * 2) with 16;
    change (8 * 4) with 32; change (8 * 8) with 64; lia.
Qed.

Lemma in_type_below_2_63 (t : IntegerType) (x : Z) :
  t <> UInt64Type -> in_type t x -> x < 2 ^ 63.
Proof.
  intros Ht. unfold in_type, numeric_limits_max.
  destruct t; try contradiction; cbn [is_signed int_sizeof];
    change (8 * 1 - 1) with 7; change (8 * 2 - 1) with 15;
    change (8 * 4 - 1) with 31; change (8 * 8 - 1) with 63;
    change (8 * 1) with 8; change (8 * 2) with 16;
    change (8 * 4) with 32; lia.
Qed.

Lemma convert_Int64 (x : Z) :
  - 2 ^ 63 <= x <= 2 ^ 64 - 1 ->
  convert Int64Type x = if 2 ^ 63 <=? x then x - 2 ^ 64 else x.
Proof.
  intros Hx. destruct (Z.leb_spec (2 ^ 63) x) as [Hbig | Hsmall].
  - rewrite <- (convert_mod Int64Type).
    change (8 * int_sizeof Int64Type) with 64.
    replace (x mod 2 ^ 64) with ((x - 2 ^ 64) mod 2 ^ 64)
      by (rewrite <- (Z.mod_add (x - 2 ^ 64) 1 (2 ^ 64)) by lia; f_equal; lia).
    change 64 with (8 * int_sizeof Int64Type). rewrite convert_mod.
    apply convert_in_type. unfold in_type, numeric_limits_max.
    cbn [is_signed int_sizeof]. change (8 * 8 - 1) with 63. lia.
  - apply convert_in_type. unfold in_type, numeric_limits_max.
    cbn [is_signed int_sizeof]. change (8 * 8 - 1) with 63. lia.
Qed.

(** X12: when [GetItem(i)] returns an integer, it is the element at [i],
    which is a value of the element type, passed through [long long]: the
    element itself for every type but uint64, and for uint64 the element
    less 2^64 when it is 2^63 or more. *)
Theorem GetItem_value {TYPE} (h : store) (a : IntegerArray TYPE) (i z : Z) :
  GetItem h a i = Return (PyLong z) ->
  exists x,
    data_at h a i = Return x /\ in_type TYPE x
    /\ z = (if 2 ^ 63 <=? x then x - 2 ^ 64 else x)
    /\ (TYPE <> UInt64Type -> z = x).
Proof.
  unfold GetItem.
  destruct (match valid_bits_ a with Some _ => _ | None => _ end) as [na |];
    cbn [mbind outcome_bind]; [| discriminate].
  destruct na; [discriminate |].
  destruct (data_at h a i) as [x |] eqn:Hx;
    cbn [mbind outcome_bind mret outcome_ret]; [| discriminate].
  intros [= <-]. exists x. split; [reflexivity |].
  assert (Hin : in_type TYPE x).
  { unfold data_at in Hx. destruct (data_bytes h (base a) i);
      cbn [mbind outcome_bind mret outcome_ret] in Hx; [| discriminate].
    injection Hx as <-. apply convert_range. }
  split; [exact Hin |].
  pose proof (in_type_bounds _ _ Hin) as Hb.
  split; [now apply convert_Int64 |].
  intros Ht. pose proof (in_type_below_2_63 _ _ Ht Hin).
  rewrite convert_Int64 by exact Hb.
  destruct (Z.leb_spec (2 ^ 63) x); [lia | reflexivity].
Qed.

Lemma GetItem_value_witness :
  exists x,
    data_at [mkBuffer [255; 255; 255; 255; 255; 255; 255; 255] true 1]
            (IntegerArray_new_nobits UInt64Type 1 0%nat 0) 0 = Return x
    /\ in_type UInt64Type x
    /\ -1 = (if 2 ^ 63 <=? x then x - 2 ^ 64 else x)
    /\ (UInt64Type <> UInt64Type -> -1 = x).
Proof.
  apply (GetItem_value [mkBuffer [255; 255; 255; 255; 255; 255; 255; 255] true 1]
           (IntegerArray_new_nobits UInt64Type 1 0%nat 0) 0 (-1)).
  vm_compute. reflexivity.
Defined.

(** ** Division, in general *)

Section DivisionInGeneral.
Context {TYPE OTHER_TYPE : IntegerType}.
Variable float_quotient : FloatingType → Z → Z → list Z.

(** X13: when the two arrays have at least one element in common and a
    quotient takes [sizeof] bytes, [a / other] does not return: its loop
    stores past the end of the result buffer. *)
Theorem operator_divide_never_returns (h : store) (a : IntegerArray TYPE)
    (other : IntegerArray OTHER_TYPE) :
  (forall t x y, length (float_quotient t x y) = Z.to_nat (float_sizeof t)) ->
  0 < Z.min (length_ (base a)) (length_ (base other)) ->
  forall r, operator_divide float_quotient h a other <> Return r.
Proof. intros Hq Hn. now apply operator_divide_overruns. Qed.

(** X14: when the shorter of the two arrays is empty and both data buffers
    are in the store, [a / other] returns an empty array at offset 0 over a
    fresh empty buffer, and the store is otherwise as before. *)
Theorem operator_divide_empty (h : store) (a : IntegerArray TYPE)
    (other : IntegerArray OTHER_TYPE) :
  let n := Z.min (length_ (base a)) (length_ (base other)) in
  n = 0 ->
  is_Some (h !! data_ (base a)) -> is_Some (h !! data_ (base other)) ->
  operator_divide float_quotient h a other
  = Return (FloatingArray_new IntegerDivideInteger n (length h) 0,
            h ++ [mkBuffer [] true 1%nat]).
Proof.
  intros n Hn [da Hda] [db Hdb]. unfold operator_divide.
  rewrite operator_divide_result_buffer. fold n. cbv zeta.
  replace (Z.to_nat n) with 0%nat by lia. cbn [replicate].
  unfold deref. rewrite (lookup_app_l_Some _ _ _ _ Hda).
  cbn [mbind outcome_bind]. rewrite (lookup_app_l_Some _ _ _ _ Hdb).
  cbn [mbind outcome_bind]. unfold mutable_data, deref.
  cbn [FloatingArray_new fbase data_].
  rewrite list_lookup_middle by reflexivity. reflexivity.
Qed.

End DivisionInGeneral.

Lemma operator_divide_never_returns_witness :
  ~ exists r,
      operator_divide Samples.zero_quotient Samples.numerator_store
        Samples.numerator Samples.denominator = Return r.
Proof.
  intros [r Hr]. revert Hr.
  apply (operator_divide_never_returns Samples.zero_quotient
           Samples.numerator_store Samples.numerator Samples.denominator).
  - intros t x y. unfold Samples.zero_quotient. apply length_replicate.
  - simpl. lia.
Defined.

Lemma operator_divide_empty_witness :
  operator_divide Samples.zero_quotient Samples.numerator_store
    (IntegerArray_new_nobits Int32Type 0 0%nat 0) Samples.denominator
  = Return (FloatingArray_new IntegerDivideInteger 0 2%nat 0,
            Samples.numerator_store ++ [mkBuffer [] true 1%nat]).
Proof.
  apply (operator_divide_empty Samples.zero_quotient Samples.numerator_store
           (IntegerArray_new_nobits Int32Type 0 0%nat 0) Samples.denominator).
  - simpl. lia.
  - vm_compute. eauto.
  - vm_compute. eauto.
Defined.

(** ** Subscripts of the Python class *)

Lemma wrap_negative_positive_length (n : Z) (fuel : nat) :
  0 < n ->
  forall i, (Z.to_nat (- i) <= fuel)%nat ->
    PyArray.wrap_negative fuel i n = Some (if i <? 0 then i mod n else i).
Proof.
  intros Hn. induction fuel as [| fuel IH]; intros i Hf.
  - cbn [PyArray.wrap_negative]. destruct (Z.ltb_spec i 0); [lia | reflexivity].
  - cbn [PyArray.wrap_negative]. destruct (Z.ltb_spec i 0) as [Hi | Hi]; [| reflexivity].
    rewrite IH by lia. f_equal.
    replace (i mod n) with ((i + n) mod n)
      by (rewrite <- (Z.mod_add i 1 n) by lia; f_equal; lia).
    destruct (Z.ltb_spec (i + n) 0) as [Hlt | Hge]; [reflexivity |].
    symmetry. apply Z.mod_small. lia.
Qed.

Lemma wrap_negative_nonnegative (n i : Z) (fuel : nat) :
  0 <= i -> PyArray.wrap_negative fuel i n = Some i.
Proof.
  intros Hi. destruct fuel; cbn [PyArray.wrap_negative];
    destruct (Z.ltb_spec i 0); (lia || reflexivity).
Qed.

Lemma wrap_negative_empty (i : Z) (fuel : nat) :
  i < 0 -> PyArray.wrap_negative fuel i 0 = None.
Proof.
  intros Hi. induction fuel as [| fuel IH]; cbn [PyArray.wrap_negative];
    destruct (Z.ltb_spec i 0); try lia; [reflexivity |].
  now rewrite Z.add_0_r.
Qed.

Lemma convert_Int64_small (i : Z) : 0 <= i < 2 ^ 63 -> convert Int64Type i = i.
Proof.
  intros Hi. apply convert_in_type. unfold in_type, numeric_limits_max.
  cbn [is_signed int_sizeof]. change (8 * 8 - 1) with 63. lia.
Qed.

Section Subscripts.
Variable AllocateValidityBitmap :
  store → Z → outcome (Status * option handle * store).
Context {TYPE : IntegerType}.
Implicit Type ap : IntegerArray TYPE.

(** X15: for an array of a length between 0 and 2^63 - 1, [ap[i]] with
    [0 <= i] takes no round of the loop: it is the result of [GetItem(i)]
    when [i] is below the length, and [IndexError] otherwise (for [i] that
    fits [size_t]). *)
Theorem getitem_bounds (fuel : nat) (h : store) ap (i : Z) :
  0 <= length_ (base ap) < 2 ^ 63 ->
  0 <= i < 2 ^ 64 ->
  PyArray.__getitem__ fuel h ap (PyArray.Index i)
  = Some (if i <? length_ (base ap)
          then match GetItem h ap i with
               | Return o => PyArray.Returned (PyArray.Item o)
               | Undefined f => PyArray.Crashed f
               end
          else PyArray.Raised (PyArray.IndexError i)).
Proof.
  intros Hn Hi. unfold PyArray.__getitem__, PyArray._getitem.
  rewrite wrap_negative_nonnegative by lia. cbn [mbind option_bind].
  destruct (Z.leb_spec (2 ^ 64) i) as [Hbig | _]; [lia |].
  rewrite Z.mod_small by lia.
  destruct (Z.ltb_spec i (length_ (base ap))) as [Hlt | Hge].
  - destruct (Z.geb_spec i (length_ (base ap))) as [Hc | _]; [lia |].
    now rewrite convert_Int64_small by lia.
  - destruct (Z.geb_spec i (length_ (base ap))) as [_ | Hc]; [reflexivity | lia].
Qed.

(** X16: on an array of a length [n] between 1 and 2^63 - 1, a negative
    subscript is wrapped modulo [n], however negative it is: with enough
    rounds of the loop, [ap[i]] is [ap[i mod n]], and never an
    [IndexError]. *)
Theorem getitem_negative_wraps (h : store) ap (i : Z) :
  0 < length_ (base ap) < 2 ^ 63 ->
  i < 0 ->
  exists rounds, forall fuel, (rounds <= fuel)%nat ->
    PyArray.__getitem__ fuel h ap (PyArray.Index i)
    = Some (match GetItem h ap (i mod length_ (base ap)) with
            | Return o => PyArray.Returned (PyArray.Item o)
            | Undefined f => PyArray.Crashed f
            end).
Proof.
  intros Hn Hi. exists (Z.to_nat (- i)). intros fuel Hf.
  pose proof (Z.mod_pos_bound i (length_ (base ap)) ltac:(lia)) as Hm.
  unfold PyArray.__getitem__, PyArray._getitem.
  rewrite wrap_negative_positive_length by lia.
  destruct (Z.ltb_spec i 0) as [_ | Hc]; [| lia]. cbn [mbind option_bind].
  destruct (Z.leb_spec (2 ^ 64) (i mod length_ (base ap))) as [Hbig | _]; [lia |].
  rewrite (Z.mod_small (length_ (base ap))) by lia.
  destruct (Z.geb_spec (i mod length_ (base ap)) (length_ (base ap))) as [Hc | _];
    [lia |].
  now rewrite convert_Int64_small by lia.
Qed.

(** X17: on an empty array a negative subscript never gets out of the loop
    [while i < 0: i += length]: no number of rounds gives a result, for
    [__getitem__] and for [__setitem__]. *)
Theorem negative_subscript_of_empty_array (fuel : nat) (h : store) ap (i : Z)
    (val : PyObject) :
  length_ (base ap) = 0 ->
  i < 0 ->
  PyArray.__getitem__ fuel h ap (PyArray.Index i) = None
  /\ PyArray.__setitem__ AllocateValidityBitmap fuel h ap (PyArray.Index i) val = None.
Proof.
  intros Hn Hi. unfold PyArray.__getitem__, PyArray.__setitem__.
  rewrite Hn, wrap_negative_empty by exact Hi. split; reflexivity.
Qed.

(** X18: [ap[i] = val] does not look at the [Status] of [SetItem]: on an
    array whose data buffer is immutable, with [i] within the length, the
    assignment returns normally and the array and the store are as
    before. *)
Theorem setitem_swallows_Invalid (fuel : nat) (h : store) ap (d : Buffer) (i : Z)
    (val : PyObject) :
  h !! data_ (base ap) = Some d -> is_mutable d = false ->
  0 <= i < length_ (base ap) -> length_ (base ap) < 2 ^ 63 ->
  PyArray.__setitem__ AllocateValidityBitmap fuel h ap (PyArray.Index i) val
  = Some (PyArray.Returned (ap, h)).
Proof.
  intros Hd Hm Hi Hn. unfold PyArray.__setitem__, PyArray._setitem.
  rewrite wrap_negative_nonnegative by lia. cbn [mbind option_bind].
  destruct (Z.leb_spec (2 ^ 64) i) as [Hbig | _]; [lia |].
  rewrite Z.mod_small by lia.
  destruct (Z.geb_spec i (length_ (base ap))) as [Hc | _]; [lia |].
  rewrite convert_Int64_small by lia.
  now rewrite (SetItem_immutable_data AllocateValidityBitmap h ap d i val Hd Hm).
Qed.

End Subscripts.

Lemma getitem_bounds_witness :
  PyArray.__getitem__ 0 Samples.pair_store Samples.right (PyArray.Index 2)
  = Some (PyArray.Raised (PyArray.IndexError 2)).
Proof.
  apply (getitem_bounds 0 Samples.pair_store Samples.right 2).
  - simpl. lia.
  - lia.
Defined.

Lemma getitem_negative_wraps_witness :
  exists rounds, forall fuel, (rounds <= fuel)%nat ->
    PyArray.__getitem__ fuel Samples.pair_store Samples.right (PyArray.Index (-3))
    = Some (match GetItem Samples.pair_store Samples.right
                    (-3 mod length_ (base Samples.right)) with
            | Return o => PyArray.Returned (PyArray.Item o)
            | Undefined f => PyArray.Crashed f
            end).
Proof.
  apply (getitem_negative_wraps Samples.pair_store Samples.right (-3)).
  - simpl. lia.
  - lia.
Defined.

Lemma negative_subscript_of_empty_array_witness :
  PyArray.__getitem__ 5 Samples.numerator_store
    (IntegerArray_new_nobits Int32Type 0 0%nat 0) (PyArray.Index (-1)) = None
  /\ PyArray.__setitem__ Samples.zero_bitmap 5 Samples.numerator_store
       (IntegerArray_new_nobits Int32Type 0 0%nat 0) (PyArray.Index (-1))
       (PyLong 1) = None.
Proof.
  apply (negative_subscript_of_empty_array Samples.zero_bitmap 5
           Samples.numerator_store
           (IntegerArray_new_nobits Int32Type 0 0%nat 0) (-1) (PyLong 1)).
  - reflexivity.
  - lia.
Defined.

Lemma setitem_swallows_Invalid_witness :
  PyArray.__setitem__ Samples.zero_bitmap 0 Samples.foreign_store Samples.shared
    (PyArray.Index 0) (PyLong 9)
  = Some (PyArray.Returned (Samples.shared, Samples.foreign_store)).
Proof.
  apply (setitem_swallows_Invalid Samples.zero_bitmap 0 Samples.foreign_store
           Samples.shared (mkBuffer [5] false 1) 0 (PyLong 9));
    try reflexivity; simpl; lia.
Defined.

(** ** Where the in-place addition writes *)

Lemma preserved_except_of_preserved (W : nat → Prop) (h h' : store) :
  preserved h h' -> preserved_except W h h'.
Proof. intros H p b Hb _. now apply H. Qed.

Lemma preserved_except_trans (W : nat → Prop) (h1 h2 h3 : store) :
  preserved_except W h1 h2 -> preserved_except W h2 h3 -> preserved_except W h1 h3.
Proof.
  intros H12 H23 p b Hb Hw.
  destruct (H12 p b Hb Hw) as (b2 & Hb2 & Hy & Hm).
  destruct (H23 p b2 Hb2 Hw) as (b3 & Hb3 & Hy3 & Hm3).
  exists b3. split; [exact Hb3 |]. split; congruence.
Qed.

Lemma preserved_except_same (W : nat → Prop) (h h' : store) :
  (forall p, ~ W p -> h' !! p = h !! p) -> preserved_except W h h'.
Proof. intros H p b Hb Hw. exists b. rewrite H by exact Hw. auto. Qed.

Lemma mutable_data_set_frame {TYPE} (h h' : store) (a : NumericArray TYPE)
    (i : Z) (v : list Z) :
  mutable_data_set h a i v = Return h' ->
  forall p, p <> data_ a -> h' !! p = h !! p.
Proof.
  unfold mutable_data_set.
  destruct (mutable_data h a) as [b |]; cbn [mbind outcome_bind]; [| discriminate].
  destruct (write_bytes _ _ _) as [bs |]; cbn [mbind outcome_bind mret outcome_ret];
    [| discriminate].
  intros [= <-] p Hne. now apply list_lookup_insert_ne.
Qed.

Lemma SetNull_frame {TYPE} (h h' : store) (a : IntegerArray TYPE) (i : Z) :
  SetNull h a i = Return h' ->
  forall p, valid_bits_ a <> Some p -> h' !! p = h !! p.
Proof.
  unfold SetNull, mutable_bits.
  destruct (valid_bits_ a) as [vb |]; [| discriminate].
  destruct (deref h vb) as [b |]; cbn [mbind outcome_bind]; [| discriminate].
  destruct (is_mutable b); cbn [mbind outcome_bind mret outcome_ret]; [| discriminate].
  destruct (BitUtil.SetBit _ _); cbn [mbind outcome_bind mret outcome_ret];
    [| discriminate].
  intros [= <-] p Hne. apply list_lookup_insert_ne. congruence.
Qed.

Lemma SetValid_frame {TYPE} (h h' : store) (a : IntegerArray TYPE) (i : Z) :
  SetValid h a i = Return h' ->
  forall p, valid_bits_ a <> Some p -> h' !! p = h !! p.
Proof.
  unfold SetValid, mutable_bits.
  destruct (valid_bits_ a) as [vb |]; [| discriminate].
  destruct (deref h vb) as [b |]; cbn [mbind outcome_bind]; [| discriminate].
  destruct (is_mutable b); cbn [mbind outcome_bind mret outcome_ret]; [| discriminate].
  destruct (BitUtil.ClearBit _ _); cbn [mbind outcome_bind mret outcome_ret];
    [| discriminate].
  intros [= <-] p Hne. apply list_lookup_insert_ne. congruence.
Qed.

Lemma merge_nulls_loop_frame {TYPE OTHER_TYPE} (a : IntegerArray TYPE)
    (other : IntegerArray OTHER_TYPE) (n : nat) :
  forall (h h' : store) (ii : Z),
    merge_nulls_loop h a other n ii = Return h' ->
    forall p, valid_bits_ a <> Some p -> h' !! p = h !! p.
Proof.
  induction n as [| n IH]; intros h h' ii; cbn [merge_nulls_loop].
  - intros [= <-]. reflexivity.
  - destruct (IsNull h a ii) as [x |]; cbn [mbind outcome_bind]; [| discriminate].
    destruct (if x then _ else _) as [y |]; cbn [mbind outcome_bind]; [| discriminate].
    destruct (if y then _ else _) as [h1 |] eqn:E; cbn [mbind outcome_bind];
      [| discriminate].
    intros Hl p Hp. rewrite (IH _ _ _ Hl p Hp).
    destruct y; [eapply SetNull_frame | eapply SetValid_frame]; eauto.
Qed.

Lemma add_loop_frame {TYPE OTHER_TYPE} (check : bool) (a : IntegerArray TYPE)
    (other : IntegerArray OTHER_TYPE) (n : nat) :
  forall (h h' : store) (ii : Z),
    add_loop check h a other n ii = Return h' ->
    forall p, p <> data_ (base a) -> h' !! p = h !! p.
Proof.
  induction n as [| n IH]; intros h h' ii; cbn [add_loop].
  - intros [= <-]. reflexivity.
  - destruct (if check then _ else _) as [skip |]; cbn [mbind outcome_bind];
      [| discriminate].
    destruct (if skip then _ else _) as [h1 |] eqn:E; cbn [mbind outcome_bind];
      [| discriminate].
    intros Hl p Hp. rewrite (IH _ _ _ Hl p Hp).
    destruct skip.
    + now injection E as <-.
    + destruct (data_at h a ii); cbn [mbind outcome_bind] in E; [| discriminate].
      destruct (data_at h other ii); cbn [mbind outcome_bind] in E; [| discriminate].
      eapply mutable_data_set_frame; eauto.
Qed.

(** What [a += other] does to the store, whenever it returns. *)
Lemma operator_plus_assign_inv {TYPE OTHER_TYPE} (h h' : store)
    (a a' : IntegerArray TYPE) (other : IntegerArray OTHER_TYPE) :
  operator_plus_assign h a other = Return (a', h') ->
  exists st h1,
    EnsureMutable h a = Return (st, a', h1)
    /\ preserved_except (buffers_of a') h1 h'.
Proof.
  unfold operator_plus_assign.
  destruct (EnsureMutable h a) as [[[st a1] h1] |] eqn:He;
    cbn [mbind outcome_bind]; [| discriminate].
  destruct (HasNulls h1 a1) as [mine |]; cbn [mbind outcome_bind]; [| discriminate].
  destruct (if mine then _ else _) as [h2 |] eqn:E2; cbn [mbind outcome_bind];
    [| discriminate].
  destruct (mutable_data h2 (base a1)); cbn [mbind outcome_bind]; [| discriminate].
  destruct (deref h2 _); cbn [mbind outcome_bind]; [| discriminate].
  destruct (HasNulls h2 a1) as [check |]; cbn [mbind outcome_bind]; [| discriminate].
  destruct (add_loop check h2 a1 other _ 0) as [h3 |] eqn:E3;
    cbn [mbind outcome_bind mret outcome_ret]; [| discriminate].
  intros [= <- <-]. exists st, h1. split; [reflexivity |].
  apply (preserved_except_trans _ h1 h2 h3).
  - destruct (HasNulls h1 other) as [theirs |]; cbn [mbind outcome_bind] in E2;
      [| destruct mine; discriminate].
    destruct mine, theirs; cbn [mbind outcome_bind mret outcome_ret] in E2.
    + apply preserved_except_same. intros p Hp.
      eapply merge_nulls_loop_frame; [exact E2 |].
      intros Hv. apply Hp. now right.
    + injection E2 as <-. apply preserved_except_of_preserved, preserved_refl.
    + unfold CopyNulls, CopyBitmap in E2.
      destruct (deref_ptr h1 _); cbn [mbind outcome_bind] in E2; [| discriminate].
      destruct (_ && _) in E2; cbn [mbind outcome_bind mret outcome_ret allocate] in E2;
        [| discriminate].
      injection E2 as <-. apply preserved_except_of_preserved.
      eapply preserved_trans; [apply preserved_app | apply preserved_drop_owner].
    + injection E2 as <-. apply preserved_except_of_preserved, preserved_refl.
  - apply preserved_except_same. intros p Hp.
    eapply add_loop_frame; [exact E3 |].
    intros ->. apply Hp. now left.
Qed.

(** X19: whenever [a += other] returns, every buffer of the store other than
    the data buffer and the bitmap of the resulting array is still there with
    the bytes and the mutability it had; in particular the buffers of
    [other] that the result does not share are as before.  This is for
    lengths that the [int] counters reach and element types whose sums are
    all defined. *)
Theorem operator_plus_assign_writes_own_buffers {TYPE OTHER_TYPE} (h h' : store)
    (a a' : IntegerArray TYPE) (other : IntegerArray OTHER_TYPE) :
  int_counts (length_ (base a)) -> int_counts (length_ (base other)) ->
  (forall x y, in_type TYPE x -> in_type OTHER_TYPE y ->
     sum_defined TYPE OTHER_TYPE x y) ->
  operator_plus_assign h a other = Return (a', h') ->
  preserved_except (buffers_of a') h h'.
Proof.
  intros _ _ _ H. destruct (operator_plus_assign_inv _ _ _ _ _ H) as (st & h1 & He & Hp).
  destruct (EnsureMutable_inv _ _ _ _ _ He) as (_ & _ & Hpres & _).
  eapply preserved_except_trans; [| exact Hp].
  now apply preserved_except_of_preserved.
Qed.

Lemma operator_plus_assign_writes_own_buffers_witness :
  preserved_except (buffers_of Samples.left) Samples.pair_store
    [mkBuffer [11; 22] true 1; mkBuffer [10; 20] true 1;
     mkBuffer [1] true 1; mkBuffer [1] true 0].
Proof.
  apply (operator_plus_assign_writes_own_buffers Samples.pair_store _
           Samples.left Samples.left Samples.right).
  - unfold int_counts. simpl. lia.
  - unfold int_counts. simpl. lia.
  - intros x y Hx Hy _. unfold in_type, numeric_limits_max in Hx, Hy.
    simpl in Hx, Hy. change (common_width Int8Type Int8Type) with 32. lia.
  - vm_compute. reflexivity.
Defined.

(** X20: [a + other] changes no buffer: when the data buffer of [a] is in
    the store with at least one owner and the sum returns, every buffer of
    the store keeps its bytes and its mutability, and the result lives in
    buffers the store did not have.  This is for lengths that the [int]
    counters reach and element types whose sums are all defined. *)
Theorem operator_plus_changes_no_buffer {TYPE OTHER_TYPE} (h h' : store)
    (a r : IntegerArray TYPE) (other : IntegerArray OTHER_TYPE) (d : Buffer) :
  int_counts (length_ (base a)) -> int_counts (length_ (base other)) ->
  (forall x y, in_type TYPE x -> in_type OTHER_TYPE y ->
     sum_defined TYPE OTHER_TYPE x y) ->
  h !! data_ (base a) = Some d -> use_count d <> 0%nat ->
  operator_plus h a other = Return (r, h') ->
  preserved h h'
  /\ h !! data_ (base r) = None
  /\ (forall vb, valid_bits_ r = Some vb -> h !! vb = None).
Proof.
  intros _ _ _ Hd Hc. unfold operator_plus, IntegerArray_copy.
  set (h0 := match valid_bits_ a with
             | Some vb => add_owner (add_owner h (data_ (base a))) vb
             | None => add_owner h (data_ (base a))
             end).
  intros Hop.
  assert (Hl0 : length h0 = length h).
  { unfold h0. destruct (valid_bits_ a); now rewrite ?length_add_owner. }
  assert (Hp0 : preserved h h0).
  { unfold h0. destruct (valid_bits_ a).
    - eapply preserved_trans; apply preserved_add_owner.
    - apply preserved_add_owner. }
  assert (Hd0 : exists d0, h0 !! data_ (base a) = Some d0 /\ use_count d0 <> 1%nat).
  { pose proof (add_owner_lookup_eq _ _ _ Hd) as H1. unfold h0.
    destruct (valid_bits_ a) as [vb |]; [| exists (acquire d); simpl; split; [auto | lia]].
    destruct (decide (vb = data_ (base a))) as [-> | Hne].
    - exists (acquire (acquire d)).
      rewrite (add_owner_lookup_eq _ _ _ H1). simpl. split; [auto | lia].
    - exists (acquire d). rewrite add_owner_lookup_ne by exact Hne.
      simpl. split; [auto | lia]. }
  destruct Hd0 as (d0 & Hd0 & Hc0).
  destruct (operator_plus_assign_inv _ _ _ _ _ Hop) as (st & h1 & He & Hp).
  destruct (EnsureMutable_inv _ _ _ _ _ He)
    as (_ & _ & Hpres & _ & d0' & Hd0' & _ & Hsh).
  assert (d0' = d0) by congruence. subst d0'.
  destruct (Hsh Hc0) as (_ & Hdata & _ & Hbits & _).
  split; [| split].
  - intros p b Hb.
    destruct (Hp0 p b Hb) as (b0 & Hb0 & Hy0 & Hm0).
    destruct (Hpres p b0 Hb0) as (b1 & Hb1 & Hy1 & Hm1).
    destruct (Hp p b1 Hb1) as (b2 & Hb2 & Hy2 & Hm2).
    + apply lookup_lt_Some in Hb. intros [-> | Hv].
      * lia.
      * apply Hbits in Hv. lia.
    + exists b2. split; [exact Hb2 |]. split; congruence.
  - apply lookup_ge_None. lia.
  - intros vb Hv. apply Hbits in Hv. apply lookup_ge_None. lia.
Qed.

Lemma operator_plus_changes_no_buffer_witness :
  preserved Samples.pair_store
    [mkBuffer [1; 2] true 1; mkBuffer [10; 20] true 1; mkBuffer [1] true 1;
     mkBuffer [11; 22] true 1; mkBuffer [1] true 0].
Proof.
  apply (operator_plus_changes_no_buffer Samples.pair_store _ Samples.left
           (IntegerArray_new_nobits Int8Type 2 3%nat 0) Samples.right
           (mkBuffer [1; 2] true 1)).
  - unfold int_counts. simpl. lia.
  - unfold int_counts. simpl. lia.
  - intros x y Hx Hy _. unfold in_type, numeric_limits_max in Hx, Hy.
    simpl in Hx, Hy. change (common_width Int8Type Int8Type) with 32. lia.
  - reflexivity.
  - simpl. lia.
  - vm_compute. reflexivity.
Defined.

(** ** Floating-point operators *)

(** No overload of [IsNull(other, i)] that looks at the operand is compiled:
    the result is [false] for an integer operand as for a floating one. *)
Lemma Floating_IsNull_false (h : store) (other : operand) (i : Z) :
  Floating.IsNull h other i = Return false.
Proof. destruct other; reflexivity. Qed.

(** An element of the right operand is read from its data buffer. *)
Lemma operand_at_frame (h h' : store) (other : operand) (i : Z) :
  h' !! operand_data other = h !! operand_data other ->
  operand_at h' other i = operand_at h other i.
Proof.
  intros Hsame. destruct other as [T o | T o]; cbn [operand_data] in Hsame.
  - unfold operand_at, data_at, data_bytes, deref. now rewrite Hsame.
  - unfold operand_at, data_bytes, deref. now rewrite Hsame.
Qed.

Section FloatingOperators.
Context {TYPE : FloatingType}.
Variable quiet_NaN : FloatingType → list Z.
Variable operation : OPERATOR → FloatingType → list Z → scalar → list Z.
Hypothesis operation_size :
  forall op t l r, length (operation op t l r) = Z.to_nat (float_sizeof t).

Variable a : FloatingArray TYPE.
Variable other : operand.
Hypothesis apart : operand_data other <> data_ (fbase a).
Hypothesis offset_nonneg : 0 <= offset_ (fbase a).

Local Abbreviation sz := (float_sizeof TYPE).
Local Abbreviation off := (offset_ (fbase a)).

(** The loop of [EvaluateBinaryOperator] from [ii] over [n] elements that
    lie in the data buffer, where the right operand can be read: every
    element becomes the result of the operation. *)
Lemma EvaluateBinaryOperator_loop_spec (op : OPERATOR) (n : nat) :
  forall (ii : Z) (h : store) (d : Buffer),
    h !! data_ (fbase a) = Some d -> is_mutable d = true ->
    0 <= ii ->
    (off + ii + Z.of_nat n) * sz <= Z.of_nat (length (bytes d)) ->
    (forall j, ii <= j < ii + Z.of_nat n ->
       exists v, operand_at h other j = Return v) ->
    exists bs',
      Floating.EvaluateBinaryOperator_loop quiet_NaN operation op h a other n ii
      = Return (<[data_ (fbase a) := set_bytes d bs']> h)
      /\ length bs' = length (bytes d)
      /\ (forall q l,
            q + l <= (off + ii) * sz \/ (off + ii + Z.of_nat n) * sz <= q ->
            read_bytes bs' q l = read_bytes (bytes d) q l)
      /\ (forall j, ii <= j < ii + Z.of_nat n ->
            exists l v,
              read_bytes (bytes d) ((off + j) * sz) sz = Return l
              /\ operand_at h other j = Return v
              /\ read_bytes bs' ((off + j) * sz) sz
                 = Return (operation op TYPE l v)).
Proof.
  pose proof (float_sizeof_bounds TYPE) as Hsz.
  induction n as [| m IH]; intros ii h d Hd Hm Hii Hin Hread.
  - exists (bytes d). cbn [Floating.EvaluateBinaryOperator_loop].
    rewrite set_bytes_same. rewrite list_insert_id by exact Hd.
    split; [reflexivity |]. split; [reflexivity |].
    split; [reflexivity | intros; lia].
  - destruct (Hread ii ltac:(lia)) as (v & Hv).
    pose proof (read_bytes_Return (bytes d) ((off + ii) * sz) sz
                  ltac:(nia) ltac:(lia) ltac:(nia)) as Hl.
    set (l := take _ _) in Hl.
    set (new := operation op TYPE l v).
    assert (Hnew : Z.of_nat (length new) = sz).
    { unfold new. rewrite operation_size. lia. }
    destruct (write_bytes_Return (bytes d) new ((off + ii) * sz)) as (bs1 & Hw);
      [nia | rewrite Hnew; nia |].
    pose proof (write_bytes_inv _ _ _ _ Hw) as (_ & _ & Hl1).
    pose proof (lookup_lt_Some _ _ _ Hd) as Hdl.
    set (h1 := <[data_ (fbase a) := set_bytes d bs1]> h).
    assert (Hframe1 : forall j, operand_at h1 other j = operand_at h other j).
    { intros j. apply operand_at_frame. unfold h1.
      apply list_lookup_insert_ne. congruence. }
    destruct (IH (ii + 1) h1 (set_bytes d bs1)) as (bs' & Hloop & Hlen & Hframe & Hupd).
    { now apply list_lookup_insert_eq. }
    { exact Hm. }
    { lia. }
    { cbn [bytes set_bytes]. rewrite Hl1. lia. }
    { intros j Hj. rewrite Hframe1. apply Hread. lia. }
    cbn [bytes set_bytes] in Hlen, Hframe, Hupd.
    exists bs'. split; [| split; [| split]].
    + cbn [Floating.EvaluateBinaryOperator_loop].
      rewrite Floating_IsNull_false. cbn [mbind outcome_bind].
      unfold data_bytes at 1, deref. rewrite Hd. cbn [mbind outcome_bind sizeof].
      rewrite Hl. cbn [mbind outcome_bind]. rewrite Hv. cbn [mbind outcome_bind].
      assert (Hset : mutable_data_set h (fbase a) ii new = Return h1).
      { unfold mutable_data_set, mutable_data, deref. rewrite Hd.
        cbn [mbind outcome_bind]. rewrite Hm. cbn [mbind outcome_bind mret outcome_ret].
        cbn [sizeof]. rewrite Hw. reflexivity. }
      fold new. rewrite Hset. cbn [mbind outcome_bind]. rewrite Hloop.
      unfold h1. now rewrite list_insert_insert_eq.
    + lia.
    + intros q l0 Hout. rewrite Hframe by lia.
      apply (read_write_disjoint _ _ _ _ _ _ Hw). rewrite Hnew. lia.
    + intros j Hj. destruct (Z.eq_dec j ii) as [-> | Hne].
      * exists l, v. split; [exact Hl |]. split; [exact Hv |].
        rewrite Hframe by lia.
        pose proof (read_write_same _ _ _ _ Hw) as Hsame.
        rewrite Hnew in Hsame. exact Hsame.
      * destruct (Hupd j ltac:(lia)) as (l' & v' & Hl' & Hv' & Hr).
        exists l', v'. rewrite <- Hframe1.
        split; [| split; [exact Hv' | exact Hr]].
        rewrite <- Hl'. symmetry.
        apply (read_write_disjoint _ _ _ _ _ _ Hw). rewrite Hnew. nia.
Qed.

(** X21: [a op= other] for a floating array [a] that is the one owner of a
    mutable data buffer it lies in, and a right operand, integer or floating,
    whose data is in another buffer and can be read on the common length
    [n]: the operator returns with [a] bound as before; every element [i]
    below [n] becomes the result of the operation on the old element and
    the element of [other], also where [other] is an integer array that is
    null at [i]: the bitmap of [other] is not looked at and no NaN is
    stored; the elements from [n] on are unchanged, and so is every other
    buffer.  This is for an [n] that the [int] counter of the loop
    reaches. *)
Theorem EvaluateBinaryOperator_elements (op : OPERATOR) (h : store) (d : Buffer) :
  let n := Z.min (length_ (fbase a)) (operand_length other) in
  h !! data_ (fbase a) = Some d -> use_count d = 1%nat -> is_mutable d = true ->
  is_Some (h !! operand_data other) ->
  0 <= n -> int_counts n ->
  (off + length_ (fbase a)) * sz <= Z.of_nat (length (bytes d)) ->
  (forall j, 0 <= j < n -> exists v, operand_at h other j = Return v) ->
  exists h',
    Floating.EvaluateBinaryOperator quiet_NaN operation op h a other = Return (a, h')
    /\ (forall i, 0 <= i < n ->
          exists l v,
            data_bytes h (fbase a) i = Return l
            /\ operand_at h other i = Return v
            /\ data_bytes h' (fbase a) i = Return (operation op TYPE l v))
    /\ (forall i, n <= i -> data_bytes h' (fbase a) i = data_bytes h (fbase a) i)
    /\ (forall p, p <> data_ (fbase a) -> h' !! p = h !! p).
Proof.
  intros n Hd Hc Hm [o Ho] Hn _ Hin Hread.
  pose proof (float_sizeof_bounds TYPE) as Hsz.
  pose proof (lookup_lt_Some _ _ _ Hd) as Hdl.
  assert (Hnn : Z.of_nat (Z.to_nat n) = n) by lia.
  destruct (EvaluateBinaryOperator_loop_spec op (Z.to_nat n) 0 h d Hd Hm)
    as (bs' & Hloop & Hlen & Hframe & Hupd); try lia.
  { rewrite Hnn. unfold n in *. nia. }
  { intros j Hj. apply Hread. lia. }
  rewrite Hnn in Hframe, Hupd. rewrite Z.add_0_r in Hframe.
  exists (<[data_ (fbase a) := set_bytes d bs']> h).
  assert (Hd' : <[data_ (fbase a) := set_bytes d bs']> h !! data_ (fbase a)
                = Some (set_bytes d bs')) by now apply list_lookup_insert_eq.
  split; [| split; [| split]].
  - unfold Floating.EvaluateBinaryOperator.
    rewrite (EnsureMutableAndCheckChange_unique _ _ _ Hd Hc).
    cbn [mbind outcome_bind]. unfold mutable_data, deref. rewrite Hd.
    cbn [mbind outcome_bind]. rewrite Hm. cbn [mbind outcome_bind mret outcome_ret].
    rewrite Ho. cbn [mbind outcome_bind]. fold n.
    replace (mkFloatingArray (fbase a)) with a by now destruct a.
    rewrite Hloop. reflexivity.
  - intros i Hi. destruct (Hupd i ltac:(lia)) as (l & v & Hl & Hv & Hr).
    exists l, v.
    unfold data_bytes, deref. rewrite Hd, Hd'. cbn [mbind outcome_bind sizeof bytes set_bytes].
    auto.
  - intros i Hi. unfold data_bytes, deref. rewrite Hd, Hd'.
    cbn [mbind outcome_bind sizeof bytes set_bytes].
    apply Hframe. right. nia.
  - intros p Hp. now apply list_lookup_insert_ne.
Qed.

End FloatingOperators.

Lemma EvaluateBinaryOperator_elements_witness :
  IsNull Fixtures.real_store Fixtures.marks 0 = Return true
  /\ exists h',
       Floating.EvaluateBinaryOperator Fixtures.all_ones Fixtures.all_zeros
         plus_equals Fixtures.real_store Fixtures.reals
         (IntegerOperand Fixtures.marks)
       = Return (Fixtures.reals, h')
       /\ data_bytes h' (fbase Fixtures.reals) 0 = Return [0; 0; 0; 0]
       /\ data_bytes h' (fbase Fixtures.reals) 1 = Return [0; 0; 0; 0].
Proof.
  split; [reflexivity |].
  destruct (EvaluateBinaryOperator_elements Fixtures.all_ones Fixtures.all_zeros
              (fun op t l r => length_replicate _ _)
              Fixtures.reals (IntegerOperand Fixtures.marks)) with
    (op := plus_equals) (h := Fixtures.real_store)
    (d := mkBuffer [1; 1; 1; 1; 2; 2; 2; 2] true 1)
    as (h' & Hop & Helem & _).
  - simpl. discriminate.
  - simpl. lia.
  - reflexivity.
  - reflexivity.
  - reflexivity.
  - vm_compute. eauto.
  - simpl. lia.
  - unfold int_counts. simpl. lia.
  - simpl. lia.
  - intros j Hj. simpl in Hj.
    assert (Hcase : j = 0 \/ j = 1) by lia.
    destruct Hcase as [-> | ->]; vm_compute; eauto.
  - exists h'. split; [exact Hop |]. split.
    + destruct (Helem 0 ltac:(simpl; lia)) as (l & v & _ & _ & Hr). exact Hr.
    + destruct (Helem 1 ltac:(simpl; lia)) as (l & v & _ & _ & Hr). exact Hr.
Defined.

(** ** In-place addition with nulls *)

Lemma GetBit_Return (bits : list Z) (q : Z) :
  0 <= q < 8 * Z.of_nat (length bits) ->
  exists b, BitUtil.GetBit bits q = Return b.
Proof.
  intros Hq. unfold BitUtil.GetBit, BitUtil.byte_at.
  destruct (Z.leb_spec 0 q); [| lia].
  assert (Hlt : (Z.to_nat (q / 8) < length bits)%nat).
  { pose proof (Z.div_lt_upper_bound q 8 (Z.of_nat (length bits))).
    pose proof (Z.div_pos q 8). lia. }
  apply lookup_lt_is_Some_2 in Hlt as [b Hb]. rewrite Hb.
  cbn [mbind outcome_bind mret outcome_ret]. eauto.
Qed.

Lemma null_at_Return {TYPE} (h : store) (a : IntegerArray TYPE) (j : Z) (b : bool) :
  IsNull h a j = Return b -> null_at h a j = b.
Proof. intros H. unfold null_at. now rewrite H. Qed.

Lemma value_at_Return {TYPE} (h : store) (a : IntegerArray TYPE) (j x : Z) :
  data_at h a j = Return x -> value_at h a j = x.
Proof. intros H. unfold value_at. now rewrite H. Qed.

(** [IsNull] reads the bitmap only, [data_at] the data buffer only. *)
Lemma IsNull_frame {TYPE} (h h' : store) (a : IntegerArray TYPE) (j : Z) :
  (forall p, valid_bits_ a = Some p -> h' !! p = h !! p) ->
  IsNull h' a j = IsNull h a j.
Proof.
  intros H. unfold IsNull, deref. destruct (valid_bits_ a) as [vb |]; [| reflexivity].
  now rewrite (H vb).
Qed.

Lemma data_at_frame {TYPE} (h h' : store) (a : IntegerArray TYPE) (j : Z) :
  h' !! data_ (base a) = h !! data_ (base a) ->
  data_at h' a j = data_at h a j.
Proof. intros H. unfold data_at, data_bytes, deref. now rewrite H. Qed.

(** The scan of [HasNulls], where every bit it may look at can be read. *)
Lemma HasNulls_loop_scan {TYPE} (h : store) (a : IntegerArray TYPE) (n : nat) :
  forall ii,
    (forall j, ii <= j < ii + Z.of_nat n -> exists b, IsNull h a j = Return b) ->
    exists r,
      HasNulls_loop h a n ii = Return r
      /\ (r = true <-> exists j, ii <= j < ii + Z.of_nat n /\ null_at h a j = true).
Proof.
  induction n as [| n IH]; intros ii Hread.
  - exists false. split; [reflexivity |].
    split; [discriminate | intros (j & Hj & _); lia].
  - destruct (Hread ii ltac:(lia)) as (b & Hb).
    cbn [HasNulls_loop]. rewrite Hb. cbn [mbind outcome_bind].
    destruct b.
    + exists true. split; [reflexivity |]. split; [| reflexivity].
      intros _. exists ii. split; [lia |]. now apply null_at_Return.
    + destruct (IH (ii + 1)) as (r & Hr & Hiff); [intros j Hj; apply Hread; lia |].
      exists r. split; [exact Hr |]. rewrite Hiff. split.
      * intros (j & Hj & Hn). exists j. split; [lia | exact Hn].
      * intros (j & Hj & Hn). exists j. split; [| exact Hn].
        destruct (Z.eq_dec j ii) as [-> | Hne]; [| lia].
        rewrite (null_at_Return _ _ _ _ Hb) in Hn. discriminate.
Qed.

Lemma HasNulls_scan {TYPE} (h : store) (a : IntegerArray TYPE) :
  (forall j, 0 <= j < length_ (base a) -> exists b, IsNull h a j = Return b) ->
  exists r,
    HasNulls h a = Return r
    /\ (r = true <-> exists j, 0 <= j < length_ (base a) /\ null_at h a j = true).
Proof.
  intros Hread. unfold HasNulls.
  destruct (HasNulls_loop_scan h a (Z.to_nat (length_ (base a))) 0) as (r & Hr & Hiff).
  { intros j Hj. apply Hread. lia. }
  exists r. split; [exact Hr |]. rewrite Hiff.
  split; intros (j & Hj & Hn); exists j; (split; [lia | exact Hn]).
Qed.

(** A scan that found nothing: no position is null. *)
Lemma HasNulls_loop_false {TYPE} (h : store) (a : IntegerArray TYPE) (n : nat) :
  forall ii,
    HasNulls_loop h a n ii = Return false ->
    forall j, ii <= j < ii + Z.of_nat n -> IsNull h a j = Return false.
Proof.
  induction n as [| n IH]; intros ii; cbn [HasNulls_loop]; [intros _ j Hj; lia |].
  destruct (IsNull h a ii) as [b |] eqn:Hb; cbn [mbind outcome_bind]; [| discriminate].
  destruct b; [discriminate |].
  intros Hl j Hj. destruct (Z.eq_dec j ii) as [-> | Hne]; [exact Hb |].
  apply (IH _ Hl). lia.
Qed.

Lemma HasNulls_false {TYPE} (h : store) (a : IntegerArray TYPE) (j : Z) :
  HasNulls h a = Return false -> 0 <= j < length_ (base a) ->
  IsNull h a j = Return false.
Proof.
  intros H Hj. apply (HasNulls_loop_false h a _ 0 H). lia.
Qed.

Section PlusAssignNulls.
Context {TYPE OTHER_TYPE : IntegerType}.
Variable a : IntegerArray TYPE.
Variable other : IntegerArray OTHER_TYPE.
Variable pa : handle.
Hypothesis bitmap_of_a : valid_bits_ a = Some pa.
Hypothesis bitmap_apart : pa <> data_ (base a).
Hypothesis other_apart_data : ~ buffers_of other (data_ (base a)).
Hypothesis other_apart_bits : ~ buffers_of other pa.
Hypothesis off_nonneg : 0 <= offset_ (base a).

Local Abbreviation sa := (int_sizeof TYPE).
Local Abbreviation off_a := (offset_ (base a)).

(** The [|=] loop: bit [off + j] of the bitmap of [a] becomes the
    disjunction of what it was and of the null of [other] at [j]; the other
    bits and the other buffers are kept. *)
Lemma merge_nulls_loop_spec (n : nat) :
  forall (ii : Z) (h : store) (va : Buffer),
    h !! pa = Some va -> is_mutable va = true ->
    0 <= ii ->
    off_a + ii + Z.of_nat n <= 8 * Z.of_nat (length (bytes va)) ->
    (forall j, ii <= j < ii + Z.of_nat n -> exists b, IsNull h other j = Return b) ->
    exists bits',
      merge_nulls_loop h a other n ii = Return (<[pa := set_bytes va bits']> h)
      /\ length bits' = length (bytes va)
      /\ (forall q, q < off_a + ii \/ off_a + ii + Z.of_nat n <= q ->
            BitUtil.GetBit bits' q = BitUtil.GetBit (bytes va) q)
      /\ (forall j, ii <= j < ii + Z.of_nat n ->
            BitUtil.GetBit bits' (off_a + j)
            = Return (null_at h a j || null_at h other j)).
Proof.
  induction n as [| m IH]; intros ii h va Hva Hm Hii Hin Hread.
  - exists (bytes va). cbn [merge_nulls_loop]. rewrite set_bytes_same.
    rewrite list_insert_id by exact Hva.
    split; [reflexivity |]. split; [reflexivity |].
    split; [reflexivity | intros; lia].
  - pose proof (lookup_lt_Some _ _ _ Hva) as Hpl.
    destruct (GetBit_Return (bytes va) (off_a + ii) ltac:(lia)) as (x & Hx).
    assert (Hnull : IsNull h a ii = Return x)
      by (rewrite (IsNull_with_bitmap h a pa va ii bitmap_of_a Hva); exact Hx).
    destruct (Hread ii ltac:(lia)) as (y0 & Hy0).
    set (y := x || y0).
    assert (Hstep : exists bits1,
              (if y then SetNull h a ii else SetValid h a ii)
              = Return (<[pa := set_bytes va bits1]> h)
              /\ length bits1 = length (bytes va)
              /\ BitUtil.GetBit bits1 (off_a + ii) = Return y
              /\ (forall q, q <> off_a + ii ->
                    BitUtil.GetBit bits1 q = BitUtil.GetBit (bytes va) q)).
    { destruct y.
      - destruct (SetBit_Return (bytes va) (off_a + ii) ltac:(lia)) as (b1 & Hs & Hl).
        exists b1. split; [| split; [exact Hl | split]].
        + unfold SetNull, mutable_bits, deref. rewrite bitmap_of_a, Hva.
          cbn [mbind outcome_bind]. rewrite Hm. cbn [mbind outcome_bind mret outcome_ret].
          rewrite Hs. reflexivity.
        + eapply GetBit_SetBit; eauto.
        + intros q Hq. eapply GetBit_SetBit_other; eauto.
      - destruct (ClearBit_Return (bytes va) (off_a + ii) ltac:(lia)) as (b1 & Hs & Hl).
        exists b1. split; [| split; [exact Hl | split]].
        + unfold SetValid, mutable_bits, deref. rewrite bitmap_of_a, Hva.
          cbn [mbind outcome_bind]. rewrite Hm. cbn [mbind outcome_bind mret outcome_ret].
          rewrite Hs. reflexivity.
        + eapply GetBit_ClearBit; eauto.
        + intros q Hq. eapply GetBit_ClearBit_other; eauto. }
    destruct Hstep as (bits1 & Hstep & Hl1 & Hbit1 & Hother1).
    set (h1 := <[pa := set_bytes va bits1]> h).
    assert (Hh1 : h1 !! pa = Some (set_bytes va bits1))
      by now apply list_lookup_insert_eq.
    assert (Hother_frame : forall j, IsNull h1 other j = IsNull h other j).
    { intros j. apply IsNull_frame. intros p Hp. unfold h1.
      apply list_lookup_insert_ne. intros <-. apply other_apart_bits. now right. }
    destruct (IH (ii + 1) h1 (set_bytes va bits1)) as (bits' & Hloop & Hlen & Hframe & Hupd).
    { exact Hh1. }
    { exact Hm. }
    { lia. }
    { cbn [bytes set_bytes]. rewrite Hl1. lia. }
    { intros j Hj. rewrite Hother_frame. apply Hread. lia. }
    cbn [bytes set_bytes] in Hlen, Hframe, Hupd.
    exists bits'. split; [| split; [| split]].
    + cbn [merge_nulls_loop]. rewrite Hnull. cbn [mbind outcome_bind].
      assert (Hy : (if x then mret true else IsNull h other ii) = Return y).
      { unfold y. destruct x; [reflexivity | exact Hy0]. }
      rewrite Hy. cbn [mbind outcome_bind]. rewrite Hstep. cbn [mbind outcome_bind].
      fold h1. rewrite Hloop. unfold h1. now rewrite list_insert_insert_eq.
    + lia.
    + intros q Hq. rewrite Hframe by lia. apply Hother1. lia.
    + intros j Hj. destruct (Z.eq_dec j ii) as [-> | Hne].
      * rewrite Hframe by lia. rewrite Hbit1. unfold y.
        now rewrite (null_at_Return _ _ _ _ Hnull), (null_at_Return _ _ _ _ Hy0).
      * rewrite (Hupd j ltac:(lia)). f_equal. f_equal.
        -- unfold null_at.
           rewrite (IsNull_with_bitmap h1 a pa _ j bitmap_of_a Hh1).
           rewrite (IsNull_with_bitmap h a pa va j bitmap_of_a Hva).
           cbn [bytes set_bytes]. rewrite Hother1 by lia. reflexivity.
        -- unfold null_at. now rewrite Hother_frame.
Qed.

End PlusAssignNulls.

Section PlusAssignChecked.
Context {TYPE OTHER_TYPE : IntegerType}.
Variable a : IntegerArray TYPE.
Variable other : IntegerArray OTHER_TYPE.
Variable pa : handle.
Hypothesis bitmap_of_a : valid_bits_ a = Some pa.
Hypothesis bitmap_apart : pa <> data_ (base a).
Hypothesis other_apart_data : ~ buffers_of other (data_ (base a)).
Hypothesis other_apart_bits : ~ buffers_of other pa.
Hypothesis off_nonneg : 0 <= offset_ (base a).

Local Abbreviation sa := (int_sizeof TYPE).
Local Abbreviation off_a := (offset_ (base a)).

(** The elementwise loop that skips the nulls of [a]. *)
Lemma add_loop_checked_spec (n : nat) :
  forall (ii : Z) (h : store) (d : Buffer),
    h !! data_ (base a) = Some d -> is_mutable d = true ->
    0 <= ii ->
    (off_a + ii + Z.of_nat n) * sa <= Z.of_nat (length (bytes d)) ->
    (forall j, ii <= j < ii + Z.of_nat n ->
       exists b y, IsNull h a j = Return b /\ data_at h other j = Return y) ->
    exists bs',
      add_loop true h a other n ii
      = Return (<[data_ (base a) := set_bytes d bs']> h)
      /\ length bs' = length (bytes d)
      /\ (forall q l,
            q + l <= (off_a + ii) * sa \/ (off_a + ii + Z.of_nat n) * sa <= q ->
            read_bytes bs' q l = read_bytes (bytes d) q l)
      /\ (forall j, ii <= j < ii + Z.of_nat n ->
            exists xb,
              read_bytes (bytes d) ((off_a + j) * sa) sa = Return xb
              /\ read_bytes bs' ((off_a + j) * sa) sa
                 = Return (if null_at h a j then xb
                           else to_bytes TYPE (of_bytes TYPE xb + value_at h other j))).
Proof.
  assert (Hsa : 0 < sa) by (destruct TYPE; simpl; lia).
  induction n as [| m IH]; intros ii h d Hd Hm Hii Hin Hread.
  - exists (bytes d). cbn [add_loop]. rewrite set_bytes_same.
    rewrite list_insert_id by exact Hd.
    split; [reflexivity |]. split; [reflexivity |].
    split; [reflexivity | intros; lia].
  - destruct (Hread ii ltac:(lia)) as (b & y & Hb & Hy).
    pose proof (read_bytes_Return (bytes d) ((off_a + ii) * sa) sa
                  ltac:(nia) ltac:(lia) ltac:(nia)) as Hx.
    set (xb := take _ _) in Hx.
    pose proof (lookup_lt_Some _ _ _ Hd) as Hdl.
    assert (Hstep : exists bs1,
              (if b then mret h
               else data_at h a ii ≫= λ x, data_at h other ii ≫= λ y0,
                    mutable_data_set h (base a) ii (to_bytes TYPE (x + y0)))
              = Return (<[data_ (base a) := set_bytes d bs1]> h)
              /\ length bs1 = length (bytes d)
              /\ read_bytes bs1 ((off_a + ii) * sa) sa
                 = Return (if b then xb else to_bytes TYPE (of_bytes TYPE xb + y))
              /\ (forall q l,
                    q + l <= (off_a + ii) * sa \/ (off_a + ii + 1) * sa <= q ->
                    read_bytes bs1 q l = read_bytes (bytes d) q l)).
    { destruct b.
      - exists (bytes d). rewrite set_bytes_same, list_insert_id by exact Hd.
        split; [reflexivity |]. split; [reflexivity |]. split; [exact Hx | reflexivity].
      - destruct (write_bytes_Return (bytes d)
                    (to_bytes TYPE (of_bytes TYPE xb + y)) ((off_a + ii) * sa))
          as (bs1 & Hw); [nia | rewrite length_to_bytes; nia |].
        pose proof (write_bytes_inv _ _ _ _ Hw) as (_ & _ & Hl1).
        exists bs1. split; [| split; [exact Hl1 | split]].
        + rewrite (data_at_lookup h a d ii Hd), Hx. cbn [mbind outcome_bind].
          rewrite Hy. cbn [mbind outcome_bind].
          unfold mutable_data_set, mutable_data, deref. rewrite Hd.
          cbn [mbind outcome_bind]. rewrite Hm. cbn [mbind outcome_bind mret outcome_ret sizeof].
          rewrite Hw. reflexivity.
        + apply (read_write_elem _ _ _ _ _ Hw).
        + intros q l Hq. apply (read_write_disjoint _ _ _ _ _ _ Hw).
          rewrite length_to_bytes. lia. }
    destruct Hstep as (bs1 & Hstep & Hl1 & Hnew & Hframe1).
    set (h1 := <[data_ (base a) := set_bytes d bs1]> h).
    assert (Hnull_frame : forall j, IsNull h1 a j = IsNull h a j).
    { intros j. apply IsNull_frame. intros p Hp. unfold h1.
      apply list_lookup_insert_ne. rewrite bitmap_of_a in Hp. congruence. }
    assert (Hother_frame : forall j, data_at h1 other j = data_at h other j).
    { intros j. apply data_at_frame. unfold h1. apply list_lookup_insert_ne.
      intros E. apply other_apart_data. left. now symmetry. }
    destruct (IH (ii + 1) h1 (set_bytes d bs1)) as (bs' & Hloop & Hlen & Hframe & Hupd).
    { now apply list_lookup_insert_eq. }
    { exact Hm. }
    { lia. }
    { cbn [bytes set_bytes]. rewrite Hl1. lia. }
    { intros j Hj. rewrite Hnull_frame, Hother_frame. apply Hread. lia. }
    cbn [bytes set_bytes] in Hlen, Hframe, Hupd.
    exists bs'. split; [| split; [| split]].
    + cbn [add_loop]. rewrite Hb. cbn [mbind outcome_bind].
      rewrite Hstep. cbn [mbind outcome_bind]. fold h1. rewrite Hloop.
      unfold h1. now rewrite list_insert_insert_eq.
    + lia.
    + intros q l Hq. rewrite Hframe by lia. apply Hframe1. lia.
    + intros j Hj. destruct (Z.eq_dec j ii) as [-> | Hne].
      * exists xb. split; [exact Hx |].
        rewrite Hframe by lia. rewrite Hnew.
        now rewrite (null_at_Return _ _ _ _ Hb), (value_at_Return _ _ _ _ Hy).
      * destruct (Hupd j ltac:(lia)) as (xb' & Hx' & Hr).
        exists xb'. split.
        -- rewrite <- Hx'. symmetry. apply Hframe1.
           assert (0 <= (ii - j - 1) * sa \/ 0 <= (j - ii - 1) * sa) as [H1 | H1]
             by (destruct (Z_lt_le_dec j ii); [left | right]; nia).
           all: lia.
        -- rewrite Hr. unfold null_at, value_at.
           now rewrite Hnull_frame, Hother_frame.
Qed.

(** X22: [a += other] where [a] has nulls: [a] is the one owner of a mutable
    data buffer, it has a mutable bitmap, the two lie apart from each other
    and from the buffers of [other], and [a] lies within both.  Then the
    operator returns with [a] bound as before; at every position [i] below
    [min(length, other.length)] the result is null (for [IsNull]) exactly
    when [a] or [other] was, a null element keeps its stored value and the
    others become the converted sum; from that minimum on, nulls and
    elements are unchanged.  This is for lengths that the [int] counters
    reach and for elements whose sums, where they are taken, are defined. *)
Theorem plus_assign_with_nulls (h : store) (d va : Buffer) (theirs : bool) :
  let n := Z.min (length_ (base a)) (length_ (base other)) in
  h !! data_ (base a) = Some d -> use_count d = 1%nat -> is_mutable d = true ->
  h !! pa = Some va -> is_mutable va = true ->
  is_Some (h !! data_ (base other)) ->
  0 <= length_ (base other) ->
  int_counts (length_ (base a)) -> int_counts (length_ (base other)) ->
  (forall j, 0 <= j < n -> null_at h a j || null_at h other j = false ->
     sum_defined TYPE OTHER_TYPE (value_at h a j) (value_at h other j)) ->
  (off_a + length_ (base a)) * sa <= Z.of_nat (length (bytes d)) ->
  off_a + length_ (base a) <= 8 * Z.of_nat (length (bytes va)) ->
  HasNulls h a = Return true ->
  HasNulls h other = Return theirs ->
  (forall j, 0 <= j < n ->
     exists b y, IsNull h other j = Return b /\ data_at h other j = Return y) ->
  exists h',
    operator_plus_assign h a other = Return (a, h')
    /\ (forall i, 0 <= i < n ->
          IsNull h' a i = Return (null_at h a i || null_at h other i)
          /\ data_at h' a i
             = Return (if null_at h a i || null_at h other i
                       then value_at h a i
                       else convert TYPE (value_at h a i + value_at h other i)))
    /\ (forall i, n <= i < length_ (base a) ->
          IsNull h' a i = IsNull h a i /\ data_at h' a i = data_at h a i).
Proof.
  intros n Hd Hc Hm Hva Hvm [o Ho] Hlo _ _ _ Hin Hbits Hmine Htheirs Hread.
  assert (Hsa : 0 < sa) by (destruct TYPE; simpl; lia).
  pose proof (lookup_lt_Some _ _ _ Hd) as Hdl.
  pose proof (lookup_lt_Some _ _ _ Hva) as Hpl.
  assert (Hla : 0 < length_ (base a)).
  { unfold HasNulls in Hmine. destruct (Z_lt_le_dec 0 (length_ (base a))); [assumption |].
    replace (Z.to_nat (length_ (base a))) with 0%nat in Hmine by lia.
    discriminate. }
  assert (Hn : 0 <= n <= length_ (base a) /\ n <= length_ (base other))
    by (unfold n; lia).
  assert (Hnn : Z.of_nat (Z.to_nat n) = n) by lia.
  assert (Hnull_a : forall j, 0 <= j < length_ (base a) ->
            IsNull h a j = Return (null_at h a j)).
  { intros j Hj. destruct (GetBit_Return (bytes va) (off_a + j) ltac:(lia)) as (b & Hb).
    rewrite <- (IsNull_with_bitmap h a pa va j bitmap_of_a Hva) in Hb.
    now rewrite (null_at_Return _ _ _ _ Hb). }
  (* the bitmap after the first phase *)
  assert (Hphase : exists bits',
            (HasNulls h other ≫= λ theirs : bool,
               if theirs then merge_nulls_loop h a other (Z.to_nat n) 0 else mret h)
            = Return (<[pa := set_bytes va bits']> h)
            /\ length bits' = length (bytes va)
            /\ (forall q, q < off_a \/ off_a + n <= q ->
                  BitUtil.GetBit bits' q = BitUtil.GetBit (bytes va) q)
            /\ (forall j, 0 <= j < n ->
                  BitUtil.GetBit bits' (off_a + j)
                  = Return (null_at h a j || null_at h other j))).
  { rewrite Htheirs. cbn [mbind outcome_bind]. destruct theirs.
    - destruct (merge_nulls_loop_spec a other pa bitmap_of_a bitmap_apart other_apart_bits off_nonneg
                  (Z.to_nat n) 0 h va Hva Hvm)
        as (bits' & Hloop & Hlen & Hframe & Hupd); try lia.
      { intros j Hj. destruct (Hread j ltac:(lia)) as (b & _ & Hb & _). eauto. }
      rewrite Hnn in Hframe, Hupd. rewrite Z.add_0_r in Hframe.
      exists bits'. split; [exact Hloop |]. split; [exact Hlen |].
      split; [exact Hframe |]. intros j Hj. apply Hupd. lia.
    - exists (bytes va). rewrite set_bytes_same, list_insert_id by exact Hva.
      split; [reflexivity |]. split; [reflexivity |]. split; [reflexivity |].
      intros j Hj.
      rewrite (null_at_Return h other j false)
        by (apply HasNulls_false; [exact Htheirs | lia]).
      rewrite orb_false_r.
      rewrite <- (IsNull_with_bitmap h a pa va j bitmap_of_a Hva).
      apply Hnull_a. lia. }
  destruct Hphase as (bits' & Hphase & Hlen & Hbframe & Hbupd).
  set (h2 := <[pa := set_bytes va bits']> h) in *.
  assert (Hva2 : h2 !! pa = Some (set_bytes va bits'))
    by now apply list_lookup_insert_eq.
  assert (Hd2 : h2 !! data_ (base a) = Some d)
    by (unfold h2; rewrite list_lookup_insert_ne by exact bitmap_apart; exact Hd).
  assert (Ho2 : h2 !! data_ (base other) = Some o).
  { unfold h2. rewrite list_lookup_insert_ne; [exact Ho |].
    intros E. apply other_apart_bits. left. exact E. }
  assert (Hnull2 : forall j, IsNull h2 a j = BitUtil.GetBit bits' (off_a + j))
    by (intros j; apply (IsNull_with_bitmap h2 a pa _ j bitmap_of_a Hva2)).
  assert (Hdata2 : forall j, data_at h2 other j = data_at h other j).
  { intros j. apply data_at_frame. now rewrite Ho2. }
  assert (Hnull2_low : forall j, 0 <= j < n ->
            IsNull h2 a j = Return (null_at h a j || null_at h other j))
    by (intros j Hj; rewrite Hnull2; now apply Hbupd).
  assert (Hnull2_high : forall j, n <= j -> IsNull h2 a j = IsNull h a j).
  { intros j Hj. rewrite Hnull2, Hbframe by lia.
    symmetry. apply (IsNull_with_bitmap h a pa va j bitmap_of_a Hva). }
  assert (Hread2 : forall j, 0 <= j < length_ (base a) ->
            exists b, IsNull h2 a j = Return b).
  { intros j Hj. rewrite Hnull2. apply GetBit_Return. rewrite Hlen. lia. }
  (* the second scan still finds a null *)
  assert (Hcheck : HasNulls h2 a = Return true).
  { destruct (HasNulls_scan h a) as (r & Hr & Hiff);
      [intros j Hj; rewrite Hnull_a by exact Hj; eauto |].
    rewrite Hmine in Hr. injection Hr as <-.
    destruct (proj1 Hiff eq_refl) as (k & Hk & Hnk).
    destruct (HasNulls_scan h2 a Hread2) as (r2 & Hr2 & Hiff2).
    rewrite Hr2. f_equal. apply Hiff2. exists k. split; [exact Hk |].
    destruct (Z_lt_le_dec k n) as [Hlt | Hge].
    - rewrite (null_at_Return _ _ _ _ (Hnull2_low k ltac:(lia))).
      now rewrite Hnk.
    - unfold null_at. rewrite Hnull2_high by exact Hge. exact Hnk. }
  destruct (add_loop_checked_spec (Z.to_nat n) 0 h2 d Hd2 Hm)
    as (bs' & Hloop & Hlbs & Hframe & Hupd); try lia.
  { rewrite Hnn. nia. }
  { intros j Hj. destruct (Hread2 j ltac:(lia)) as (b & Hb).
    destruct (Hread j ltac:(lia)) as (_ & y & _ & Hy).
    exists b, y. split; [exact Hb |]. now rewrite Hdata2. }
  rewrite Hnn in Hframe, Hupd. rewrite Z.add_0_r in Hframe.
  set (h3 := <[data_ (base a) := set_bytes d bs']> h2) in *.
  assert (Hd3 : h3 !! data_ (base a) = Some (set_bytes d bs')).
  { apply list_lookup_insert_eq. unfold h2. now rewrite length_insert. }
  assert (Hnull3 : forall j, IsNull h3 a j = IsNull h2 a j).
  { intros j. apply IsNull_frame. intros p Hp. unfold h3.
    apply list_lookup_insert_ne. rewrite bitmap_of_a in Hp. congruence. }
  exists h3. split; [| split].
  - unfold operator_plus_assign.
    rewrite (EnsureMutable_unique h a d Hd Hc). cbn [mbind outcome_bind].
    rewrite Hmine. cbn [mbind outcome_bind]. fold n. rewrite Hphase.
    cbn [mbind outcome_bind]. unfold mutable_data, deref. rewrite Hd2.
    cbn [mbind outcome_bind]. rewrite Hm. cbn [mbind outcome_bind mret outcome_ret].
    rewrite Ho2. cbn [mbind outcome_bind]. rewrite Hcheck.
    cbn [mbind outcome_bind]. rewrite Hloop. reflexivity.
  - intros i Hi. split.
    + rewrite Hnull3. now apply Hnull2_low.
    + destruct (Hupd i ltac:(lia)) as (xb & Hx & Hr).
      rewrite (data_at_lookup _ _ _ _ Hd3). cbn [bytes set_bytes]. rewrite Hr.
      rewrite (null_at_Return _ _ _ _ (Hnull2_low i Hi)).
      assert (Hv : value_at h a i = of_bytes TYPE xb).
      { apply value_at_Return. now rewrite (data_at_lookup _ _ _ _ Hd), Hx. }
      assert (Hvo : value_at h2 other i = value_at h other i)
        by (unfold value_at; now rewrite Hdata2).
      rewrite Hv, Hvo.
      destruct (null_at h a i || null_at h other i); [reflexivity |].
      now rewrite of_bytes_to_bytes.
  - intros i Hi. split.
    + rewrite Hnull3. apply Hnull2_high. lia.
    + rewrite (data_at_lookup _ _ _ _ Hd3), (data_at_lookup _ _ _ _ Hd).
      cbn [bytes set_bytes]. rewrite Hframe by (right; nia). reflexivity.
Qed.

End PlusAssignChecked.

Lemma plus_assign_with_nulls_witness :
  exists h',
    operator_plus_assign Fixtures.masked_store Fixtures.masked_left
      Fixtures.masked_right
    = Return (Fixtures.masked_left, h')
    /\ IsNull h' Fixtures.masked_left 1 = Return true
    /\ data_at h' Fixtures.masked_left 1 = Return 2
    /\ data_at h' Fixtures.masked_left 2 = Return 33.
Proof.
  destruct (plus_assign_with_nulls Fixtures.masked_left Fixtures.masked_right 1%nat
              eq_refl ltac:(discriminate)
              ltac:(intros [H | H]; discriminate)
              ltac:(intros [H | H]; discriminate)
              ltac:(simpl; lia)
              Fixtures.masked_store (mkBuffer [1; 2; 3] true 1)
              (mkBuffer [1] true 1) true)
    as (h' & Hop & Hlow & _).
  - reflexivity.
  - reflexivity.
  - reflexivity.
  - reflexivity.
  - reflexivity.
  - vm_compute. eauto.
  - simpl. lia.
  - unfold int_counts. simpl. lia.
  - unfold int_counts. simpl. lia.
  - intros j Hj. change (0 <= j < 3) in Hj. intros _ _.
    change (common_width Int8Type Int8Type) with 32.
    assert (Hcase : j = 0 \/ j = 1 \/ j = 2) by lia.
    destruct Hcase as [-> | [-> | ->]]; vm_compute; split; congruence.
  - simpl. lia.
  - simpl. lia.
  - reflexivity.
  - reflexivity.
  - intros j Hj. change (0 <= j < 3) in Hj.
    assert (Hcase : j = 0 \/ j = 1 \/ j = 2) by lia.
    destruct Hcase as [-> | [-> | ->]]; vm_compute; eauto.
  - exists h'. split; [exact Hop |].
    destruct (Hlow 1 ltac:(simpl; lia)) as (Hn1 & Hd1).
    destruct (Hlow 2 ltac:(simpl; lia)) as (_ & Hd2).
    split; [exact Hn1 |]. split; [exact Hd1 | exact Hd2].
Defined.

(** ** The sum of two arrays *)

Lemma data_at_same_bytes {TYPE} (h h' : store) (a : IntegerArray TYPE)
    (d d' : Buffer) (i : Z) :
  h !! data_ (base a) = Some d -> h' !! data_ (base a) = Some d' ->
  bytes d' = bytes d ->
  data_at h' a i = data_at h a i.
Proof.
  intros Hd Hd' Hb.
  now rewrite (data_at_lookup _ _ _ _ Hd), (data_at_lookup _ _ _ _ Hd'), Hb.
Qed.

(** [a += other] on an array at offset 0 that shares its data buffer: the
    sums go to a fresh buffer, and the shared one keeps its bytes. *)
Lemma plus_assign_shared {TYPE OTHER_TYPE} (h : store)
    (a : IntegerArray TYPE) (other : IntegerArray OTHER_TYPE) (d o : Buffer) :
  let n := Z.min (length_ (base a)) (length_ (base other)) in
  let r := mkIntegerArray (mkNumericArray (length_ (base a)) 0 (length h)) None in
  valid_bits_ a = None -> valid_bits_ other = None ->
  h !! data_ (base a) = Some d -> h !! data_ (base other) = Some o ->
  offset_ (base a) = 0 -> 0 <= offset_ (base other) ->
  0 <= length_ (base a) -> 0 <= length_ (base other) ->
  length_ (base a) * int_sizeof TYPE <= Z.of_nat (length (bytes d)) ->
  (offset_ (base other) + length_ (base other)) * int_sizeof OTHER_TYPE
    <= Z.of_nat (length (bytes o)) ->
  use_count d <> 1%nat ->
  exists h',
    operator_plus_assign h a other = Return (r, h')
    /\ (forall i, 0 <= i < n ->
          data_at h' r i
          = Return (convert TYPE (value_at h a i + value_at h other i)))
    /\ (forall i, n <= i < length_ (base a) -> data_at h' r i = data_at h a i)
    /\ (forall i, data_at h' a i = data_at h a i)
    /\ (forall i, data_at h' other i = data_at h other i)
    /\ owns_data h' r = Return true.
Proof.
  intros n r Hva Hvo Hd Ho Hoff Hoo Hla Hlo Hina Hino Hc.
  assert (Hsa : 0 < int_sizeof TYPE) by (destruct TYPE; simpl; lia).
  assert (Hso : 0 < int_sizeof OTHER_TYPE) by (destruct OTHER_TYPE; simpl; lia).
  pose proof (lookup_lt_Some _ _ _ Hd) as Hdl.
  pose proof (lookup_lt_Some _ _ _ Ho) as Hol.
  assert (Hn : 0 <= n <= length_ (base a) /\ n <= length_ (base other))
    by (unfold n; lia).
  pose proof (read_bytes_Return (bytes d) (offset_ (base a))
                (length_ (base a) * int_sizeof TYPE)
                ltac:(lia) ltac:(nia) ltac:(nia)) as Hr0.
  set (bs := take _ _) in Hr0.
  pose proof (read_bytes_inv _ _ _ _ Hr0) as (_ & _ & Hlbs).
  pose proof (EnsureMutable_shared_no_bitmap h a d bs Hva Hd Hc Hr0) as He.
  fold r in He.
  set (h1 := <[data_ (base a) := release d]> (h ++ [mkBuffer bs true 1%nat])) in He.
  assert (Hd1 : h1 !! data_ (base r) = Some (mkBuffer bs true 1%nat)).
  { unfold h1, r. cbn [base data_]. rewrite list_lookup_insert_ne by lia.
    now apply list_lookup_middle. }
  assert (Ha1 : h1 !! data_ (base a) = Some (release d)).
  { unfold h1. apply list_lookup_insert_eq. rewrite length_app. simpl. lia. }
  assert (Ho1 : exists o1, h1 !! data_ (base other) = Some o1 /\ bytes o1 = bytes o).
  { unfold h1. destruct (decide (data_ (base a) = data_ (base other))) as [E | E].
    - exists (release d). rewrite <- E.
      rewrite list_lookup_insert_eq by (rewrite length_app; simpl; lia).
      split; [reflexivity |]. rewrite E in Hd. simpl. congruence.
    - exists o. rewrite list_lookup_insert_ne by exact E.
      rewrite lookup_app_l by lia. auto. }
  destruct Ho1 as (o1 & Ho1 & Hbo).
  assert (Hne : data_ (base r) <> data_ (base other)) by (unfold r; simpl; lia).
  destruct (plus_assign_after_EnsureMutable h h1 a r other OK
              (mkBuffer bs true 1%nat) o1 He eq_refl Hvo Hd1 eq_refl Ho1 Hne)
    as (bs' & Hop & Hlen & Hframe & Hupd);
    cbn [r base offset_ length_ bytes]; fold n; try rewrite Hbo; try lia; try nia.
  cbn [r base offset_ length_ bytes data_] in Hop, Hlen, Hframe, Hupd.
  fold n in Hframe, Hupd. fold r in Hop.
  set (h' := <[length h := set_bytes (mkBuffer bs true 1%nat) bs']> h1) in *.
  assert (Hd' : h' !! data_ (base r) = Some (set_bytes (mkBuffer bs true 1%nat) bs')).
  { unfold h', r. cbn [base data_]. apply list_lookup_insert_eq.
    unfold h1. rewrite length_insert, length_app. simpl. lia. }
  assert (Ho' : h' !! data_ (base other) = Some o1).
  { unfold h'. rewrite list_lookup_insert_ne by lia. exact Ho1. }
  assert (Ha' : h' !! data_ (base a) = Some (release d)).
  { unfold h'. rewrite list_lookup_insert_ne by lia. exact Ha1. }
  assert (Hwithin : forall j, 0 <= j < length_ (base a) ->
            read_bytes bs ((0 + j) * int_sizeof TYPE) (int_sizeof TYPE)
            = read_bytes (bytes d) ((offset_ (base a) + j) * int_sizeof TYPE)
                         (int_sizeof TYPE)).
  { intros j Hj.
    rewrite (read_bytes_within _ _ _ _ _ _ Hr0) by nia.
    f_equal. nia. }
  exists h'.
  split; [exact Hop |]. split; [| split; [| split; [| split]]].
  - intros i Hi. destruct (Hupd i Hi) as (xb & yb & Hx & Hy & Hr).
    assert (Hxa : data_at h a i = Return (of_bytes TYPE xb)).
    { rewrite (data_at_lookup _ _ _ _ Hd), <- Hwithin by lia. now rewrite Hx. }
    assert (Hyo : data_at h other i = Return (of_bytes OTHER_TYPE yb)).
    { rewrite (data_at_lookup _ _ _ _ Ho), <- Hbo. now rewrite Hy. }
    rewrite (value_at_Return _ _ _ _ Hxa), (value_at_Return _ _ _ _ Hyo).
    rewrite (data_at_lookup _ _ _ _ Hd'). cbn [r base offset_ bytes set_bytes].
    rewrite Hr. now rewrite of_bytes_to_bytes.
  - intros i Hi.
    rewrite (data_at_lookup _ _ _ _ Hd), (data_at_lookup _ _ _ _ Hd').
    cbn [r base offset_ bytes set_bytes].
    rewrite Hframe by (right; nia). now rewrite Hwithin by lia.
  - intros i. now apply (data_at_same_bytes h h' a d (release d)).
  - intros i. now apply (data_at_same_bytes h h' other o o1).
  - unfold owns_data. cbn [r valid_bits_]. unfold deref. fold r.
    rewrite Hd'. reflexivity.
Qed.

(** X23: [a + other] for two arrays without bitmaps, [a] at offset 0 and
    both within their buffers: the sum returns a new array of the length of
    [a], without a bitmap, that owns its data; each of its first
    [min(length, other.length)] elements is the sum of the two elements,
    converted to the element type of [a], the remaining ones are those of
    [a]; and [a] and [other] read as before.  This is for lengths that the
    [int] counters reach and for elements whose sums are defined. *)
Theorem operator_plus_elementwise {TYPE OTHER_TYPE} (h : store)
    (a : IntegerArray TYPE) (other : IntegerArray OTHER_TYPE) (d o : Buffer) :
  let n := Z.min (length_ (base a)) (length_ (base other)) in
  valid_bits_ a = None -> valid_bits_ other = None ->
  h !! data_ (base a) = Some d -> use_count d <> 0%nat ->
  h !! data_ (base other) = Some o ->
  offset_ (base a) = 0 -> 0 <= offset_ (base other) ->
  0 <= length_ (base a) -> 0 <= length_ (base other) ->
  length_ (base a) * int_sizeof TYPE <= Z.of_nat (length (bytes d)) ->
  (offset_ (base other) + length_ (base other)) * int_sizeof OTHER_TYPE
    <= Z.of_nat (length (bytes o)) ->
  int_counts (length_ (base a)) -> int_counts (length_ (base other)) ->
  (forall i, 0 <= i < n ->
     sum_defined TYPE OTHER_TYPE (value_at h a i) (value_at h other i)) ->
  exists r h',
    operator_plus h a other = Return (r, h')
    /\ length_ (base r) = length_ (base a)
    /\ valid_bits_ r = None
    /\ owns_data h' r = Return true
    /\ (forall i, 0 <= i < n ->
          data_at h' r i
          = Return (convert TYPE (value_at h a i + value_at h other i)))
    /\ (forall i, n <= i < length_ (base a) -> data_at h' r i = data_at h a i)
    /\ (forall i, data_at h' a i = data_at h a i)
    /\ (forall i, data_at h' other i = data_at h other i).
Proof.
  intros n Hva Hvo Hd Hc Ho Hoff Hoo Hla Hlo Hina Hino _ _ _.
  unfold operator_plus, IntegerArray_copy. rewrite Hva.
  set (h0 := add_owner h (data_ (base a))).
  assert (Hd0 : h0 !! data_ (base a) = Some (acquire d))
    by now apply add_owner_lookup_eq.
  assert (Ho0 : exists o0, h0 !! data_ (base other) = Some o0 /\ bytes o0 = bytes o).
  { destruct (decide (data_ (base a) = data_ (base other))) as [E | E].
    - exists (acquire d). rewrite <- E. split; [exact Hd0 |].
      rewrite E in Hd. simpl. congruence.
    - exists o. unfold h0. now rewrite add_owner_lookup_ne. }
  destruct Ho0 as (o0 & Ho0 & Hbo).
  assert (Ha0 : forall i, data_at h0 a i = data_at h a i)
    by (intros i; now apply (data_at_same_bytes h h0 a d (acquire d))).
  assert (Hb0 : forall i, data_at h0 other i = data_at h other i)
    by (intros i; now apply (data_at_same_bytes h h0 other o o0)).
  destruct (plus_assign_shared h0 a other (acquire d) o0 Hva Hvo Hd0 Ho0 Hoff Hoo
              Hla Hlo)
    as (h' & Hop & Hsum & Hrest & Hsame & Hother & Howns).
  { exact Hina. }
  { now rewrite Hbo. }
  { simpl. lia. }
  eexists _, h'. split; [exact Hop |].
  split; [reflexivity |]. split; [reflexivity |]. split; [exact Howns |].
  split; [| split; [| split]].
  - intros i Hi. rewrite (Hsum i Hi). unfold value_at. now rewrite Ha0, Hb0.
  - intros i Hi. now rewrite (Hrest i Hi).
  - intros i. now rewrite Hsame.
  - intros i. now rewrite Hother.
Qed.

Lemma operator_plus_elementwise_witness :
  exists r h',
    operator_plus Samples.numerator_store Samples.numerator Samples.denominator
    = Return (r, h')
    /\ data_at h' r 0 = Return 5
    /\ data_at h' Samples.numerator 0 = Return 1.
Proof.
  destruct (operator_plus_elementwise Samples.numerator_store Samples.numerator
              Samples.denominator
              (mkBuffer [1; 0; 0; 0; 2; 0; 0; 0; 3; 0; 0; 0] true 1)
              (mkBuffer [4; 0; 0; 0; 5; 0; 0; 0; 6; 0; 0; 0] true 1))
    as (r & h' & Hop & _ & _ & _ & Hsum & _ & Hsame & _);
    try reflexivity; try (simpl; lia); try (unfold int_counts; simpl; lia).
  - intros i Hi _. change (0 <= i < 3) in Hi.
    assert (Hcase : i = 0 \/ i = 1 \/ i = 2) by lia.
    destruct Hcase as [-> | [-> | ->]]; vm_compute; split; congruence.
  - exists r, h'. split; [exact Hop |]. split.
    + rewrite (Hsum 0 ltac:(simpl; lia)). reflexivity.
    + rewrite Hsame. reflexivity.
Defined.

(** ** Floating-point operators on a copy *)

Section FloatingOnCopy.
Context {TYPE : FloatingType}.
Variable quiet_NaN : FloatingType → list Z.
Variable operation : OPERATOR → FloatingType → list Z → scalar → list Z.
Hypothesis operation_size :
  forall op t l r, length (operation op t l r) = Z.to_nat (float_sizeof t).

Local Abbreviation sz := (float_sizeof TYPE).

(** X24: [a + other] and [a / other] for a floating array [a] at offset 0
    that lies in its data buffer, and a right operand, integer or floating,
    whose data buffer is in the store and that can be read on the common
    length [n]: the operator returns a new array of the length of [a] in a
    buffer the store did not have; every element [i] below [n] is the result
    of the operation on the two elements, also where [other] is an integer
    array that is null at [i]: no NaN is stored; the elements from [n] on
    are those of [a]; and every buffer of the store is exactly as before,
    owners included.  This is for an [n] that the [int] counter of the loop
    reaches. *)
Theorem Floating_operator_on_copy (op : OPERATOR) (h : store)
    (a : FloatingArray TYPE) (other : operand) (d : Buffer) :
  let n := Z.min (length_ (fbase a)) (operand_length other) in
  h !! data_ (fbase a) = Some d -> use_count d <> 0%nat ->
  is_Some (h !! operand_data other) ->
  offset_ (fbase a) = 0 ->
  0 <= n -> int_counts n ->
  length_ (fbase a) * sz <= Z.of_nat (length (bytes d)) ->
  (forall j, 0 <= j < n -> exists v, operand_at h other j = Return v) ->
  exists r h',
    match op with
    | plus_equals => Floating.operator_plus quiet_NaN operation h a other
    | divide_equals => Floating.operator_divide quiet_NaN operation h a other
    end = Return (r, h')
    /\ length_ (fbase r) = length_ (fbase a)
    /\ h !! data_ (fbase r) = None
    /\ (forall p b, h !! p = Some b -> h' !! p = Some b)
    /\ (forall i, 0 <= i < n ->
          exists l v,
            data_bytes h (fbase a) i = Return l
            /\ operand_at h other i = Return v
            /\ data_bytes h' (fbase r) i = Return (operation op TYPE l v))
    /\ (forall i, n <= i < length_ (fbase a) ->
          data_bytes h' (fbase r) i = data_bytes h (fbase a) i).
Proof.
  intros n Hd Hc [o Ho] Hoff Hn _ Hin Hread.
  pose proof (float_sizeof_bounds TYPE) as Hsz.
  pose proof (lookup_lt_Some _ _ _ Hd) as Hdl.
  pose proof (lookup_lt_Some _ _ _ Ho) as Hol.
  assert (Hnn : Z.of_nat (Z.to_nat n) = n) by lia.
  assert (Hla : n <= length_ (fbase a)) by (unfold n; lia).
  set (h0 := add_owner h (data_ (fbase a))).
  assert (Hl0 : length h0 = length h) by apply length_add_owner.
  assert (Hd0 : h0 !! data_ (fbase a) = Some (acquire d))
    by now apply add_owner_lookup_eq.
  pose proof (read_bytes_Return (bytes d) (offset_ (fbase a))
                (length_ (fbase a) * sz)
                ltac:(lia) ltac:(nia) ltac:(nia)) as Hr0.
  set (bs := take _ _) in Hr0.
  pose proof (read_bytes_inv _ _ _ _ Hr0) as (_ & _ & Hlbs).
  pose proof (EnsureMutableAndCheckChange_shared h0 (fbase a) (acquire d) bs Hd0
                ltac:(simpl; lia) Hr0) as He.
  set (nb := mkNumericArray (length_ (fbase a)) 0 (length h0)) in He.
  set (h1 := <[data_ (fbase a) := release (acquire d)]>
               (h0 ++ [mkBuffer bs true 1%nat])) in He.
  assert (Hsame1 : forall p b, h !! p = Some b -> h1 !! p = Some b).
  { intros p b Hb. pose proof (lookup_lt_Some _ _ _ Hb) as Hp. unfold h1.
    destruct (decide (p = data_ (fbase a))) as [-> | Hne].
    - rewrite list_lookup_insert_eq by (rewrite length_app; simpl; lia).
      assert (b = d) by congruence. subst b. now destruct d.
    - rewrite list_lookup_insert_ne by congruence.
      rewrite lookup_app_l by lia. unfold h0.
      rewrite add_owner_lookup_ne by congruence. exact Hb. }
  assert (Hnew1 : h1 !! length h0 = Some (mkBuffer bs true 1%nat)).
  { unfold h1. rewrite list_lookup_insert_ne by lia. now apply list_lookup_middle. }
  assert (Hother1 : forall j, operand_at h1 other j = operand_at h other j).
  { intros j. apply operand_at_frame. now rewrite Ho, (Hsame1 _ _ Ho). }
  assert (Hapart : operand_data other <> data_ (fbase (mkFloatingArray nb))).
  { cbn [nb fbase data_]. lia. }
  destruct (EvaluateBinaryOperator_loop_spec quiet_NaN operation
              operation_size (mkFloatingArray nb) other Hapart
              ltac:(cbn [nb fbase offset_]; lia)
              op (Z.to_nat n) 0 h1 (mkBuffer bs true 1%nat) Hnew1 eq_refl)
    as (bs' & Hloop & Hlen & Hframe & Hupd).
  { lia. }
  { cbn [nb fbase offset_ bytes]. rewrite Hnn. nia. }
  { intros j Hj. rewrite Hother1. apply Hread. lia. }
  cbn [nb fbase offset_ data_ bytes] in Hloop, Hlen, Hframe, Hupd.
  rewrite Hnn in Hframe, Hupd. rewrite Z.add_0_r in Hframe.
  set (h2 := <[length h0 := set_bytes (mkBuffer bs true 1%nat) bs']> h1) in *.
  assert (Hd2 : h2 !! length h0 = Some (set_bytes (mkBuffer bs true 1%nat) bs')).
  { apply list_lookup_insert_eq. eapply lookup_lt_Some; eauto. }
  assert (Hop : Floating.EvaluateBinaryOperator quiet_NaN operation op h0 a other
                = Return (mkFloatingArray nb, h2)).
  { unfold Floating.EvaluateBinaryOperator. rewrite He.
    cbn [mbind outcome_bind]. unfold mutable_data, deref. fold nb.
    cbn [nb data_]. rewrite Hnew1.
    cbn [mbind outcome_bind is_mutable mret outcome_ret].
    rewrite (Hsame1 _ _ Ho). cbn [mbind outcome_bind].
    change (length_ nb) with (length_ (fbase a)). fold n.
    rewrite Hloop. reflexivity. }
  exists (mkFloatingArray nb), h2.
  split; [| split; [reflexivity | split; [| split; [| split]]]].
  - destruct op; exact Hop.
  - apply lookup_ge_None. cbn [nb fbase data_]. lia.
  - intros p b Hb. pose proof (lookup_lt_Some _ _ _ Hb) as Hp.
    unfold h2. rewrite list_lookup_insert_ne by lia. now apply Hsame1.
  - intros i Hi. destruct (Hupd i ltac:(lia)) as (l & v & Hl & Hv & Hr).
    exists l, v. split; [| split; [now rewrite <- Hother1 |]].
    + unfold data_bytes, deref. rewrite Hd. cbn [mbind outcome_bind sizeof].
      rewrite <- Hl. symmetry.
      rewrite (read_bytes_within _ _ _ _ _ _ Hr0) by nia.
      f_equal. nia.
    + unfold data_bytes, deref. cbn [nb fbase data_ offset_]. rewrite Hd2.
      cbn [mbind outcome_bind sizeof bytes set_bytes]. exact Hr.
  - intros i Hi. unfold data_bytes, deref. cbn [nb fbase data_ offset_].
    rewrite Hd2, Hd. cbn [mbind outcome_bind sizeof bytes set_bytes].
    rewrite Hframe by (right; nia).
    rewrite (read_bytes_within _ _ _ _ _ _ Hr0) by nia.
    f_equal. nia.
Qed.

End FloatingOnCopy.

Lemma Floating_operator_on_copy_witness :
  IsNull Fixtures.real_store Fixtures.marks 0 = Return true
  /\ exists r h',
       Floating.operator_divide Fixtures.all_ones Fixtures.all_zeros
         Fixtures.real_store Fixtures.reals (IntegerOperand Fixtures.marks)
       = Return (r, h')
       /\ data_bytes h' (fbase r) 0 = Return [0; 0; 0; 0]
       /\ data_bytes h' (fbase r) 1 = Return [0; 0; 0; 0]
       /\ h' !! 0%nat = Some (mkBuffer [1; 1; 1; 1; 2; 2; 2; 2] true 1).
Proof.
  split; [reflexivity |].
  destruct (Floating_operator_on_copy Fixtures.all_ones Fixtures.all_zeros
              (fun op t l r => length_replicate _ _)
              divide_equals Fixtures.real_store Fixtures.reals
              (IntegerOperand Fixtures.marks)
              (mkBuffer [1; 1; 1; 1; 2; 2; 2; 2] true 1))
    as (r & h' & Hop & _ & _ & Hsame & Helem & _).
  - reflexivity.
  - simpl. lia.
  - vm_compute. eauto.
  - reflexivity.
  - simpl. lia.
  - unfold int_counts. simpl. lia.
  - simpl. lia.
  - intros j Hj. simpl in Hj.
    assert (Hcase : j = 0 \/ j = 1) by lia.
    destruct Hcase as [-> | ->]; vm_compute; eauto.
  - exists r, h'. split; [exact Hop |]. split; [| split].
    + destruct (Helem 0 ltac:(simpl; lia)) as (l & v & _ & _ & Hr). exact Hr.
    + destruct (Helem 1 ltac:(simpl; lia)) as (l & v & _ & _ & Hr). exact Hr.
    + now apply Hsame.
Defined.

(** ** The scan for nulls *)

(** X25: [HasNulls] on an array whose [IsNull] can be read at every position
    below the length: it returns, and its result is true exactly when
    [IsNull] is true at one of these positions; so it is false for an empty
    array and for an array without a bitmap.  This is for a length that the
    [int] counter of the loop reaches. *)
Theorem HasNulls_finds_null {TYPE} (h : store) (a : IntegerArray TYPE) :
  int_counts (length_ (base a)) ->
  (forall j, 0 <= j < length_ (base a) -> exists b, IsNull h a j = Return b) ->
  exists r,
    HasNulls h a = Return r
    /\ (r = true <->
        exists j, 0 <= j < length_ (base a) /\ IsNull h a j = Return true)
    /\ (length_ (base a) <= 0 \/ valid_bits_ a = None -> r = false).
Proof.
  intros _ Hread. destruct (HasNulls_scan h a Hread) as (r & Hr & Hiff).
  exists r. split; [exact Hr |].
  assert (Hiff' : r = true <->
            exists j, 0 <= j < length_ (base a) /\ IsNull h a j = Return true).
  { rewrite Hiff. split; intros (j & Hj & Hn); exists j; (split; [exact Hj |]).
    - destruct (Hread j Hj) as (b & Hb).
      rewrite (null_at_Return _ _ _ _ Hb) in Hn. now rewrite Hb, Hn.
    - now apply null_at_Return. }
  split; [exact Hiff' |].
  intros Hcase. destruct r; [| reflexivity].
  destruct (proj1 Hiff' eq_refl) as (j & Hj & Hn).
  destruct Hcase as [Hlen | Hv]; [lia |].
  unfold IsNull in Hn. rewrite Hv in Hn. discriminate.
Qed.

Lemma HasNulls_finds_null_witness :
  HasNulls Fixtures.masked_store Fixtures.masked_left = Return true
  /\ IsNull Fixtures.masked_store Fixtures.masked_left 0 = Return true.
Proof.
  destruct (HasNulls_finds_null Fixtures.masked_store Fixtures.masked_left)
    as (r & Hr & Hiff & _).
  - unfold int_counts. simpl. lia.
  - intros j Hj. change (0 <= j < 3) in Hj.
    assert (Hcase : j = 0 \/ j = 1 \/ j = 2) by lia.
    destruct Hcase as [-> | [-> | ->]]; vm_compute; eauto.
  - split; [| reflexivity]. rewrite Hr. f_equal. apply Hiff.
    exists 0. split; [simpl; lia | reflexivity].
Defined.
